(** * r3d: frame orchestration and custom-shader injection

    A shallow embedding of the parts of [src/r3d_shader_custom.c] and
    [src/r3d_draw.c] that the specification talks about, followed by the
    properties established for them.

    Conventions of the embedding.
    - A C string is the list of its characters before the terminating NUL.
    - A [float] is carried as its 32-bit pattern (a [Z]); the code only ever
      copies floats, so no floating-point arithmetic is needed.
    - A pointer that may be NULL is an [option].
    - A call that would read or write outside an object, or dereference NULL,
      yields [Fault]; an allocation whose result the source uses unchecked
      is assumed to succeed, one whose result it checks is an answer of
      the environment; [int] and [size_t] sizes stay far below their
      bounds.
    - OpenGL is an output device: functions that talk to it return the list
      of calls they issue. *)

From Stdlib Require Import Ascii String.
From Stdlib Require Import List ZArith Lia Bool Arith Sorted.
From Equations Require Import Equations.
Import ListNotations.

Set Implicit Arguments.

Arguments firstn : simpl nomatch.
Arguments skipn : simpl nomatch.

(* ===================================================================== *)
(** * Outcomes of fallible code *)
(* ===================================================================== *)

Inductive outcome (A : Type) : Type :=
| Ok (a : A)
| Fault.

Arguments Ok {A} a.
Arguments Fault {A}.

Definition obind {A B : Type} (c : outcome A) (k : A -> outcome B) : outcome B :=
  match c with
  | Ok a => k a
  | Fault => Fault
  end.

Notation "x <- c ;; k" := (obind c (fun x => k))
  (at level 61, c at next level, right associativity).
Notation "' p <- c ;; k" := (obind c (fun p => k))
  (at level 61, p pattern, c at next level, right associativity).

(* ===================================================================== *)
(** * The C string functions the sources use *)
(* ===================================================================== *)

Module CString.

Definition cstring := list ascii.

(** A literal. *)
Definition lit (s : string) : cstring := list_ascii_of_string s.

Arguments lit : simpl never.

Definition nl : ascii := "010"%char.
Definition space : ascii := " "%char.
Definition tab : ascii := "009"%char.

Definition strlen (s : cstring) : nat := length s.

(** [strchr s c]: offset of the first [c] in [s], if any. *)
Fixpoint strchr (s : cstring) (c : ascii) : option nat :=
  match s with
  | [] => None
  | x :: t => if Ascii.eqb x c then Some 0 else option_map S (strchr t c)
  end.

(** [strcmp a b == 0]. *)
Fixpoint strcmp_eq (a b : cstring) : bool :=
  match a, b with
  | [], [] => true
  | x :: a', y :: b' => Ascii.eqb x y && strcmp_eq a' b'
  | _, _ => false
  end.

(** [strncmp a b n == 0]. *)
Fixpoint strncmp_eq (a b : cstring) (n : nat) : bool :=
  match n with
  | O => true
  | S n' =>
      match a, b with
      | [], [] => true
      | x :: a', y :: b' => Ascii.eqb x y && strncmp_eq a' b' n'
      | _, _ => false
      end
  end.

(** [needle] is an initial segment of [s]. *)
Fixpoint starts_with (needle s : cstring) : bool :=
  match needle, s with
  | [], _ => true
  | x :: n', y :: s' => Ascii.eqb x y && starts_with n' s'
  | _ :: _, [] => false
  end.

(** [strstr hay needle]: offset of the first occurrence of [needle]. *)
Fixpoint strstr (hay needle : cstring) : option nat :=
  if starts_with needle hay then Some 0
  else match hay with
       | [] => None
       | _ :: t => option_map S (strstr t needle)
       end.

(** [strncpy(dst, src, n)] into a zeroed or afterwards terminated buffer of
    [n + 1] bytes leaves the first [n] characters of [src] as the string
    held by [dst]. *)
Definition strncpy (src : cstring) (n : nat) : cstring := firstn n src.

Arguments strncpy : simpl never.

End CString.
Import CString.

(* ===================================================================== *)
(** * r3d_shader_custom.c: composing the fragment source *)
(* ===================================================================== *)

Module Compose.

(** [#define USER_FRAGMENT_MARKER] *)
Definition USER_FRAGMENT_MARKER : cstring :=
  lit "#define R3D_USER_FRAGMENT_MARKER 0".

(** The scan of [trimmed] over leading spaces and tabs. *)
Fixpoint skip_blanks (s : cstring) : cstring :=
  match s with
  | c :: t => if Ascii.eqb c space || Ascii.eqb c tab then skip_blanks t else s
  | [] => []
  end.

(** [memcpy(dst, line, lineLen)], then the newline written at [dst], on a
    buffer of [cap] bytes that already holds [buf]. *)
Definition put_line (cap : nat) (buf line : cstring) : outcome cstring :=
  if length buf + length line + 1 <=? cap
  then Ok (buf ++ line ++ [nl])
  else Fault.

(** One turn of the line loop of [split_user_code] on the
    non-empty rest [line] of the source: the buffers after the turn, and
    the offset of the end of line when there is one. *)
Definition split_turn (cap : nat) (line uniformsDst bodyDst : cstring)
  : outcome (cstring * cstring * option nat) :=
  let eol := strchr line nl in
  let lineLen := match eol with Some e => e | None => strlen line end in
  let trimmed := skip_blanks line in
  if strncmp_eq trimmed (lit "uniform ") 8 then
    u <- put_line cap uniformsDst (firstn lineLen line) ;;
    Ok (u, bodyDst, eol)
  else if 0 <? lineLen then
    b <- put_line cap bodyDst (firstn lineLen line) ;;
    Ok (uniformsDst, b, eol)
  else Ok (uniformsDst, bodyDst, eol).

Equations? split_loop (cap : nat) (line uniformsDst bodyDst : cstring)
  : outcome (cstring * cstring) by wf (length line) lt :=
  split_loop cap [] u b := Ok (u, b);
  split_loop cap (c :: rest) u b with split_turn cap (c :: rest) u b := {
    | Fault => Fault
    | Ok (u', b', None) => Ok (u', b')
    | Ok (u', b', Some e) => split_loop cap (skipn e rest) u' b'
  }.
Proof.
  simpl. pose proof (length_skipn e rest). lia.
Defined.

(** The final write of the terminator just after what was written. *)
Definition terminate (cap : nat) (buf : cstring) : outcome cstring :=
  if length buf <? cap then Ok buf else Fault.

(** [split_user_code]: both buffers are [RL_MALLOC(len + 1)]. *)
Definition split_user_code (userCode : cstring) : outcome (cstring * cstring) :=
  let cap := strlen userCode + 1 in
  '(u, b) <- split_loop cap userCode [] [] ;;
  u' <- terminate cap u ;;
  b' <- terminate cap b ;;
  Ok (u', b').

(** [compose_fragment_shader]: [Ok None] is [return NULL], logged for a
    missing landmark and silent for a failed allocation. [RL_MALLOC] says
    whether the allocation of so many bytes yields a buffer. The sizes are
    [size_t]: when the marker stands before the end of the version line,
    [middleLen] wraps around, [totalLen] wraps back to the sum below, and
    the copy of [middleLen] bytes leaves every object. *)
Definition compose_fragment_shader (RL_MALLOC : nat -> bool)
    (baseShader userUniforms userBody : cstring) : outcome (option cstring) :=
  match strstr baseShader (lit "#version") with
  | None => Ok None
  | Some versionStart =>
      let versionEnd :=
        match strchr (skipn versionStart baseShader) nl with
        | None => versionStart + strlen (skipn versionStart baseShader)
        | Some e => versionStart + e + 1
        end in
      match strstr baseShader USER_FRAGMENT_MARKER with
      | None => Ok None
      | Some marker =>
          let prefixLen := versionEnd in
          let uniformsLen := strlen userUniforms in
          let middleLen := (Z.of_nat marker - Z.of_nat versionEnd)%Z in
          let bodyLen := strlen userBody in
          let markerLen := strlen USER_FRAGMENT_MARKER in
          let suffixLen := strlen (skipn (marker + markerLen) baseShader) in
          let totalLen :=
            Z.to_nat (Z.of_nat prefixLen + Z.of_nat uniformsLen + middleLen
                      + Z.of_nat bodyLen + Z.of_nat suffixLen + 1)%Z in
          if negb (RL_MALLOC totalLen) then Ok None
          else if (middleLen <? 0)%Z then Fault
          else
            Ok (Some (firstn prefixLen baseShader
                      ++ userUniforms
                      ++ firstn (Z.to_nat middleLen) (skipn versionEnd baseShader)
                      ++ userBody
                      ++ skipn (marker + markerLen) baseShader))
      end
  end.

(** The head of [R3D_CreateCustomShader], up to [composedFrag]; the
    template [GEOMETRY_FRAG] comes from a generated header. *)
Definition compose_user_fragment (RL_MALLOC : nat -> bool)
    (GEOMETRY_FRAG : cstring) (fragmentCode : option cstring)
  : outcome (option cstring) :=
  match fragmentCode with
  | None => Ok None
  | Some [] => Ok None
  | Some code =>
      '(userUniforms, userBody) <- split_user_code code ;;
      compose_fragment_shader RL_MALLOC GEOMETRY_FRAG userUniforms userBody
  end.

End Compose.

(* ===================================================================== *)
(** * OpenGL as seen by the custom-shader code *)
(* ===================================================================== *)

(** A [float], as its bit pattern. *)
Definition float32 := Z.

Module GL.

Definition GL_FLOAT : Z := 5126.        (* 0x1406 *)
Definition GL_FLOAT_VEC2 : Z := 35664.  (* 0x8B50 *)
Definition GL_FLOAT_VEC3 : Z := 35665.  (* 0x8B51 *)
Definition GL_FLOAT_VEC4 : Z := 35666.  (* 0x8B52 *)
Definition GL_SAMPLER_2D : Z := 35678.  (* 0x8B5E *)
Definition GL_TEXTURE0 : Z := 33984.    (* 0x84C0 *)
Definition GL_TEXTURE_2D : Z := 3553.   (* 0x0DE1 *)

(** The calls issued by uniform discovery and by the bind path. *)
Inductive call : Type :=
| glUseProgram (program : Z)
| glUniform1i (location : Z) (v0 : Z)
| glUniform1f (location : Z) (v0 : float32)
| glUniform2fv (location : Z) (count : Z) (value : list float32)
| glUniform3fv (location : Z) (count : Z) (value : list float32)
| glUniform4fv (location : Z) (count : Z) (value : list float32)
| glActiveTexture (texture : Z)
| glBindTexture (target : Z) (texture : Z).

(** What [glGetActiveUniform] writes for one index: the name, as it lands
    in the caller's buffer, and the type. *)
Record active_uniform : Type := { au_name : cstring; au_type : Z }.

End GL.

(* ===================================================================== *)
(** * include/r3d/r3d_shader.h and r3d_material.h: the data *)
(* ===================================================================== *)

Definition R3D_MAX_CUSTOM_UNIFORMS : nat := 16.
Definition R3D_MAX_UNIFORM_NAME_LENGTH : nat := 64.

Inductive R3D_ParamType : Type :=
| R3D_PARAM_FLOAT
| R3D_PARAM_VEC2
| R3D_PARAM_VEC3
| R3D_PARAM_VEC4
| R3D_PARAM_TEX2D.

Module Vector2.
Record t : Type := { x : float32; y : float32 }.
End Vector2.

Module Vector3.
Record t : Type := { x : float32; y : float32; z : float32 }.
End Vector3.

Module Vector4.
Record t : Type := { x : float32; y : float32; z : float32; w : float32 }.
End Vector4.

(** raylib's [Texture2D]: five 32-bit members. *)
Module Texture2D.
Record t : Type := { id : Z; width : Z; height : Z; mipmaps : Z; format : Z }.
End Texture2D.

(** The [value] union of [R3D_MaterialParam]. Its largest member is the
    texture, five 32-bit words; every member starts at the first word. *)
Module Value.
Record t : Type := { w0 : Z; w1 : Z; w2 : Z; w3 : Z; w4 : Z }.

Definition zero : t := {| w0 := 0; w1 := 0; w2 := 0; w3 := 0; w4 := 0 |}.

(** Reading a member. *)
Definition f (u : t) : float32 := w0 u.
Definition v2 (u : t) : list float32 := [w0 u; w1 u].
Definition v3 (u : t) : list float32 := [w0 u; w1 u; w2 u].
Definition v4 (u : t) : list float32 := [w0 u; w1 u; w2 u; w3 u].
Definition tex (u : t) : Texture2D.t :=
  {| Texture2D.id := w0 u; Texture2D.width := w1 u; Texture2D.height := w2 u;
     Texture2D.mipmaps := w3 u; Texture2D.format := w4 u |}.

(** Writing a member leaves the words it does not cover. *)
Definition set_f (a : float32) (u : t) : t :=
  {| w0 := a; w1 := w1 u; w2 := w2 u; w3 := w3 u; w4 := w4 u |}.
Definition set_v2 (a b : float32) (u : t) : t :=
  {| w0 := a; w1 := b; w2 := w2 u; w3 := w3 u; w4 := w4 u |}.
Definition set_v3 (a b c : float32) (u : t) : t :=
  {| w0 := a; w1 := b; w2 := c; w3 := w3 u; w4 := w4 u |}.
Definition set_v4 (a b c d : float32) (u : t) : t :=
  {| w0 := a; w1 := b; w2 := c; w3 := d; w4 := w4 u |}.
Definition set_tex (x : Texture2D.t) (u : t) : t :=
  {| w0 := Texture2D.id x; w1 := Texture2D.width x; w2 := Texture2D.height x;
     w3 := Texture2D.mipmaps x; w4 := Texture2D.format x |}.
End Value.

Module R3D_UniformInfo.
Record t : Type := {
  name : cstring;
  location : Z;
  type : R3D_ParamType;
  texSlot : Z
}.
(** An entry of a [RL_CALLOC]ed shader. *)
Definition zero : t :=
  {| name := []; location := 0; type := R3D_PARAM_FLOAT; texSlot := 0 |}.
End R3D_UniformInfo.

Module R3D_MaterialParam.
Record t : Type := {
  name : cstring;
  type : R3D_ParamType;
  value : Value.t
}.
End R3D_MaterialParam.

(** [struct R3D_Shader], without the cached built-in locations, which none
    of the functions below reads. [customUniforms] is the whole array of
    [R3D_MAX_CUSTOM_UNIFORMS] entries. *)
Module R3D_Shader.
Record t : Type := {
  program : Z;
  customUniforms : list R3D_UniformInfo.t;
  customUniformCount : Z;
  nextTexSlot : Z
}.

(** The shader as [R3D_CreateCustomShader] has it before discovery. *)
Definition fresh (program : Z) : t :=
  {| program := program;
     customUniforms := repeat R3D_UniformInfo.zero R3D_MAX_CUSTOM_UNIFORMS;
     customUniformCount := 0;
     nextTexSlot := 0 |}.

(** The entries [customUniforms[0 .. customUniformCount)]. *)
Definition registered (sh : t) : list R3D_UniformInfo.t :=
  firstn (Z.to_nat (customUniformCount sh)) (customUniforms sh).
End R3D_Shader.

(** The custom-shader part of [struct R3D_Material]. [params] is NULL or
    the heap array; the list holds its initialised slots, [paramCapacity]
    says how many slots were allocated. [shader] is the handle. *)
Module R3D_Material.
Record t : Type := {
  shader : option Z;
  params : option (list R3D_MaterialParam.t);
  paramCount : Z;
  paramCapacity : Z
}.

Definition slots (m : t) : list R3D_MaterialParam.t :=
  match params m with Some l => l | None => [] end.
End R3D_Material.

(** [arr[i] = x] for [i] inside the array. *)
Fixpoint array_set {A : Type} (i : nat) (x : A) (arr : list A) : list A :=
  match arr, i with
  | [], _ => []
  | _ :: t, O => x :: t
  | a :: t, S i' => a :: array_set i' x t
  end.

(* ===================================================================== *)
(** * r3d_shader_custom.c: uniform discovery *)
(* ===================================================================== *)

Module Discover.

Definition FIRST_CUSTOM_TEX_SLOT : Z := 5.

Definition builtinUniforms : list cstring :=
  map lit
    ["uTexAlbedo"; "uTexNormal"; "uTexEmission"; "uTexORM"; "uTexBoneMatrices";
     "uAlphaCutoff"; "uNormalScale"; "uOcclusion"; "uRoughness"; "uMetalness";
     "uAlbedoColor"; "uEmissionEnergy"; "uEmissionColor";
     "uTexCoordOffset"; "uTexCoordScale"; "uInstancing"; "uSkinning"; "uBillboard";
     "uMatModel"; "uMatNormal"; "ViewBlock"]%string.

(** The inner loop over [builtinUniforms]. *)
Fixpoint isBuiltin (name : cstring) (table : list cstring) : bool :=
  match table with
  | [] => false
  | b :: rest => if strcmp_eq name b then true else isBuiltin name rest
  end.

(** The [switch (type)]: [None] is the [default] branch. *)
Definition map_gl_type (type : Z) : option R3D_ParamType :=
  if (type =? GL.GL_FLOAT)%Z then Some R3D_PARAM_FLOAT
  else if (type =? GL.GL_FLOAT_VEC2)%Z then Some R3D_PARAM_VEC2
  else if (type =? GL.GL_FLOAT_VEC3)%Z then Some R3D_PARAM_VEC3
  else if (type =? GL.GL_FLOAT_VEC4)%Z then Some R3D_PARAM_VEC4
  else if (type =? GL.GL_SAMPLER_2D)%Z then Some R3D_PARAM_TEX2D
  else None.

Section WithProgram.

(** [glGetUniformLocation(shader->program, name)]. *)
Variable glGetUniformLocation : cstring -> Z.

(** The body of the [for] loop once the three [continue] tests have let
    the uniform through. *)
Definition register (u : GL.active_uniform) (sh : R3D_Shader.t)
  : R3D_Shader.t * list GL.call :=
  let name := GL.au_name u in
  let idx := Z.to_nat (R3D_Shader.customUniformCount sh) in
  let old := nth idx (R3D_Shader.customUniforms sh) R3D_UniformInfo.zero in
  let count1 := (R3D_Shader.customUniformCount sh + 1)%Z in
  let info_name := strncpy name (R3D_MAX_UNIFORM_NAME_LENGTH - 1) in
  let info_location := glGetUniformLocation name in
  let store info count slot :=
    {| R3D_Shader.program := R3D_Shader.program sh;
       R3D_Shader.customUniforms :=
         array_set idx info (R3D_Shader.customUniforms sh);
       R3D_Shader.customUniformCount := count;
       R3D_Shader.nextTexSlot := slot |} in
  match map_gl_type (GL.au_type u) with
  | Some R3D_PARAM_TEX2D =>
      let slot := R3D_Shader.nextTexSlot sh in
      (store {| R3D_UniformInfo.name := info_name;
                R3D_UniformInfo.location := info_location;
                R3D_UniformInfo.type := R3D_PARAM_TEX2D;
                R3D_UniformInfo.texSlot := slot |}
             count1 (slot + 1)%Z,
       [GL.glUseProgram (R3D_Shader.program sh);
        GL.glUniform1i info_location slot])
  | Some ty =>
      (store {| R3D_UniformInfo.name := info_name;
                R3D_UniformInfo.location := info_location;
                R3D_UniformInfo.type := ty;
                R3D_UniformInfo.texSlot := (-1)%Z |}
             count1 (R3D_Shader.nextTexSlot sh),
       [])
  | None =>
      (* name and location were written, then the count taken back *)
      (store {| R3D_UniformInfo.name := info_name;
                R3D_UniformInfo.location := info_location;
                R3D_UniformInfo.type := R3D_UniformInfo.type old;
                R3D_UniformInfo.texSlot := R3D_UniformInfo.texSlot old |}
             (count1 - 1)%Z (R3D_Shader.nextTexSlot sh),
       [])
  end.

(** The [for] loop, on the uniforms [glGetActiveUniform] reports for
    the indices still to visit. *)
Fixpoint discover_loop (active : list GL.active_uniform) (sh : R3D_Shader.t)
    (gl : list GL.call) : R3D_Shader.t * list GL.call :=
  match active with
  | [] => (sh, gl)
  | u :: rest =>
      if (R3D_Shader.customUniformCount sh <? Z.of_nat R3D_MAX_CUSTOM_UNIFORMS)%Z
      then
        let name := GL.au_name u in
        if isBuiltin name builtinUniforms then discover_loop rest sh gl
        else if strncmp_eq name (lit "gl_") 3 then discover_loop rest sh gl
        else
          match strchr name "["%char with
          | Some _ => discover_loop rest sh gl
          | None =>
              let '(sh', calls) := register u sh in
              discover_loop rest sh' (gl ++ calls)
          end
      else (sh, gl)
  end.

Definition discover_custom_uniforms (active : list GL.active_uniform)
    (shader : R3D_Shader.t) : R3D_Shader.t * list GL.call :=
  let sh :=
    {| R3D_Shader.program := R3D_Shader.program shader;
       R3D_Shader.customUniforms := R3D_Shader.customUniforms shader;
       R3D_Shader.customUniformCount := 0;
       R3D_Shader.nextTexSlot := FIRST_CUSTOM_TEX_SLOT |} in
  discover_loop active sh [].

End WithProgram.

End Discover.

(* ===================================================================== *)
(** * r3d_shader_custom.c: material parameters *)
(* ===================================================================== *)

Module Params.

(** The search loop shared by [FindOrCreateParam] and the bind path:
    [n] slots are still to be compared, the next one has index [i]. A slot
    beyond the initialised ones cannot be read. *)
Fixpoint find_param (ps : list R3D_MaterialParam.t) (n i : nat) (name : cstring)
  : outcome (option (nat * R3D_MaterialParam.t)) :=
  match n with
  | O => Ok None
  | S n' =>
      match ps with
      | [] => Fault
      | p :: ps' =>
          if strcmp_eq (R3D_MaterialParam.name p) name then Ok (Some (i, p))
          else find_param ps' n' (S i) name
      end
  end.

(** [params[i] = x], the slot being the next free one or an older one. *)
Definition write_slot (i : nat) (x : R3D_MaterialParam.t)
    (arr : list R3D_MaterialParam.t) : list R3D_MaterialParam.t :=
  firstn i arr ++ x :: skipn (S i) arr.

(** [FindOrCreateParam]: the material afterwards and the index of the
    slot the returned pointer designates. *)
Definition FindOrCreateParam (material : R3D_Material.t) (name : cstring)
    (type : R3D_ParamType) : outcome (R3D_Material.t * nat) :=
  found <- find_param (R3D_Material.slots material)
             (Z.to_nat (R3D_Material.paramCount material)) 0 name ;;
  match found with
  | Some (i, _) => Ok (material, i)
  | None =>
      let '(arr, count, capacity) :=
        match R3D_Material.params material with
        | None => ([], 0%Z, 4%Z)
        | Some l =>
            if (R3D_Material.paramCapacity material
                <=? R3D_Material.paramCount material)%Z
            then (l, R3D_Material.paramCount material,
                  (R3D_Material.paramCapacity material * 2)%Z)
            else (l, R3D_Material.paramCount material,
                  R3D_Material.paramCapacity material)
        end in
      if ((0 <=? count) && (count <? capacity))%Z then
        let param :=
          {| R3D_MaterialParam.name :=
               strncpy name (R3D_MAX_UNIFORM_NAME_LENGTH - 1);
             R3D_MaterialParam.type := type;
             R3D_MaterialParam.value := Value.zero |} in
        Ok ({| R3D_Material.shader := R3D_Material.shader material;
               R3D_Material.params := Some (write_slot (Z.to_nat count) param arr);
               R3D_Material.paramCount := (count + 1)%Z;
               R3D_Material.paramCapacity := capacity |},
            Z.to_nat count)
      else Fault
  end.

(** An assignment through the pointer [FindOrCreateParam] returned. *)
Definition store_value (material : R3D_Material.t) (i : nat)
    (assign : Value.t -> Value.t) : outcome R3D_Material.t :=
  match nth_error (R3D_Material.slots material) i with
  | None => Fault
  | Some p =>
      let p' :=
        {| R3D_MaterialParam.name := R3D_MaterialParam.name p;
           R3D_MaterialParam.type := R3D_MaterialParam.type p;
           R3D_MaterialParam.value := assign (R3D_MaterialParam.value p) |} in
      Ok {| R3D_Material.shader := R3D_Material.shader material;
            R3D_Material.params :=
              Some (array_set i p' (R3D_Material.slots material));
            R3D_Material.paramCount := R3D_Material.paramCount material;
            R3D_Material.paramCapacity := R3D_Material.paramCapacity material |}
  end.

(** The common shape of the five setters: the guard on the two pointers,
    the lookup, the assignment. The result is the material the pointer
    designates afterwards. *)
Definition set_material (material : option R3D_Material.t) (name : option cstring)
    (type : R3D_ParamType) (assign : Value.t -> Value.t)
  : outcome (option R3D_Material.t) :=
  match material, name with
  | Some m, Some n =>
      '(m', i) <- FindOrCreateParam m n type ;;
      m'' <- store_value m' i assign ;;
      Ok (Some m'')
  | _, _ => Ok material
  end.

Definition R3D_SetMaterialFloat material name (value : float32) :=
  set_material material name R3D_PARAM_FLOAT (Value.set_f value).

Definition R3D_SetMaterialVec2 material name (value : Vector2.t) :=
  set_material material name R3D_PARAM_VEC2
    (Value.set_v2 (Vector2.x value) (Vector2.y value)).

Definition R3D_SetMaterialVec3 material name (value : Vector3.t) :=
  set_material material name R3D_PARAM_VEC3
    (Value.set_v3 (Vector3.x value) (Vector3.y value) (Vector3.z value)).

Definition R3D_SetMaterialVec4 material name (value : Vector4.t) :=
  set_material material name R3D_PARAM_VEC4
    (Value.set_v4 (Vector4.x value) (Vector4.y value) (Vector4.z value)
       (Vector4.w value)).

Definition R3D_SetMaterialTexture material name (texture : Texture2D.t) :=
  set_material material name R3D_PARAM_TEX2D (Value.set_tex texture).

(** The state of a material that the setters keep: no array and no
    parameter, or an array holding [paramCount] parameters in a positive
    number of slots. *)
Definition material_ok (m : R3D_Material.t) : Prop :=
  match R3D_Material.params m with
  | None => R3D_Material.paramCount m = 0%Z
  | Some l =>
      R3D_Material.paramCount m = Z.of_nat (length l)
      /\ (0 < R3D_Material.paramCapacity m)%Z
      /\ (R3D_Material.paramCount m <= R3D_Material.paramCapacity m)%Z
  end.

(** A material with no custom parameter yet. *)
Definition no_params (shader : option Z) : R3D_Material.t :=
  {| R3D_Material.shader := shader; R3D_Material.params := None;
     R3D_Material.paramCount := 0; R3D_Material.paramCapacity := 0 |}.

End Params.

(* ===================================================================== *)
(** * r3d_shader_custom.c: the bind path *)
(* ===================================================================== *)

Module Bind.

(** The [switch (info->type)]. *)
Definition bind_calls (info : R3D_UniformInfo.t) (param : R3D_MaterialParam.t)
  : list GL.call :=
  let value := R3D_MaterialParam.value param in
  let location := R3D_UniformInfo.location info in
  match R3D_UniformInfo.type info with
  | R3D_PARAM_FLOAT => [GL.glUniform1f location (Value.f value)]
  | R3D_PARAM_VEC2 => [GL.glUniform2fv location 1 (Value.v2 value)]
  | R3D_PARAM_VEC3 => [GL.glUniform3fv location 1 (Value.v3 value)]
  | R3D_PARAM_VEC4 => [GL.glUniform4fv location 1 (Value.v4 value)]
  | R3D_PARAM_TEX2D =>
      [GL.glActiveTexture (GL.GL_TEXTURE0 + R3D_UniformInfo.texSlot info)%Z;
       GL.glBindTexture GL.GL_TEXTURE_2D (Texture2D.id (Value.tex value))]
  end.

(** One turn of the outer loop: the calls issued for [info]. *)
Definition bind_uniform (material : R3D_Material.t) (info : R3D_UniformInfo.t)
  : outcome (list GL.call) :=
  found <- Params.find_param (R3D_Material.slots material)
             (Z.to_nat (R3D_Material.paramCount material)) 0
             (R3D_UniformInfo.name info) ;;
  match found with
  | None => Ok []
  | Some (_, param) => Ok (bind_calls info param)
  end.

Fixpoint bind_loop (material : R3D_Material.t) (infos : list R3D_UniformInfo.t)
  : outcome (list GL.call) :=
  match infos with
  | [] => Ok []
  | info :: rest =>
      calls <- bind_uniform material info ;;
      more <- bind_loop material rest ;;
      Ok (calls ++ more)
  end.

Definition R3D_BindCustomUniforms (shader : option R3D_Shader.t)
    (material : option R3D_Material.t) : outcome (list GL.call) :=
  match shader, material with
  | Some sh, Some m => bind_loop m (R3D_Shader.registered sh)
  | _, _ => Ok []
  end.

End Bind.

(* ===================================================================== *)
(** * r3d_draw.c: draw submission *)
(* ===================================================================== *)

Module Draw.

Local Open Scope Z_scope.

(** raylib's [Matrix]: sixteen floats. *)
Definition Matrix : Type := list float32.

Module BoundingBox.
Record t : Type := { min : Vector3.t; max : Vector3.t }.
Definition zero : t :=
  {| min := {| Vector3.x := 0; Vector3.y := 0; Vector3.z := 0 |};
     max := {| Vector3.x := 0; Vector3.y := 0; Vector3.z := 0 |} |}.
End BoundingBox.

(** [R3D_Mesh]: the member the submission functions read, and the rest of
    the structure (buffers, bounds, shadow mode) as one value. *)
Module R3D_Mesh.
Record t : Type := { layerMask : Z; geometry : Z }.
End R3D_Mesh.

(** [R3D_Model], as far as the submission functions read it. *)
Module R3D_Model.
Record t : Type := {
  meshes : list R3D_Mesh.t;
  materials : list R3D_Material.t;
  meshMaterials : list Z;
  meshCount : Z;
  aabb : BoundingBox.t;
  skeleton : Z;
  player : option Z
}.
End R3D_Model.

Module instanced_t.
Record t : Type := {
  allAabb : BoundingBox.t;
  transforms : option Z;
  transStride : Z;
  colStride : Z;
  colors : option Z;
  count : Z
}.
Definition zero : t :=
  {| allAabb := BoundingBox.zero; transforms := None; transStride := 0;
     colStride := 0; colors := None; count := 0 |}.
End instanced_t.

Module r3d_draw_group_t.
Record t : Type := {
  aabb : BoundingBox.t;
  transform : Matrix;
  skeleton : Z;
  player : option Z;
  instanced : instanced_t.t
}.
End r3d_draw_group_t.

Module r3d_draw_call_t.
Record t : Type := { material : R3D_Material.t; mesh : R3D_Mesh.t }.
End r3d_draw_call_t.

(** What the frame has collected so far. A call is kept with the index
    of its group and with the [decal] argument of the push. *)
Record draw_lists : Type := {
  groups : list r3d_draw_group_t.t;
  calls : list (nat * r3d_draw_call_t.t * bool)
}.

Definition empty_lists : draw_lists := {| groups := []; calls := [] |}.

(** Modelled from the spec: [r3d_draw_group_push] lives in the draw
    module, of which only the callers are at hand; pushing a group appends
    it to the frame's groups. *)
Definition r3d_draw_group_push (g : r3d_draw_group_t.t) (st : draw_lists)
  : draw_lists :=
  {| groups := groups st ++ [g]; calls := calls st |}.

(** Modelled from the spec: [r3d_draw_call_push] lives in the same
    module; a pushed call is associated with the most recently pushed
    group. *)
Definition r3d_draw_call_push (c : r3d_draw_call_t.t) (decal : bool)
    (st : draw_lists) : draw_lists :=
  {| groups := groups st;
     calls := calls st ++ [((length (groups st) - 1)%nat, c, decal)] |}.

Section WithCache.

(** [R3D_CACHE_FLAGS_HAS(layers, mask)]: the macro and the cache are
    defined in a module that is not at hand. *)
Variable layers_has : Z -> bool.

(** [R3D_GetDefaultMaterial()]. *)
Variable R3D_GetDefaultMaterial : R3D_Material.t.

Definition select_material (material : option R3D_Material.t) : R3D_Material.t :=
  match material with
  | Some m => m
  | None => R3D_GetDefaultMaterial
  end.

Definition R3D_DrawMesh (mesh : option R3D_Mesh.t)
    (material : option R3D_Material.t) (transform : Matrix)
    (st : draw_lists) : outcome draw_lists :=
  match mesh with
  | None => Fault
  | Some me =>
      if negb (layers_has (R3D_Mesh.layerMask me)) then Ok st
      else
        let drawGroup :=
          {| r3d_draw_group_t.aabb := BoundingBox.zero;
             r3d_draw_group_t.transform := transform;
             r3d_draw_group_t.skeleton := 0;
             r3d_draw_group_t.player := None;
             r3d_draw_group_t.instanced := instanced_t.zero |} in
        let st1 := r3d_draw_group_push drawGroup st in
        let drawCall :=
          {| r3d_draw_call_t.material := select_material material;
             r3d_draw_call_t.mesh := me |} in
        Ok (r3d_draw_call_push drawCall false st1)
  end.

Definition instancing (globalAabb : option BoundingBox.t)
    (instanceTransforms : option Z) (transformsStride : Z)
    (instanceColors : option Z) (colorsStride : Z) (instanceCount : Z)
  : instanced_t.t :=
  {| instanced_t.allAabb :=
       match globalAabb with Some b => b | None => BoundingBox.zero end;
     instanced_t.transforms := instanceTransforms;
     instanced_t.transStride := transformsStride;
     instanced_t.colStride := colorsStride;
     instanced_t.colors := instanceColors;
     instanced_t.count := instanceCount |}.

Definition R3D_DrawMeshInstancedPro (mesh : option R3D_Mesh.t)
    (material : option R3D_Material.t)
    (globalAabb : option BoundingBox.t) (globalTransform : Matrix)
    (instanceTransforms : option Z) (transformsStride : Z)
    (instanceColors : option Z) (colorsStride : Z)
    (instanceCount : Z) (st : draw_lists) : outcome draw_lists :=
  match mesh with
  | None => Fault
  | Some me =>
      if negb (layers_has (R3D_Mesh.layerMask me)) then Ok st
      else
        match instanceTransforms with
        | None => Ok st
        | Some _ =>
            if (instanceCount =? 0)%Z then Ok st
            else
              let drawGroup :=
                {| r3d_draw_group_t.aabb := BoundingBox.zero;
                   r3d_draw_group_t.transform := globalTransform;
                   r3d_draw_group_t.skeleton := 0;
                   r3d_draw_group_t.player := None;
                   r3d_draw_group_t.instanced :=
                     instancing globalAabb instanceTransforms transformsStride
                       instanceColors colorsStride instanceCount |} in
              let st1 := r3d_draw_group_push drawGroup st in
              let drawCall :=
                {| r3d_draw_call_t.material := select_material material;
                   r3d_draw_call_t.mesh := me |} in
              Ok (r3d_draw_call_push drawCall false st1)
        end
  end.

(** [R3D_DrawMeshInstanced], with [MatrixIdentity()] handed in. *)
Definition R3D_DrawMeshInstanced (MatrixIdentity : Matrix)
    (mesh : option R3D_Mesh.t) (material : option R3D_Material.t)
    (instanceTransforms : option Z) (instanceCount : Z) (st : draw_lists)
  : outcome draw_lists :=
  R3D_DrawMeshInstancedPro mesh material None MatrixIdentity
    instanceTransforms 0 None 0 instanceCount st.

(** The [for] loop over the meshes of a model, shared by the two model
    submissions: [n] turns are left, the next index is [i]. *)
Fixpoint mesh_loop (model : R3D_Model.t) (n i : nat) (st : draw_lists)
  : outcome draw_lists :=
  match n with
  | O => Ok st
  | S n' =>
      match nth_error (R3D_Model.meshes model) i with
      | None => Fault
      | Some me =>
          if negb (layers_has (R3D_Mesh.layerMask me)) then Ok st
          else
            match nth_error (R3D_Model.meshMaterials model) i with
            | None => Fault
            | Some k =>
                if (k <? 0)%Z then Fault
                else
                  match nth_error (R3D_Model.materials model) (Z.to_nat k) with
                  | None => Fault
                  | Some mat =>
                      let drawCall :=
                        {| r3d_draw_call_t.material := mat;
                           r3d_draw_call_t.mesh := me |} in
                      mesh_loop model n' (S i)
                        (r3d_draw_call_push drawCall false st)
                  end
            end
      end
  end.

Definition R3D_DrawModelPro (model : option R3D_Model.t) (transform : Matrix)
    (st : draw_lists) : outcome draw_lists :=
  match model with
  | None => Fault
  | Some mo =>
      let drawGroup :=
        {| r3d_draw_group_t.aabb := R3D_Model.aabb mo;
           r3d_draw_group_t.transform := transform;
           r3d_draw_group_t.skeleton := R3D_Model.skeleton mo;
           r3d_draw_group_t.player := R3D_Model.player mo;
           r3d_draw_group_t.instanced := instanced_t.zero |} in
      mesh_loop mo (Z.to_nat (R3D_Model.meshCount mo)) 0%nat
        (r3d_draw_group_push drawGroup st)
  end.

Definition R3D_DrawModelInstancedPro (model : option R3D_Model.t)
    (globalAabb : option BoundingBox.t) (globalTransform : Matrix)
    (instanceTransforms : option Z) (transformsStride : Z)
    (instanceColors : option Z) (colorsStride : Z)
    (instanceCount : Z) (st : draw_lists) : outcome draw_lists :=
  match model, instanceTransforms with
  | Some mo, Some _ =>
      if ((instanceCount =? 0) || (R3D_Model.meshCount mo =? 0))%Z then Ok st
      else
        let drawGroup :=
          {| r3d_draw_group_t.aabb := R3D_Model.aabb mo;
             r3d_draw_group_t.transform := globalTransform;
             r3d_draw_group_t.skeleton := R3D_Model.skeleton mo;
             r3d_draw_group_t.player := R3D_Model.player mo;
             r3d_draw_group_t.instanced :=
               instancing globalAabb instanceTransforms transformsStride
                 instanceColors colorsStride instanceCount |} in
        mesh_loop mo (Z.to_nat (R3D_Model.meshCount mo)) 0%nat
          (r3d_draw_group_push drawGroup st)
  | _, _ => Ok st
  end.

End WithCache.

End Draw.

(* ===================================================================== *)
(** * r3d_draw.c: the frame *)
(* ===================================================================== *)

Module Frame.

(** What [R3D_End] asks of the cache, the draw lists and the light
    module, each answer as the condition of the [if] that reads it. *)
Record frame : Type := {
  NO_FRUSTUM_CULLING : bool;
  OPAQUE_SORTING : bool;
  TRANSPARENT_SORTING : bool;
  FXAA : bool;
  has_deferred : bool;
  has_decal : bool;
  has_prepass : bool;
  has_forward : bool;
  light_has_visible : bool;
  ssao_enabled : bool;
  ssil_enabled : bool;
  ssr_enabled : bool;
  fog_on : bool;     (* environment.fog.mode != R3D_FOG_DISABLED *)
  dof_on : bool;     (* environment.dof.mode != R3D_DOF_DISABLED *)
  bloom_on : bool    (* environment.bloom.mode != R3D_BLOOM_DISABLED *)
}.

Inductive draw_list : Type := R3D_DRAW_DEFERRED | R3D_DRAW_PREPASS | R3D_DRAW_FORWARD.
Inductive sort_order : Type := R3D_DRAW_SORT_FRONT_TO_BACK | R3D_DRAW_SORT_BACK_TO_FRONT.
Inductive clear_set : Type := R3D_TARGET_ALL_DEFERRED | R3D_TARGET_DEPTH.

(** A screen-space source handed to a later pass: [R3D_TARGET_INVALID],
    or what the preparing pass returned. *)
Inductive source : Type := R3D_TARGET_INVALID | prepared.

(** The calls [R3D_End] makes. *)
Inductive call : Type :=
| r3d_light_update_and_cull
| pass_scene_shadow
| r3d_draw_compute_visible_groups
| r3d_draw_sort_list (list : draw_list) (order : sort_order)
| r3d_cache_bind_view_state
| R3D_TARGET_CLEAR (what : clear_set)
| pass_scene_geometry
| pass_scene_decals
| pass_prepare_ssao
| pass_deferred_lights (ssaoSource : source)
| pass_prepare_ssil
| pass_prepare_ssr
| pass_deferred_ambient (ssaoSource ssilSource ssrSource : source)
| pass_deferred_compose
| pass_scene_background
| pass_scene_prepass
| pass_scene_forward
| pass_post_setup
| pass_post_fog
| pass_post_dof
| pass_post_bloom
| pass_post_output
| pass_post_fxaa
| r3d_target_blit
| reset_raylib_state.

Definition when (b : bool) (l : list call) : list call := if b then l else [].

Definition src (enabled : bool) : source :=
  if enabled then prepared else R3D_TARGET_INVALID.

(** Update and collect all visible lights then render shadow maps. *)
Definition shadows (f : frame) : list call :=
  [r3d_light_update_and_cull; pass_scene_shadow].

(** Cull groups and sort all draw calls before rendering. *)
Definition cull_and_sort (f : frame) : list call :=
  when (negb (NO_FRUSTUM_CULLING f)) [r3d_draw_compute_visible_groups]
  ++ when (OPAQUE_SORTING f)
       [r3d_draw_sort_list R3D_DRAW_DEFERRED R3D_DRAW_SORT_FRONT_TO_BACK]
  ++ when (TRANSPARENT_SORTING f)
       [r3d_draw_sort_list R3D_DRAW_PREPASS R3D_DRAW_SORT_BACK_TO_FRONT;
        r3d_draw_sort_list R3D_DRAW_FORWARD R3D_DRAW_SORT_BACK_TO_FRONT].

(** Opaque and decal rendering with deferred lighting and composition. *)
Definition deferred (f : frame) : list call :=
  if has_deferred f then
    [R3D_TARGET_CLEAR R3D_TARGET_ALL_DEFERRED; pass_scene_geometry]
    ++ when (has_decal f) [pass_scene_decals]
    ++ when (ssao_enabled f) [pass_prepare_ssao]
    ++ when (light_has_visible f) [pass_deferred_lights (src (ssao_enabled f))]
    ++ when (ssil_enabled f) [pass_prepare_ssil]
    ++ when (ssr_enabled f) [pass_prepare_ssr]
    ++ [pass_deferred_ambient (src (ssao_enabled f)) (src (ssil_enabled f))
          (src (ssr_enabled f));
        pass_deferred_compose]
  else [R3D_TARGET_CLEAR R3D_TARGET_DEPTH].

(** Then background and transparent rendering. *)
Definition background_and_transparent (f : frame) : list call :=
  [pass_scene_background]
  ++ when (has_forward f || has_prepass f)
       (when (has_prepass f) [pass_scene_prepass] ++ [pass_scene_forward]).

(** Applying effects over the scene and final blit. *)
Definition post_and_blit (f : frame) : list call :=
  [pass_post_setup]
  ++ when (fog_on f) [pass_post_fog]
  ++ when (dof_on f) [pass_post_dof]
  ++ when (bloom_on f) [pass_post_bloom]
  ++ [pass_post_output]
  ++ when (FXAA f) [pass_post_fxaa]
  ++ [r3d_target_blit].

Definition R3D_End (f : frame) : list call :=
  shadows f
  ++ cull_and_sort f
  ++ [r3d_cache_bind_view_state]
  ++ deferred f
  ++ background_and_transparent f
  ++ post_and_blit f
  ++ [reset_raylib_state].

End Frame.

(* ===================================================================== *)
(** * The specification's side *)
(* ===================================================================== *)

(** The frame state machine of the specification: the passes in their
    prescribed order, and which call of [R3D_End] carries out which. *)
Module StateMachine.

Inductive pass : Type :=
| Shadow | Culling | Sorting
| Geometry | Decals | SSAO | Lighting | SSIL | SSR | Ambient | Compose
| Background | Prepass | Forward
| PostFog | PostDoF | PostBloom | PostTonemap | PostFXAA
| Blit.

Definition position (p : pass) : nat :=
  match p with
  | Shadow => 0 | Culling => 1 | Sorting => 2
  | Geometry => 3 | Decals => 4 | SSAO => 5 | Lighting => 6 | SSIL => 7
  | SSR => 8 | Ambient => 9 | Compose => 10
  | Background => 11 | Prepass => 12 | Forward => 13
  | PostFog => 14 | PostDoF => 15 | PostBloom => 16 | PostTonemap => 17
  | PostFXAA => 18
  | Blit => 19
  end.

(** [p] may be followed by [q]: [q] comes later in the order; sorting is
    the one pass made of several calls. *)
Definition precedes (p q : pass) : Prop :=
  position p < position q \/ (p = Sorting /\ q = Sorting).

(** All passes of [l] lie between two positions. *)
Definition within (lo hi : nat) (l : list pass) : Prop :=
  Forall (fun p => lo <= position p <= hi) l.

(** Housekeeping calls (buffer binding, clears, the set-up of the
    post-processing chain, the state reset) are no pass. *)
Definition pass_of (c : Frame.call) : option pass :=
  match c with
  | Frame.r3d_light_update_and_cull => None
  | Frame.pass_scene_shadow => Some Shadow
  | Frame.r3d_draw_compute_visible_groups => Some Culling
  | Frame.r3d_draw_sort_list _ _ => Some Sorting
  | Frame.r3d_cache_bind_view_state => None
  | Frame.R3D_TARGET_CLEAR _ => None
  | Frame.pass_scene_geometry => Some Geometry
  | Frame.pass_scene_decals => Some Decals
  | Frame.pass_prepare_ssao => Some SSAO
  | Frame.pass_deferred_lights _ => Some Lighting
  | Frame.pass_prepare_ssil => Some SSIL
  | Frame.pass_prepare_ssr => Some SSR
  | Frame.pass_deferred_ambient _ _ _ => Some Ambient
  | Frame.pass_deferred_compose => Some Compose
  | Frame.pass_scene_background => Some Background
  | Frame.pass_scene_prepass => Some Prepass
  | Frame.pass_scene_forward => Some Forward
  | Frame.pass_post_setup => None
  | Frame.pass_post_fog => Some PostFog
  | Frame.pass_post_dof => Some PostDoF
  | Frame.pass_post_bloom => Some PostBloom
  | Frame.pass_post_output => Some PostTonemap
  | Frame.pass_post_fxaa => Some PostFXAA
  | Frame.r3d_target_blit => Some Blit
  | Frame.reset_raylib_state => None
  end.

(** The passes of a sequence of calls, in the order of the calls. *)
Fixpoint passes (l : list Frame.call) : list pass :=
  match l with
  | [] => []
  | c :: rest =>
      match pass_of c with
      | Some p => p :: passes rest
      | None => passes rest
      end
  end.

(** Whether a sequence of calls carries out the pass [p]. *)
Definition issued (p : pass) (l : list Frame.call) : bool :=
  existsb (fun c => match pass_of c with
                    | Some q => Nat.eqb (position q) (position p)
                    | None => false
                    end) l.

(** The draw lists that a sequence of calls sorts, each with the order
    asked for. *)
Fixpoint sorted_lists (l : list Frame.call)
  : list (Frame.draw_list * Frame.sort_order) :=
  match l with
  | [] => []
  | Frame.r3d_draw_sort_list list order :: rest =>
      (list, order) :: sorted_lists rest
  | _ :: rest => sorted_lists rest
  end.

End StateMachine.

(** The composition protocol in the specification's words. *)
Module Protocol.

(** The lines of a text; a newline ends a line, and a text that ends in
    a newline has no further line after it. *)
Fixpoint lines (s : cstring) : list cstring :=
  match s with
  | [] => []
  | c :: t =>
      if Ascii.eqb c nl then [] :: lines t
      else match lines t with
           | [] => [[c]]
           | l :: ls => (c :: l) :: ls
           end
  end.

(** Lines written one after the other, each closed by a newline. *)
Fixpoint unlines (ls : list cstring) : cstring :=
  match ls with
  | [] => []
  | l :: rest => l ++ nl :: unlines rest
  end.

Definition blank_char (c : ascii) : bool := Ascii.eqb c space || Ascii.eqb c tab.

(** A text without its leading characters of one kind. *)
Fixpoint drop_while (kind : ascii -> bool) (s : cstring) : cstring :=
  match s with
  | [] => []
  | c :: t => if kind c then drop_while kind t else s
  end.

(** A line without its leading spaces and tabs. *)
Definition unindented (line : cstring) : cstring := drop_while blank_char line.







(** The routing with the keyword followed by a space, and with emptiness
    in place of blankness. *)
Definition keyword_and_space (line : cstring) : bool :=
  starts_with (lit "uniform ") (unindented line).

Definition declarations (code : cstring) : cstring :=
  unlines (filter keyword_and_space (lines code)).

Definition body (code : cstring) : cstring :=
  unlines (filter (fun l => negb (keyword_and_space l)
                            && negb (Nat.eqb (length l) 0))
             (lines code)).

(** What one line contributes to the two buffers. *)
Definition to_declarations (l : cstring) : cstring :=
  if keyword_and_space l then l ++ [nl] else [].

Definition to_body (l : cstring) : cstring :=
  if negb (keyword_and_space l) && negb (Nat.eqb (length l) 0)
  then l ++ [nl] else [].


(** The five pieces in their prescribed order. *)
Definition composed (upto_version declarations upto_marker body after_marker
    : cstring) : cstring :=
  upto_version ++ declarations ++ upto_marker ++ body ++ after_marker.

(** Discovery: the uniforms that are neither built in, nor reserved, nor
    array elements, and whose type is one of the five supported ones. *)
Definition custom (u : GL.active_uniform) : bool :=
  negb (existsb (strcmp_eq (GL.au_name u)) Discover.builtinUniforms)
  && negb (starts_with (lit "gl_") (GL.au_name u))
  && negb (existsb (Ascii.eqb "["%char) (GL.au_name u)).

Definition supported (u : GL.active_uniform) : bool :=
  existsb (Z.eqb (GL.au_type u))
    [GL.GL_FLOAT; GL.GL_FLOAT_VEC2; GL.GL_FLOAT_VEC3; GL.GL_FLOAT_VEC4;
     GL.GL_SAMPLER_2D].

Definition eligible (active : list GL.active_uniform) : list GL.active_uniform :=
  filter (fun u => custom u && supported u) active.

Arguments custom : simpl never.
Arguments supported : simpl never.
Arguments eligible : simpl never.

Definition is_sampler (i : R3D_UniformInfo.t) : bool :=
  match R3D_UniformInfo.type i with R3D_PARAM_TEX2D => true | _ => false end.

(** The five supported types: the type GL reports for a [float], a
    [vec2], a [vec3], a [vec4] and a [sampler2D], each with the tag of its
    descriptor. *)
Definition supported_types : list (Z * R3D_ParamType) :=
  [(GL.GL_FLOAT, R3D_PARAM_FLOAT); (GL.GL_FLOAT_VEC2, R3D_PARAM_VEC2);
   (GL.GL_FLOAT_VEC3, R3D_PARAM_VEC3); (GL.GL_FLOAT_VEC4, R3D_PARAM_VEC4);
   (GL.GL_SAMPLER_2D, R3D_PARAM_TEX2D)].

Definition tag_of (type : Z) : option R3D_ParamType :=
  option_map snd (find (fun e => Z.eqb type (fst e)) supported_types).

(** A uniform that GL reports as a [sampler2D]. *)
Definition sampler2D (u : GL.active_uniform) : bool :=
  Z.eqb (GL.au_type u) GL.GL_SAMPLER_2D.

(** The descriptors expected for a run of uniforms when the next free
    texture slot is [slot]: one for each uniform of a supported type, with
    the first 63 characters of its name, its location, the tag of its
    type, and the next free slot if it is a [sampler2D], -1 if not. *)
Fixpoint expected (location : cstring -> Z) (slot : Z)
    (l : list GL.active_uniform) : list R3D_UniformInfo.t :=
  match l with
  | [] => []
  | u :: rest =>
      match tag_of (GL.au_type u) with
      | None => expected location slot rest
      | Some tag =>
          {| R3D_UniformInfo.name := firstn 63 (GL.au_name u);
             R3D_UniformInfo.location := location (GL.au_name u);
             R3D_UniformInfo.type := tag;
             R3D_UniformInfo.texSlot := if sampler2D u then slot else (-1)%Z |}
          :: expected location (if sampler2D u then slot + 1 else slot)%Z rest
      end
  end.

(** The bindings expected at creation: for each [sampler2D] among the
    uniforms, in their order, the program made current and the uniform
    set to the next slot from [slot] on. *)
Fixpoint expected_bindings (location : cstring -> Z) (program slot : Z)
    (l : list GL.active_uniform) : list GL.call :=
  match l with
  | [] => []
  | u :: rest =>
      if sampler2D u
      then GL.glUseProgram program
           :: GL.glUniform1i (location (GL.au_name u)) slot
           :: expected_bindings location program (slot + 1)%Z rest
      else expected_bindings location program slot rest
  end.

(** The descriptors the loop leaves for a run of uniforms when the next
    free texture slot is [slot], by the type switch of the loop; the
    invariant of the loop is stated with it. *)
Fixpoint describe (location : cstring -> Z) (slot : Z)
    (l : list GL.active_uniform) : list R3D_UniformInfo.t :=
  match l with
  | [] => []
  | u :: rest =>
      match Discover.map_gl_type (GL.au_type u) with
      | Some R3D_PARAM_TEX2D =>
          {| R3D_UniformInfo.name := firstn 63 (GL.au_name u);
             R3D_UniformInfo.location := location (GL.au_name u);
             R3D_UniformInfo.type := R3D_PARAM_TEX2D;
             R3D_UniformInfo.texSlot := slot |}
          :: describe location (slot + 1)%Z rest
      | Some ty =>
          {| R3D_UniformInfo.name := firstn 63 (GL.au_name u);
             R3D_UniformInfo.location := location (GL.au_name u);
             R3D_UniformInfo.type := ty;
             R3D_UniformInfo.texSlot := (-1)%Z |}
          :: describe location slot rest
      | None => describe location slot rest
      end
  end.

(** The sampler bindings made at creation for a run of descriptors. *)
Definition sampler_bindings (program : Z) (l : list R3D_UniformInfo.t)
  : list GL.call :=
  flat_map (fun i => [GL.glUseProgram program;
                      GL.glUniform1i (R3D_UniformInfo.location i)
                        (R3D_UniformInfo.texSlot i)])
    (filter is_sampler l).

(** The state in which the discovery loop runs: the whole array, and a
    count within it. *)
Definition discovering (sh : R3D_Shader.t) : Prop :=
  length (R3D_Shader.customUniforms sh) = R3D_MAX_CUSTOM_UNIFORMS
  /\ (0 <= R3D_Shader.customUniformCount sh <= 16)%Z.

(** The slots [first], [first + 1], ... for [n] samplers. *)
Fixpoint slots_from (first : Z) (n : nat) : list Z :=
  match n with
  | O => []
  | S n' => first :: slots_from (first + 1)%Z n'
  end.

End Protocol.

(** Submission of the meshes of a model, as a description: one call per
    mesh of [ms], the first of them being mesh number [i] of the model. *)
Module Submission.

Import Draw.

Definition material_of (model : R3D_Model.t) (i : nat) : option R3D_Material.t :=
  match nth_error (R3D_Model.meshMaterials model) i with
  | None => None
  | Some k =>
      if (k <? 0)%Z then None
      else nth_error (R3D_Model.materials model) (Z.to_nat k)
  end.

Fixpoint push_meshes (model : R3D_Model.t) (ms : list R3D_Mesh.t) (i : nat)
    (st : draw_lists) : outcome draw_lists :=
  match ms with
  | [] => Ok st
  | me :: rest =>
      match material_of model i with
      | None => Fault
      | Some mat =>
          push_meshes model rest (S i)
            (r3d_draw_call_push
               {| r3d_draw_call_t.material := mat; r3d_draw_call_t.mesh := me |}
               false st)
      end
  end.

(** The group pushed for a model. *)
Definition model_group (mo : R3D_Model.t) (transform : Matrix)
    (inst : instanced_t.t) : r3d_draw_group_t.t :=
  {| r3d_draw_group_t.aabb := R3D_Model.aabb mo;
     r3d_draw_group_t.transform := transform;
     r3d_draw_group_t.skeleton := R3D_Model.skeleton mo;
     r3d_draw_group_t.player := R3D_Model.player mo;
     r3d_draw_group_t.instanced := inst |}.

End Submission.

(** Looking a parameter up by name, as a description. *)
Module Lookup.

(** The first parameter of [ps] whose stored name is [name], with its
    index, the head of [ps] having index [i]. *)
Fixpoint first_named (name : cstring) (ps : list R3D_MaterialParam.t) (i : nat)
  : option (nat * R3D_MaterialParam.t) :=
  match ps with
  | [] => None
  | p :: rest =>
      if strcmp_eq (R3D_MaterialParam.name p) name then Some (i, p)
      else first_named name rest (S i)
  end.

Definition with_value (p : R3D_MaterialParam.t) (v : Value.t) : R3D_MaterialParam.t :=
  {| R3D_MaterialParam.name := R3D_MaterialParam.name p;
     R3D_MaterialParam.type := R3D_MaterialParam.type p;
     R3D_MaterialParam.value := v |}.

(** The parameters after a setter: the first one stored under [name]
    takes the new value, or a zeroed one of the setter's type, named by the
    first 63 characters of [name], is appended and takes it. *)
Definition after_set (name : cstring) (type : R3D_ParamType)
    (assign : Value.t -> Value.t) (ps : list R3D_MaterialParam.t)
  : list R3D_MaterialParam.t :=
  match first_named name ps 0 with
  | Some (i, p) => array_set i (with_value p (assign (R3D_MaterialParam.value p))) ps
  | None =>
      ps ++ [{| R3D_MaterialParam.name := firstn 63 name;
                R3D_MaterialParam.type := type;
                R3D_MaterialParam.value := assign Value.zero |}]
  end.

(** How many parameters are stored under [name]. *)
Definition stored_under (name : cstring) (ps : list R3D_MaterialParam.t) : nat :=
  length (filter (fun p => strcmp_eq (R3D_MaterialParam.name p) name) ps).

(** The GL calls that set a uniform of each declared type from the 32-bit
    words of a stored value: one float, or two, three or four floats in
    one vector, or the texture whose id is the first word, bound to
    [GL_TEXTURE_2D] on the texture unit of the uniform. *)
Definition typed_calls (declared : R3D_ParamType) (location texSlot : Z)
    (value : Value.t) : list GL.call :=
  match declared with
  | R3D_PARAM_FLOAT => [GL.glUniform1f location (Value.w0 value)]
  | R3D_PARAM_VEC2 =>
      [GL.glUniform2fv location 1 [Value.w0 value; Value.w1 value]]
  | R3D_PARAM_VEC3 =>
      [GL.glUniform3fv location 1
         [Value.w0 value; Value.w1 value; Value.w2 value]]
  | R3D_PARAM_VEC4 =>
      [GL.glUniform4fv location 1
         [Value.w0 value; Value.w1 value; Value.w2 value; Value.w3 value]]
  | R3D_PARAM_TEX2D =>
      [GL.glActiveTexture (GL.GL_TEXTURE0 + texSlot)%Z;
       GL.glBindTexture GL.GL_TEXTURE_2D (Value.w0 value)]
  end.

(** The calls the bind path owes to one uniform: those of the uniform's
    declared type on the value of the first parameter stored under its
    name, and none when there is no such parameter. The tag of the
    parameter plays no part. *)
Definition calls_for (ps : list R3D_MaterialParam.t) (info : R3D_UniformInfo.t)
  : list GL.call :=
  match first_named (R3D_UniformInfo.name info) ps 0 with
  | None => []
  | Some (_, p) =>
      typed_calls (R3D_UniformInfo.type info) (R3D_UniformInfo.location info)
        (R3D_UniformInfo.texSlot info) (R3D_MaterialParam.value p)
  end.

(** A parameter without its type tag. *)
Definition untagged (p : R3D_MaterialParam.t) : cstring * Value.t :=
  (R3D_MaterialParam.name p, R3D_MaterialParam.value p).

End Lookup.

(** Concrete data for the examples. *)
Module Samples.

Local Open Scope Z_scope.

(** Sixty-three times the letter a. *)
Definition a63 : cstring := repeat "a"%char 63%nat.

(** Names of sixty-four characters. *)
Definition a64 : cstring := a63 ++ lit "a".
Definition a63b : cstring := a63 ++ lit "b".
Definition a63c : cstring := a63 ++ lit "c".

(** Bit patterns of 1.0f, 2.0f, 3.0f, 4.0f, 5.0f and 6.0f. *)
Definition one : float32 := 1065353216.
Definition two : float32 := 1073741824.
Definition three : float32 := 1077936128.
Definition four : float32 := 1082130432.
Definition five : float32 := 1084227584.
Definition six : float32 := 1086324736.

Definition v123 : Vector3.t :=
  {| Vector3.x := one; Vector3.y := two; Vector3.z := three |}.
Definition v456 : Vector3.t :=
  {| Vector3.x := four; Vector3.y := five; Vector3.z := six |}.

(** A material as [R3D_GetDefaultMaterial] leaves its parameter fields. *)
Definition plain : R3D_Material.t := Params.no_params None.

(** A shader whose program declares one uniform: a [vec3] found at
    location 3, registered under [name]. *)
Definition one_vec3 (name : cstring) : R3D_Shader.t :=
  {| R3D_Shader.program := 1;
     R3D_Shader.customUniforms :=
       {| R3D_UniformInfo.name := name; R3D_UniformInfo.location := 3;
          R3D_UniformInfo.type := R3D_PARAM_VEC3;
          R3D_UniformInfo.texSlot := (-1) |}
       :: repeat R3D_UniformInfo.zero 15%nat;
     R3D_Shader.customUniformCount := 1;
     R3D_Shader.nextTexSlot := 5 |}.

(** Every layer visible. *)
Definition all_layers (mask : Z) : bool := true.

(** Only the layers of the first bit visible. *)
Definition first_layer (mask : Z) : bool := Z.eqb (Z.land mask 1) mask.

Definition mesh_on (layer geometry : Z) : Draw.R3D_Mesh.t :=
  {| Draw.R3D_Mesh.layerMask := layer; Draw.R3D_Mesh.geometry := geometry |}.

(** Three meshes, the second on a layer that [first_layer] hides. *)
Definition three_meshes : Draw.R3D_Model.t :=
  {| Draw.R3D_Model.meshes := [mesh_on 1 10; mesh_on 2 20; mesh_on 1 30];
     Draw.R3D_Model.materials := [plain];
     Draw.R3D_Model.meshMaterials := [0; 0; 0]%Z;
     Draw.R3D_Model.meshCount := 3;
     Draw.R3D_Model.aabb := Draw.BoundingBox.zero;
     Draw.R3D_Model.skeleton := 0;
     Draw.R3D_Model.player := None |}.

(** A material on which [uTint] was set as a float. *)
Definition tinted : R3D_Material.t :=
  {| R3D_Material.shader := None;
     R3D_Material.params :=
       Some [{| R3D_MaterialParam.name := lit "uTint";
                R3D_MaterialParam.type := R3D_PARAM_FLOAT;
                R3D_MaterialParam.value := Value.set_f one Value.zero |}];
     R3D_Material.paramCount := 1;
     R3D_Material.paramCapacity := 4 |}.


(** A declaration and a statement, each on a line of its own. *)
Definition two_lines : cstring := lit "uniform float x;
ALBEDO.r = x;
".


(** What GL may report for the texture-blend shader of the examples,
    among built-in, reserved, array and matrix uniforms. *)
Definition reported : list GL.active_uniform :=
  [ {| GL.au_name := lit "uTexAlbedo"; GL.au_type := GL.GL_SAMPLER_2D |};
    {| GL.au_name := lit "uTexB"; GL.au_type := GL.GL_SAMPLER_2D |};
    {| GL.au_name := lit "uBlendPower"; GL.au_type := GL.GL_FLOAT |};
    {| GL.au_name := lit "uWeights[0]"; GL.au_type := GL.GL_FLOAT |};
    {| GL.au_name := lit "gl_NumSamples"; GL.au_type := GL.GL_FLOAT |};
    {| GL.au_name := lit "uExtra"; GL.au_type := 35676 |};
    {| GL.au_name := lit "uTintColor"; GL.au_type := GL.GL_FLOAT_VEC3 |};
    {| GL.au_name := lit "uTexC"; GL.au_type := GL.GL_SAMPLER_2D |} ].

(** Seventeen [vec3] uniforms, [ua] to [uq]. *)
Definition seventeen : list GL.active_uniform :=
  map (fun c => {| GL.au_name := ["u"%char; c]; GL.au_type := GL.GL_FLOAT_VEC3 |})
    (lit "abcdefghijklmnopq").

(** Locations, by the length of the name. *)
Definition location_of (name : cstring) : Z := Z.of_nat (length name).

(** A small template with the two landmarks of the real one. *)
Definition template_version : cstring := lit "#version 330 core".
Definition template_middle : cstring := lit "out vec4 o;
void main() {
".
Definition template_tail : cstring := lit "
}
".
Definition template : cstring :=
  template_version ++ nl :: template_middle ++ Compose.USER_FRAGMENT_MARKER
  ++ template_tail.

End Samples.

(** Sequences of calls of the five public setters on one material. *)
Module History.

Inductive setter : Type :=
| SetFloat (name : cstring) (value : float32)
| SetVec2 (name : cstring) (value : Vector2.t)
| SetVec3 (name : cstring) (value : Vector3.t)
| SetVec4 (name : cstring) (value : Vector4.t)
| SetTexture (name : cstring) (texture : Texture2D.t).

Definition apply (s : setter) (material : option R3D_Material.t)
  : outcome (option R3D_Material.t) :=
  match s with
  | SetFloat name value => Params.R3D_SetMaterialFloat material (Some name) value
  | SetVec2 name value => Params.R3D_SetMaterialVec2 material (Some name) value
  | SetVec3 name value => Params.R3D_SetMaterialVec3 material (Some name) value
  | SetVec4 name value => Params.R3D_SetMaterialVec4 material (Some name) value
  | SetTexture name texture =>
      Params.R3D_SetMaterialTexture material (Some name) texture
  end.

(** One call after the other, each on the material the previous one left. *)
Fixpoint run (l : list setter) (material : option R3D_Material.t)
  : outcome (option R3D_Material.t) :=
  match l with
  | [] => Ok material
  | s :: rest => m <- apply s material ;; run rest m
  end.

(** The capacities 4, 8, 16, ... *)
Fixpoint grown (k : nat) : Z :=
  match k with
  | O => 4%Z
  | S k' => (2 * grown k')%Z
  end.

(** A material that holds parameters: its array has one of the capacities
    above, which is 4 or at most twice the number of parameters held before
    the last one came; and every stored name has at most 63 characters. *)
Definition settled (m : R3D_Material.t) : Prop :=
  Params.material_ok m
  /\ Forall (fun p => length (R3D_MaterialParam.name p) <= 63)
       (R3D_Material.slots m)
  /\ match R3D_Material.params m with
     | None => True
     | Some _ =>
         (exists k, R3D_Material.paramCapacity m = grown k)
         /\ (R3D_Material.paramCapacity m = 4
             \/ R3D_Material.paramCapacity m
                <= 2 * (R3D_Material.paramCount m - 1))%Z
         /\ (1 <= R3D_Material.paramCount m)%Z
     end.

End History.

(** What the bind path may send for a shader whose uniforms were
    discovered: values of uniforms, and textures on the units from
    [FIRST_CUSTOM_TEX_SLOT] on, sixteen of them at most. *)
Module Units.

Definition custom_unit (c : GL.call) : bool :=
  match c with
  | GL.glActiveTexture u =>
      ((GL.GL_TEXTURE0 + Discover.FIRST_CUSTOM_TEX_SLOT <=? u)
       && (u <? GL.GL_TEXTURE0 + Discover.FIRST_CUSTOM_TEX_SLOT
                + Z.of_nat R3D_MAX_CUSTOM_UNIFORMS))%Z
  | GL.glUseProgram _ => false
  | GL.glUniform1i _ _ => false
  | _ => true
  end.

(** A name that discovery passes over: built in, reserved, or that of an
    array element. *)
Definition passed_over (name : cstring) : bool :=
  negb (Protocol.custom {| GL.au_name := name; GL.au_type := 0 |}).

End Units.

(* ===================================================================== *)
(** * r3d_shader_custom.c: creating and destroying a shader *)
(* ===================================================================== *)

Module Create.

Local Open Scope Z_scope.

Definition GL_VERTEX_SHADER : Z := 35633.    (* 0x8B31 *)
Definition GL_FRAGMENT_SHADER : Z := 35632.  (* 0x8B30 *)
Definition GL_INVALID_INDEX : Z := 4294967295.

(** The heap blocks of one creation: the two buffers of the split, the
    composed source, and the shader structure. *)
Inductive block : Type := userUniforms | userBody | composedFrag | shaderStruct.

(** What creation and destruction ask of the allocator and of GL. A call
    that returns an object is kept with its answer; an allocation is kept
    when it yields a block; the queries (status, locations, active
    uniforms, logs) and the log lines leave no trace. *)
Inductive call : Type :=
| RL_MALLOC (b : block)
| RL_CALLOC (b : block)
| RL_FREE (b : block)
| glCreateShader (shaderType : Z) (result : Z)
| glShaderSource (shader : Z) (source : cstring)
| glCompileShader (shader : Z)
| glDeleteShader (shader : Z)
| glCreateProgram (result : Z)
| glAttachShader (program : Z) (shader : Z)
| glLinkProgram (program : Z)
| glDeleteProgram (program : Z)
| glUniformBlockBinding (program : Z) (uniformBlockIndex : Z) (binding : Z)
| gl (c : GL.call).

(** The answers of GL and of the allocator that creation depends on. The
    allocations of the composed text and of the structure are those whose
    result the source checks, so their outcomes are answers too; the two
    buffers of the split are used unchecked and taken to be there. *)
Record driver : Type := {
  text_allocated : nat -> bool;         (* RL_MALLOC(totalLen) yields the
                                           composed text *)
  created_shader : Z -> Z;              (* glCreateShader, by shader type *)
  compiled : Z -> cstring -> bool;      (* GL_COMPILE_STATUS of a shader
                                           given this source *)
  created_program : Z;                  (* glCreateProgram *)
  linked : Z -> Z -> Z -> bool;         (* GL_LINK_STATUS of a program made
                                           of these two shaders *)
  allocated : bool;                     (* RL_CALLOC yields the structure *)
  active_uniforms : Z -> list GL.active_uniform;
  uniform_location : Z -> cstring -> Z; (* glGetUniformLocation *)
  uniform_block_index : Z -> cstring -> Z
}.

(** The cached locations of the built-in uniforms. *)
Module Builtins.
Record t : Type := {
  locMatModel : Z;
  locMatNormal : Z;
  locAlbedoColor : Z;
  locEmissionEnergy : Z;
  locEmissionColor : Z;
  locTexCoordOffset : Z;
  locTexCoordScale : Z;
  locInstancing : Z;
  locSkinning : Z;
  locBillboard : Z;
  locTexAlbedo : Z;
  locTexNormal : Z;
  locTexEmission : Z;
  locTexORM : Z;
  locAlphaCutoff : Z;
  locNormalScale : Z;
  locOcclusion : Z;
  locRoughness : Z;
  locMetalness : Z;
  locTexBoneMatrices : Z
}.
End Builtins.

(** The whole of [struct R3D_Shader]: the part about custom uniforms and
    the cached locations. *)
Record shader_object : Type := {
  custom : R3D_Shader.t;
  builtin : Builtins.t
}.

Definition compile_shader_source (d : driver) (source : cstring)
    (shaderType : Z) : Z * list call :=
  let shader := created_shader d shaderType in
  if shader =? 0 then (0, [glCreateShader shaderType shader])
  else
    let asked := [glCreateShader shaderType shader;
                  glShaderSource shader source;
                  glCompileShader shader] in
    if compiled d shader source then (shader, asked)
    else (0, asked ++ [glDeleteShader shader]).

Definition link_shader_program (d : driver) (vertShader fragShader : Z)
  : Z * list call :=
  let program := created_program d in
  if program =? 0 then (0, [glCreateProgram program])
  else
    let asked := [glCreateProgram program;
                  glAttachShader program vertShader;
                  glAttachShader program fragShader;
                  glLinkProgram program] in
    if linked d program vertShader fragShader then (program, asked)
    else (0, asked ++ [glDeleteProgram program]).

Definition cache_builtin_uniforms (location : cstring -> Z) : Builtins.t :=
  {| Builtins.locMatModel := location (lit "uMatModel");
     Builtins.locMatNormal := location (lit "uMatNormal");
     Builtins.locAlbedoColor := location (lit "uAlbedoColor");
     Builtins.locEmissionEnergy := location (lit "uEmissionEnergy");
     Builtins.locEmissionColor := location (lit "uEmissionColor");
     Builtins.locTexCoordOffset := location (lit "uTexCoordOffset");
     Builtins.locTexCoordScale := location (lit "uTexCoordScale");
     Builtins.locInstancing := location (lit "uInstancing");
     Builtins.locSkinning := location (lit "uSkinning");
     Builtins.locBillboard := location (lit "uBillboard");
     Builtins.locTexAlbedo := location (lit "uTexAlbedo");
     Builtins.locTexNormal := location (lit "uTexNormal");
     Builtins.locTexEmission := location (lit "uTexEmission");
     Builtins.locTexORM := location (lit "uTexORM");
     Builtins.locAlphaCutoff := location (lit "uAlphaCutoff");
     Builtins.locNormalScale := location (lit "uNormalScale");
     Builtins.locOcclusion := location (lit "uOcclusion");
     Builtins.locRoughness := location (lit "uRoughness");
     Builtins.locMetalness := location (lit "uMetalness");
     Builtins.locTexBoneMatrices := location (lit "uTexBoneMatrices") |}.

(** [if (loc >= 0) glUniform1i(loc, unit);] *)
Definition sampler_unit (location unit : Z) : list call :=
  if 0 <=? location then [gl (GL.glUniform1i location unit)] else [].

(** The end of [R3D_CreateCustomShader], once the structure is allocated
    for the linked [program]. *)
Definition fill (d : driver) (program : Z) : shader_object * list call :=
  let locs := cache_builtin_uniforms (uniform_location d program) in
  let '(sh, found) :=
    Discover.discover_custom_uniforms (uniform_location d program)
      (active_uniforms d program) (R3D_Shader.fresh program) in
  let viewBlockIndex := uniform_block_index d program (lit "ViewBlock") in
  ({| custom := sh; builtin := locs |},
   map gl found
   ++ (if viewBlockIndex =? GL_INVALID_INDEX then []
       else [glUniformBlockBinding program viewBlockIndex 0])
   ++ [gl (GL.glUseProgram program)]
   ++ sampler_unit (Builtins.locTexBoneMatrices locs) 0
   ++ sampler_unit (Builtins.locTexAlbedo locs) 1
   ++ sampler_unit (Builtins.locTexNormal locs) 2
   ++ sampler_unit (Builtins.locTexEmission locs) 3
   ++ sampler_unit (Builtins.locTexORM locs) 4
   ++ [gl (GL.glUseProgram 0)]).

(** The part of [R3D_CreateCustomShader] that follows the composition,
    [composedFrag] being at hand: [None] is [return NULL]. *)
Definition build (d : driver) (GEOMETRY_VERT composed : cstring)
  : option shader_object * list call :=
  let '(vs, t1) := compile_shader_source d GEOMETRY_VERT GL_VERTEX_SHADER in
  if vs =? 0 then (None, t1 ++ [RL_FREE composedFrag])
  else
    let '(fs, t2) := compile_shader_source d composed GL_FRAGMENT_SHADER in
    if fs =? 0
    then (None, t1 ++ t2 ++ [RL_FREE composedFrag; glDeleteShader vs])
    else
      let '(program, t3) := link_shader_program d vs fs in
      let t4 := t1 ++ t2 ++ [RL_FREE composedFrag] ++ t3
                ++ [glDeleteShader vs; glDeleteShader fs] in
      if program =? 0 then (None, t4)
      else if negb (allocated d) then (None, t4 ++ [glDeleteProgram program])
      else
        let '(sh, t5) := fill d program in
        (Some sh, t4 ++ [RL_CALLOC shaderStruct] ++ t5).

(** [R3D_CreateCustomShader]. The two templates come from generated
    headers. The allocations of the three texts are those made inside
    [split_user_code] and [compose_fragment_shader]. *)
Definition R3D_CreateCustomShader (d : driver)
    (GEOMETRY_VERT GEOMETRY_FRAG : cstring) (fragmentCode : option cstring)
  : outcome (option shader_object * list call) :=
  match fragmentCode with
  | None => Ok (None, [])
  | Some [] => Ok (None, [])
  | Some code =>
      '(uniforms, body) <- Compose.split_user_code code ;;
      composed <- Compose.compose_fragment_shader (text_allocated d)
                    GEOMETRY_FRAG uniforms body ;;
      match composed with
      | None =>
          Ok (None, [RL_MALLOC userUniforms; RL_MALLOC userBody;
                     RL_FREE userUniforms; RL_FREE userBody])
      | Some text =>
          let '(r, t) := build d GEOMETRY_VERT text in
          Ok (r, [RL_MALLOC userUniforms; RL_MALLOC userBody;
                  RL_MALLOC composedFrag;
                  RL_FREE userUniforms; RL_FREE userBody] ++ t)
      end
  end.

Definition R3D_DestroyCustomShader (sh : option shader_object) : list call :=
  match sh with
  | None => []
  | Some s =>
      (if R3D_Shader.program (custom s) =? 0 then []
       else [glDeleteProgram (R3D_Shader.program (custom s))])
      ++ [RL_FREE shaderStruct]
  end.

Definition R3D_GetCustomShaderProgram (sh : option shader_object) : Z :=
  match sh with
  | Some s => R3D_Shader.program (custom s)
  | None => 0
  end.

Definition R3D_CustomShaderGetTexBoneMatricesLoc (sh : option shader_object) : Z :=
  match sh with Some s => Builtins.locTexBoneMatrices (builtin s) | None => -1 end.

Definition R3D_CustomShaderGetTexAlbedoLoc (sh : option shader_object) : Z :=
  match sh with Some s => Builtins.locTexAlbedo (builtin s) | None => -1 end.

Definition R3D_CustomShaderGetTexNormalLoc (sh : option shader_object) : Z :=
  match sh with Some s => Builtins.locTexNormal (builtin s) | None => -1 end.

Definition R3D_CustomShaderGetTexEmissionLoc (sh : option shader_object) : Z :=
  match sh with Some s => Builtins.locTexEmission (builtin s) | None => -1 end.

Definition R3D_CustomShaderGetTexORMLoc (sh : option shader_object) : Z :=
  match sh with Some s => Builtins.locTexORM (builtin s) | None => -1 end.

End Create.

(** The objects a sequence of calls leaves behind, as a description: which
    heap blocks, shader objects and programs are alive, a call that uses or
    releases an object that is not alive being an error. *)
Module Resources.

Import Create.

Local Open Scope Z_scope.

Record live : Type := {
  blocks : list block;
  shaders : list Z;
  programs : list Z
}.

Definition nothing : live := {| blocks := []; shaders := []; programs := [] |}.

Definition block_eqb (a b : block) : bool :=
  match a, b with
  | userUniforms, userUniforms => true
  | userBody, userBody => true
  | composedFrag, composedFrag => true
  | shaderStruct, shaderStruct => true
  | _, _ => false
  end.

(** [l] without the first [x], if [x] is in [l]. *)
Fixpoint take {A : Type} (eqb : A -> A -> bool) (x : A) (l : list A)
  : option (list A) :=
  match l with
  | [] => None
  | y :: t =>
      if eqb y x then Some t
      else match take eqb x t with
           | Some t' => Some (y :: t')
           | None => None
           end
  end.

Definition alive {A : Type} (eqb : A -> A -> bool) (x : A) (l : list A) : bool :=
  existsb (fun y => eqb y x) l.

Definition on_blocks (f : list block -> option (list block)) (s : live)
  : option live :=
  match f (blocks s) with
  | Some l => Some {| blocks := l; shaders := shaders s; programs := programs s |}
  | None => None
  end.

Definition on_shaders (f : list Z -> option (list Z)) (s : live) : option live :=
  match f (shaders s) with
  | Some l => Some {| blocks := blocks s; shaders := l; programs := programs s |}
  | None => None
  end.

Definition on_programs (f : list Z -> option (list Z)) (s : live) : option live :=
  match f (programs s) with
  | Some l => Some {| blocks := blocks s; shaders := shaders s; programs := l |}
  | None => None
  end.

Definition provided (b : bool) (s : live) : option live :=
  if b then Some s else None.

(** One call: an allocation of a block that is alive is an error, as are
    the release and the use of what is not alive; object 0 is no object. *)
Definition account (c : call) (s : live) : option live :=
  match c with
  | RL_MALLOC b | RL_CALLOC b =>
      on_blocks (fun l => if alive block_eqb b l then None else Some (b :: l)) s
  | RL_FREE b => on_blocks (take block_eqb b) s
  | glCreateShader _ r =>
      if r =? 0 then Some s else on_shaders (fun l => Some (r :: l)) s
  | glShaderSource sh _ => provided (alive Z.eqb sh (shaders s)) s
  | glCompileShader sh => provided (alive Z.eqb sh (shaders s)) s
  | glDeleteShader sh => on_shaders (take Z.eqb sh) s
  | glCreateProgram r =>
      if r =? 0 then Some s else on_programs (fun l => Some (r :: l)) s
  | glAttachShader p sh =>
      provided (alive Z.eqb p (programs s) && alive Z.eqb sh (shaders s)) s
  | glLinkProgram p => provided (alive Z.eqb p (programs s)) s
  | glDeleteProgram p => on_programs (take Z.eqb p) s
  | glUniformBlockBinding p _ _ => provided (alive Z.eqb p (programs s)) s
  | gl (GL.glUseProgram p) =>
      provided ((p =? 0) || alive Z.eqb p (programs s)) s
  | gl _ => Some s
  end.

Fixpoint accounts (t : list call) (s : live) : option live :=
  match t with
  | [] => Some s
  | c :: rest =>
      match account c s with
      | Some s' => accounts rest s'
      | None => None
      end
  end.

(** What is alive after a creation: nothing when it gave up, the program
    and the structure when it succeeded. *)
Definition left_by (r : option shader_object) : live :=
  match r with
  | None => nothing
  | Some sh =>
      {| blocks := [shaderStruct]; shaders := [];
         programs := [R3D_Shader.program (custom sh)] |}
  end.

(** The texture units given to samplers by a sequence of calls. *)
Fixpoint units (t : list call) : list Z :=
  match t with
  | [] => []
  | gl (GL.glUniform1i _ unit) :: rest => unit :: units rest
  | _ :: rest => units rest
  end.

(** The units of the built-in samplers a shader has a location for, in
    the order in which creation binds them. *)
Definition unit_of (location unit : Z) : list Z :=
  if 0 <=? location then [unit] else [].

Definition builtin_units (sh : option shader_object) : list Z :=
  unit_of (R3D_CustomShaderGetTexBoneMatricesLoc sh) 0
  ++ unit_of (R3D_CustomShaderGetTexAlbedoLoc sh) 1
  ++ unit_of (R3D_CustomShaderGetTexNormalLoc sh) 2
  ++ unit_of (R3D_CustomShaderGetTexEmissionLoc sh) 3
  ++ unit_of (R3D_CustomShaderGetTexORMLoc sh) 4.

(** Whether a call asks anything of GL. *)
Definition asks_gl (c : call) : bool :=
  match c with
  | RL_MALLOC _ | RL_CALLOC _ | RL_FREE _ => false
  | _ => true
  end.

End Resources.

(* ===================================================================== *)
(** * r3d_draw.c: decals and particle systems *)
(* ===================================================================== *)

Module Scattered.

Import Draw.

Local Open Scope Z_scope.

(** [R3D_Decal], as far as the submission functions read it. *)
Module R3D_Decal.
Record t : Type := { material : R3D_Material.t }.
End R3D_Decal.

(** [R3D_ParticleSystem], as far as [R3D_DrawParticleSystemEx] reads it;
    [particles] is the address of the array of particles. *)
Module R3D_ParticleSystem.
Record t : Type := {
  particles : option Z;
  count : Z;
  aabb : BoundingBox.t
}.
End R3D_ParticleSystem.

Section WithCache.

Variable layers_has : Z -> bool.
Variable R3D_GetDefaultMaterial : R3D_Material.t.

(** The rest of a zeroed mesh whose [shadowCastMode] is
    [R3D_SHADOW_CAST_DISABLED] and whose box is the cube of side 1 around
    the origin. *)
Variable unit_box_without_shadow : Z.

(** [R3D_MATRIX_IDENTITY] and [MatrixIdentity()]. *)
Variable R3D_MATRIX_IDENTITY : Matrix.

(** [sizeof(R3D_Particle)] and the offsets of its members [transform] and
    [color]. *)
Variables sizeof_R3D_Particle offsetof_transform offsetof_color : Z.

Definition R3D_DrawDecal (decal : option R3D_Decal.t) (transform : Matrix)
    (st : draw_lists) : outcome draw_lists :=
  let drawGroup :=
    {| r3d_draw_group_t.aabb := BoundingBox.zero;
       r3d_draw_group_t.transform := transform;
       r3d_draw_group_t.skeleton := 0;
       r3d_draw_group_t.player := None;
       r3d_draw_group_t.instanced := instanced_t.zero |} in
  let st1 := r3d_draw_group_push drawGroup st in
  match decal with
  | None => Fault
  | Some dc =>
      let drawCall :=
        {| r3d_draw_call_t.material := R3D_Decal.material dc;
           r3d_draw_call_t.mesh :=
             {| R3D_Mesh.layerMask := 0;
                R3D_Mesh.geometry := unit_box_without_shadow |} |} in
      Ok (r3d_draw_call_push drawCall true st1)
  end.

Definition R3D_DrawDecalInstanced (decal : option R3D_Decal.t)
    (instanceTransforms : option Z) (instanceCount : Z) (st : draw_lists)
  : outcome draw_lists :=
  let drawGroup :=
    {| r3d_draw_group_t.aabb := BoundingBox.zero;
       r3d_draw_group_t.transform := R3D_MATRIX_IDENTITY;
       r3d_draw_group_t.skeleton := 0;
       r3d_draw_group_t.player := None;
       r3d_draw_group_t.instanced :=
         {| instanced_t.allAabb := BoundingBox.zero;
            instanced_t.transforms := instanceTransforms;
            instanced_t.transStride := 0;
            instanced_t.colStride := 0;
            instanced_t.colors := None;
            instanced_t.count := instanceCount |} |} in
  let st1 := r3d_draw_group_push drawGroup st in
  match decal with
  | None => Fault
  | Some dc =>
      let drawCall :=
        {| r3d_draw_call_t.material := R3D_Decal.material dc;
           r3d_draw_call_t.mesh :=
             {| R3D_Mesh.layerMask := 0;
                R3D_Mesh.geometry := unit_box_without_shadow |} |} in
      Ok (r3d_draw_call_push drawCall true st1)
  end.

(** [R3D_DrawParticleSystemEx]. The addresses handed on are those of the
    members [transform] and [color] of the first particle; they are taken
    through the array, which must be there. *)
Definition R3D_DrawParticleSystemEx (system : option R3D_ParticleSystem.t)
    (mesh : option R3D_Mesh.t) (material : option R3D_Material.t)
    (transform : Matrix) (st : draw_lists) : outcome draw_lists :=
  match system, mesh with
  | Some sy, Some _ =>
      match R3D_ParticleSystem.particles sy with
      | None => Fault
      | Some first =>
          R3D_DrawMeshInstancedPro layers_has R3D_GetDefaultMaterial
            mesh material (Some (R3D_ParticleSystem.aabb sy)) transform
            (Some (first + offsetof_transform)) sizeof_R3D_Particle
            (Some (first + offsetof_color)) sizeof_R3D_Particle
            (R3D_ParticleSystem.count sy) st
      end
  | _, _ => Ok st
  end.

Definition R3D_DrawParticleSystem (system : option R3D_ParticleSystem.t)
    (mesh : option R3D_Mesh.t) (material : option R3D_Material.t)
    (st : draw_lists) : outcome draw_lists :=
  R3D_DrawParticleSystemEx system mesh material R3D_MATRIX_IDENTITY st.

End WithCache.

End Scattered.

(** The calls a model owes when all its meshes are submitted: one for each
    mesh, in order, with the material its index selects, all of them in
    the group of number [group]. *)
Module Whole.

Import Draw.



End Whole.

(* ===================================================================== *)
(** * r3d_draw.c: the lights sent for a forward draw call *)
(* ===================================================================== *)

Module ForwardLights.

Inductive R3D_LightType : Type := R3D_LIGHT_DIR | R3D_LIGHT_SPOT | R3D_LIGHT_OMNI.

(** A light, as far as [pass_scene_forward_send_lights] branches on it;
    [data] stands for the members whose values are only passed on (colour,
    energy, position, range, box, shadow map, matrices). *)
Record r3d_light_t : Type := {
  type : R3D_LightType;
  shadow : bool;
  data : Z
}.

(** The members of [uLights[i]]. *)
Inductive member : Type :=
| enabled | type_ | color | specular | energy | direction | position
| range | attenuation | innerCutOff | outerCutOff
| shadowTexelSize | shadowSoftness | shadowDepthBias | shadowSlopeBias
| near | far | shadow_.

(** What is written: a flag, or the member of that name of a light. *)
Inductive value : Type :=
| flag (b : bool)
| of_light (light : r3d_light_t).

(** The uniform writes and sampler bindings on [scene.forward] that carry
    a light index. *)
Inductive call : Type :=
| R3D_SHADER_SET (i : nat) (m : member) (v : value)        (* uLights[i].m *)
| R3D_SHADER_BIND_SAMPLER_CUBE (i : nat) (light : r3d_light_t)
                                                          (* uShadowMapCube[i] *)
| R3D_SHADER_BIND_SAMPLER_2D (i : nat) (light : r3d_light_t)
                                                          (* uShadowMap2D[i] *)
| R3D_SHADER_SET_MAT4 (i : nat) (light : r3d_light_t)      (* uMatLightVP[i] *)
| R3D_SHADER_UNBIND_SAMPLER_CUBE (i : nat)
| R3D_SHADER_UNBIND_SAMPLER_2D (i : nat).

Definition is_dir (light : r3d_light_t) : bool :=
  match type light with R3D_LIGHT_DIR => true | _ => false end.

(** The body of the loop for a light that is sent, at index [iLight]. *)
Definition send (iLight : nat) (light : r3d_light_t) : list call :=
  let set m := R3D_SHADER_SET iLight m (of_light light) in
  [R3D_SHADER_SET iLight enabled (flag true);
   set type_; set color; set specular; set energy]
  ++ match type light with
     | R3D_LIGHT_DIR => [set direction]
     | R3D_LIGHT_SPOT =>
         [set position; set direction; set range; set attenuation;
          set innerCutOff; set outerCutOff]
     | R3D_LIGHT_OMNI => [set position; set range; set attenuation]
     end
  ++ (if shadow light then
        match type light with
        | R3D_LIGHT_OMNI => [R3D_SHADER_BIND_SAMPLER_CUBE iLight light]
        | _ =>
            [set shadowTexelSize; R3D_SHADER_BIND_SAMPLER_2D iLight light;
             R3D_SHADER_SET_MAT4 iLight light]
        end
        ++ [set shadowSoftness; set shadowDepthBias; set shadowSlopeBias;
            set near; set far;
            R3D_SHADER_SET iLight shadow_ (flag true)]
      else [R3D_SHADER_SET iLight shadow_ (flag false)]).

Section WithCall.

(** [R3D_SHADER_FORWARD_NUM_LIGHTS]. *)
Variable R3D_SHADER_FORWARD_NUM_LIGHTS : nat.

(** [CheckCollisionBoxes(light->aabb, call->mesh.aabb)] for the draw call
    at hand. *)
Variable CheckCollisionBoxes : r3d_light_t -> bool.

(** The loop over the visible lights: the index after it and the calls. *)
Fixpoint send_loop (visible : list r3d_light_t) (iLight : nat)
  : nat * list call :=
  match visible with
  | [] => (iLight, [])
  | light :: rest =>
      if negb (is_dir light) && negb (CheckCollisionBoxes light)
      then send_loop rest iLight
      else
        let sent := send iLight light in
        if Nat.eqb (S iLight) R3D_SHADER_FORWARD_NUM_LIGHTS
        then (S iLight, sent)
        else
          let '(last, more) := send_loop rest (S iLight) in
          (last, sent ++ more)
  end.

(** The final loop, from [iLight] on. *)
Definition disable_from (iLight : nat) : list call :=
  map (fun i => R3D_SHADER_SET i enabled (flag false))
    (seq iLight (R3D_SHADER_FORWARD_NUM_LIGHTS - iLight)).

Definition pass_scene_forward_send_lights (visible : list r3d_light_t)
  : list call :=
  let '(iLight, sent) := send_loop visible 0 in
  sent ++ disable_from iLight.

(** The loop that ends [pass_scene_forward]. *)
Definition unbind_shadow_maps : list call :=
  flat_map (fun i => [R3D_SHADER_UNBIND_SAMPLER_CUBE i;
                      R3D_SHADER_UNBIND_SAMPLER_2D i])
    (seq 0 R3D_SHADER_FORWARD_NUM_LIGHTS).

(** A light that is sent: a directional one, or one whose box meets the
    box of the mesh. *)
Definition reaches (light : r3d_light_t) : bool :=
  is_dir light || CheckCollisionBoxes light.

End WithCall.

(** The index a call carries. *)
Definition index_of (c : call) : nat :=
  match c with
  | R3D_SHADER_SET i _ _ => i
  | R3D_SHADER_BIND_SAMPLER_CUBE i _ => i
  | R3D_SHADER_BIND_SAMPLER_2D i _ => i
  | R3D_SHADER_SET_MAT4 i _ => i
  | R3D_SHADER_UNBIND_SAMPLER_CUBE i => i
  | R3D_SHADER_UNBIND_SAMPLER_2D i => i
  end.

(** The writes of [uLights[i].enabled], in order. *)
Fixpoint enabled_writes (t : list call) : list (nat * bool) :=
  match t with
  | [] => []
  | R3D_SHADER_SET i enabled (flag b) :: rest => (i, b) :: enabled_writes rest
  | _ :: rest => enabled_writes rest
  end.

(** The lights whose type was written, with their index, in order. *)
Fixpoint lights_sent (t : list call) : list (nat * r3d_light_t) :=
  match t with
  | [] => []
  | R3D_SHADER_SET i type_ (of_light l) :: rest => (i, l) :: lights_sent rest
  | _ :: rest => lights_sent rest
  end.

(** The unbinding that undoes a binding. *)
Definition undone_by (c : call) : option call :=
  match c with
  | R3D_SHADER_BIND_SAMPLER_CUBE i _ => Some (R3D_SHADER_UNBIND_SAMPLER_CUBE i)
  | R3D_SHADER_BIND_SAMPLER_2D i _ => Some (R3D_SHADER_UNBIND_SAMPLER_2D i)
  | _ => None
  end.

End ForwardLights.

(* ===================================================================== *)
(** * r3d_draw.c: the mip chain of the bloom pass *)
(* ===================================================================== *)

Module Bloom.

Local Open Scope Z_scope.

(** The draws of [pass_post_bloom] into the bloom target, each with the
    levels the source names for it: the level rendered to
    ([r3d_target_set_mip_level(0, level)]; [uDstLevel]), and the level
    sampled (the one whose texel size is sent; [uSrcLevel]). The first
    draw samples the scene. *)
Inductive draw : Type :=
| karis_average (dstLevel : Z)
| downsample (srcLevel dstLevel : Z)
| upsample (srcLevel dstLevel : Z).

(** [maxLevel], from what the conversion of the product to [int] gave. *)
Definition adjust (mipCount maxLevel : Z) : Z :=
  if maxLevel >? mipCount then mipCount
  else if maxLevel <? 1 then 1
  else maxLevel.

(** [for (dstLevel = 1; dstLevel < maxLevel; dstLevel++)], with [n] turns
    left. *)
Fixpoint downsampling (n : nat) (dstLevel : Z) : list draw :=
  match n with
  | O => []
  | S n' => downsample (dstLevel - 1) dstLevel :: downsampling n' (dstLevel + 1)
  end.

(** [for (dstLevel = maxLevel - 2; dstLevel >= 0; dstLevel--)], with [n]
    turns left. *)
Fixpoint upsampling (n : nat) (dstLevel : Z) : list draw :=
  match n with
  | O => []
  | S n' => upsample (dstLevel + 1) dstLevel :: upsampling n' (dstLevel - 1)
  end.

(** The draws into the bloom target, [converted] being the value of
    [(int)((float)mipCount * levels + 0.5f)]. Both loops make
    [maxLevel - 1] turns, or none if that is negative. *)
Definition pass_post_bloom (mipCount converted : Z) : list draw :=
  let maxLevel := adjust mipCount converted in
  [karis_average 0]
  ++ downsampling (Z.to_nat (maxLevel - 1)) 1
  ++ upsampling (Z.to_nat (maxLevel - 1)) (maxLevel - 2).

Definition target (d : draw) : Z :=
  match d with
  | karis_average l => l
  | downsample _ l => l
  | upsample _ l => l
  end.

Definition sampled (d : draw) : option Z :=
  match d with
  | karis_average _ => None
  | downsample l _ => Some l
  | upsample l _ => Some l
  end.

(** Every draw samples a level that an earlier draw rendered to, and not
    the level it renders to; [written] are the levels rendered before. *)
Fixpoint fed (written : list Z) (t : list draw) : bool :=
  match t with
  | [] => true
  | d :: rest =>
      match sampled d with
      | None => true
      | Some l => existsb (Z.eqb l) written && negb (l =? target d)
      end
      && fed (target d :: written) rest
  end.

End Bloom.

(* ===================================================================== *)
(** * r3d_draw.c: rasterising a draw call with a custom shader *)
(* ===================================================================== *)

Module Raster.

Local Open Scope Z_scope.

Definition GL_TEXTURE_1D : Z := 3552.  (* 0x0DE0 *)

(** The calls of [raster_geometry_custom]: those of GL, and those of the
    draw module. *)
Inductive call : Type :=
| gl (c : GL.call)
| glUniformMatrix4fv (location count : Z) (transpose : bool)
    (value : Draw.Matrix)
| glUniform2f (location : Z) (v0 v1 : float32)
| glUniform3f (location : Z) (v0 v1 v2 : float32)
| glUniform4f (location : Z) (v0 v1 v2 v3 : float32)
| r3d_draw_apply_cull_mode (mode : Z)
| r3d_draw
| r3d_draw_instanced (locInstanceModel locInstanceColor : Z).

(** The members of [R3D_Material] that the geometry pass sends besides
    the custom parameters. A colour is carried as its components divided
    by [255.0f], which is how they are sent. *)
Record maps : Type := {
  albedo_texture_id : Z;
  albedo_color : Vector4.t;
  emission_texture_id : Z;
  emission_color : Vector3.t;
  emission_energy : float32;
  normal_texture_id : Z;
  normal_scale : float32;
  orm_texture_id : Z;
  orm_occlusion : float32;
  orm_roughness : float32;
  orm_metalness : float32;
  billboardMode : Z;
  cullMode : Z;
  uvOffset : Vector2.t;
  uvScale : Vector2.t;
  alphaCutoff : float32
}.

(** The fallbacks of [R3D_TEXTURE_SELECT]. *)
Inductive fallback : Type := WHITE | NORMAL | BLACK.

(** [if (shader && shader->loc >= 0) send(shader->loc, ...);], the shape
    of the fifteen setters of built-in uniforms. *)
Definition at_location (shader : option Create.shader_object)
    (loc : Create.Builtins.t -> Z) (send : Z -> call) : list call :=
  match shader with
  | Some s =>
      if 0 <=? loc (Create.builtin s)
      then [send (loc (Create.builtin s))]
      else []
  | None => []
  end.

Definition R3D_CustomShaderSetMatModel shader (matrix : Draw.Matrix) :=
  at_location shader Create.Builtins.locMatModel
    (fun l => glUniformMatrix4fv l 1 true matrix).

Definition R3D_CustomShaderSetMatNormal shader (matrix : Draw.Matrix) :=
  at_location shader Create.Builtins.locMatNormal
    (fun l => glUniformMatrix4fv l 1 true matrix).

Definition R3D_CustomShaderSetAlbedoColor shader (r g b a : float32) :=
  at_location shader Create.Builtins.locAlbedoColor
    (fun l => glUniform4f l r g b a).

Definition R3D_CustomShaderSetEmissionEnergy shader (value : float32) :=
  at_location shader Create.Builtins.locEmissionEnergy
    (fun l => gl (GL.glUniform1f l value)).

Definition R3D_CustomShaderSetEmissionColor shader (r g b : float32) :=
  at_location shader Create.Builtins.locEmissionColor
    (fun l => glUniform3f l r g b).

Definition R3D_CustomShaderSetTexCoordOffset shader (x y : float32) :=
  at_location shader Create.Builtins.locTexCoordOffset
    (fun l => glUniform2f l x y).

Definition R3D_CustomShaderSetTexCoordScale shader (x y : float32) :=
  at_location shader Create.Builtins.locTexCoordScale
    (fun l => glUniform2f l x y).

Definition R3D_CustomShaderSetInstancing shader (value : Z) :=
  at_location shader Create.Builtins.locInstancing
    (fun l => gl (GL.glUniform1i l value)).

Definition R3D_CustomShaderSetSkinning shader (value : Z) :=
  at_location shader Create.Builtins.locSkinning
    (fun l => gl (GL.glUniform1i l value)).

Definition R3D_CustomShaderSetBillboard shader (value : Z) :=
  at_location shader Create.Builtins.locBillboard
    (fun l => gl (GL.glUniform1i l value)).

Definition R3D_CustomShaderSetAlphaCutoff shader (value : float32) :=
  at_location shader Create.Builtins.locAlphaCutoff
    (fun l => gl (GL.glUniform1f l value)).

Definition R3D_CustomShaderSetNormalScale shader (value : float32) :=
  at_location shader Create.Builtins.locNormalScale
    (fun l => gl (GL.glUniform1f l value)).

Definition R3D_CustomShaderSetOcclusion shader (value : float32) :=
  at_location shader Create.Builtins.locOcclusion
    (fun l => gl (GL.glUniform1f l value)).

Definition R3D_CustomShaderSetRoughness shader (value : float32) :=
  at_location shader Create.Builtins.locRoughness
    (fun l => gl (GL.glUniform1f l value)).

Definition R3D_CustomShaderSetMetalness shader (value : float32) :=
  at_location shader Create.Builtins.locMetalness
    (fun l => gl (GL.glUniform1f l value)).

Section WithModules.

(** What the draw, skeleton and texture modules answer:
    [R3D_IsSkeletonValid(&group->skeleton)], [player->texGlobalPose],
    [skeleton.texBindPose], [r3d_draw_has_instances(group)],
    [r3d_matrix_normal(&group->transform)], the macro
    [R3D_TEXTURE_SELECT] and [R3D_MOD_SHADER.scene.geometry.id]. *)
Variable R3D_IsSkeletonValid : Z -> bool.
Variable texGlobalPose : Z -> Z.
Variable texBindPose : Z -> Z.
Variable r3d_draw_has_instances : Draw.r3d_draw_group_t.t -> bool.
Variable r3d_matrix_normal : Draw.Matrix -> Draw.Matrix.
Variable R3D_TEXTURE_SELECT : Z -> fallback -> Z.
Variable scene_geometry_id : Z.

(** [raster_geometry_custom], up to the binding of the custom uniforms. *)
Definition before_custom (shader : option Create.shader_object) (m : maps)
    (group : Draw.r3d_draw_group_t.t) : list call :=
  [gl (GL.glUseProgram (Create.R3D_GetCustomShaderProgram shader))]
  ++ R3D_CustomShaderSetMatModel shader (Draw.r3d_draw_group_t.transform group)
  ++ R3D_CustomShaderSetMatNormal shader
       (r3d_matrix_normal (Draw.r3d_draw_group_t.transform group))
  ++ (if match Draw.r3d_draw_group_t.player group with
         | Some _ => true
         | None => false
         end
         || R3D_IsSkeletonValid (Draw.r3d_draw_group_t.skeleton group)
      then
        [gl (GL.glActiveTexture (GL.GL_TEXTURE0 + 0));
         gl (GL.glBindTexture GL_TEXTURE_1D
               match Draw.r3d_draw_group_t.player group with
               | Some player => texGlobalPose player
               | None => texBindPose (Draw.r3d_draw_group_t.skeleton group)
               end)]
        ++ R3D_CustomShaderSetSkinning shader 1
      else R3D_CustomShaderSetSkinning shader 0)
  ++ R3D_CustomShaderSetBillboard shader (billboardMode m)
  ++ R3D_CustomShaderSetEmissionEnergy shader (emission_energy m)
  ++ R3D_CustomShaderSetNormalScale shader (normal_scale m)
  ++ R3D_CustomShaderSetOcclusion shader (orm_occlusion m)
  ++ R3D_CustomShaderSetRoughness shader (orm_roughness m)
  ++ R3D_CustomShaderSetMetalness shader (orm_metalness m)
  ++ R3D_CustomShaderSetAlphaCutoff shader (alphaCutoff m)
  ++ R3D_CustomShaderSetTexCoordOffset shader
       (Vector2.x (uvOffset m)) (Vector2.y (uvOffset m))
  ++ R3D_CustomShaderSetTexCoordScale shader
       (Vector2.x (uvScale m)) (Vector2.y (uvScale m))
  ++ R3D_CustomShaderSetAlbedoColor shader
       (Vector4.x (albedo_color m)) (Vector4.y (albedo_color m))
       (Vector4.z (albedo_color m)) (Vector4.w (albedo_color m))
  ++ R3D_CustomShaderSetEmissionColor shader
       (Vector3.x (emission_color m)) (Vector3.y (emission_color m))
       (Vector3.z (emission_color m))
  ++ [gl (GL.glActiveTexture (GL.GL_TEXTURE0 + 1));
      gl (GL.glBindTexture GL.GL_TEXTURE_2D
            (R3D_TEXTURE_SELECT (albedo_texture_id m) WHITE));
      gl (GL.glActiveTexture (GL.GL_TEXTURE0 + 2));
      gl (GL.glBindTexture GL.GL_TEXTURE_2D
            (R3D_TEXTURE_SELECT (normal_texture_id m) NORMAL));
      gl (GL.glActiveTexture (GL.GL_TEXTURE0 + 3));
      gl (GL.glBindTexture GL.GL_TEXTURE_2D
            (R3D_TEXTURE_SELECT (emission_texture_id m) BLACK));
      gl (GL.glActiveTexture (GL.GL_TEXTURE0 + 4));
      gl (GL.glBindTexture GL.GL_TEXTURE_2D
            (R3D_TEXTURE_SELECT (orm_texture_id m) BLACK))].

(** The draw itself. *)
Definition rendering (shader : option Create.shader_object) (m : maps)
    (group : Draw.r3d_draw_group_t.t) : list call :=
  [r3d_draw_apply_cull_mode (cullMode m)]
  ++ (if r3d_draw_has_instances group
      then R3D_CustomShaderSetInstancing shader 1 ++ [r3d_draw_instanced 10 14]
      else R3D_CustomShaderSetInstancing shader 0 ++ [r3d_draw]).

(** The end of [raster_geometry_custom]. *)
Definition unbinding : list call :=
  [gl (GL.glActiveTexture (GL.GL_TEXTURE0 + 1));
   gl (GL.glBindTexture GL.GL_TEXTURE_2D 0);
   gl (GL.glActiveTexture (GL.GL_TEXTURE0 + 2));
   gl (GL.glBindTexture GL.GL_TEXTURE_2D 0);
   gl (GL.glActiveTexture (GL.GL_TEXTURE0 + 3));
   gl (GL.glBindTexture GL.GL_TEXTURE_2D 0);
   gl (GL.glActiveTexture (GL.GL_TEXTURE0 + 4));
   gl (GL.glBindTexture GL.GL_TEXTURE_2D 0);
   gl (GL.glUseProgram scene_geometry_id)].

(** [raster_geometry_custom] for a draw call of [group] whose material
    has the custom shader [shader], the custom parameters of [material]
    and the maps [m]. *)
Definition raster_geometry_custom (shader : option Create.shader_object)
    (material : R3D_Material.t) (m : maps) (group : Draw.r3d_draw_group_t.t)
  : outcome (list call) :=
  custom <- Bind.R3D_BindCustomUniforms (option_map Create.custom shader)
              (Some material) ;;
  Ok (before_custom shader m group
      ++ map gl custom
      ++ rendering shader m group
      ++ unbinding).

End WithModules.

(** A call that only sets a uniform or the cull mode. *)
Definition plain (c : call) : bool :=
  match c with
  | gl (GL.glActiveTexture _) => false
  | gl (GL.glBindTexture _ _) => false
  | gl (GL.glUseProgram _) => false
  | r3d_draw => false
  | r3d_draw_instanced _ _ => false
  | _ => true
  end.

(** A call that neither puts a program in use nor draws. *)
Definition quiet (c : call) : bool :=
  match c with
  | gl (GL.glUseProgram _) => false
  | r3d_draw => false
  | r3d_draw_instanced _ _ => false
  | _ => true
  end.

(** The programs put in use by a sequence of calls, in order. *)
Fixpoint programs_used (t : list call) : list Z :=
  match t with
  | [] => []
  | gl (GL.glUseProgram program) :: rest => program :: programs_used rest
  | _ :: rest => programs_used rest
  end.

(** The draws of a sequence of calls, in order. *)
Fixpoint draws (t : list call) : list call :=
  match t with
  | [] => []
  | r3d_draw :: rest => r3d_draw :: draws rest
  | r3d_draw_instanced a b :: rest => r3d_draw_instanced a b :: draws rest
  | _ :: rest => draws rest
  end.

(** The texture state of GL as far as one unit and one target go: the
    active unit, and the texture bound to [target] on [unit] if a call
    bound one. *)
Fixpoint track (t : list call) (unit target : Z) (st : Z * option Z)
  : Z * option Z :=
  match t with
  | [] => st
  | gl (GL.glActiveTexture u) :: rest => track rest unit target (u, snd st)
  | gl (GL.glBindTexture tg texture) :: rest =>
      track rest unit target
        (fst st,
         if (fst st =? unit) && (tg =? target) then Some texture else snd st)
  | _ :: rest => track rest unit target st
  end.

(** What is bound to [target] on [unit] after the calls [t], made from a
    state in which [active] is the active unit and nothing is known to be
    bound. *)
Definition bound_after (t : list call) (active unit target : Z) : option Z :=
  snd (track t unit target (active, None)).

End Raster.

(** More concrete data for the examples. *)
Module Cases.

Local Open Scope Z_scope.

(** A sampler registered on texture unit 6. *)
Definition detail : R3D_UniformInfo.t :=
  {| R3D_UniformInfo.name := lit "uDetail"; R3D_UniformInfo.location := 9;
     R3D_UniformInfo.type := R3D_PARAM_TEX2D; R3D_UniformInfo.texSlot := 6 |}.

Definition checker : Texture2D.t :=
  {| Texture2D.id := 42; Texture2D.width := 64; Texture2D.height := 64;
     Texture2D.mipmaps := 1; Texture2D.format := 7 |}.

Definition v12 : Vector2.t :=
  {| Vector2.x := Samples.one; Vector2.y := Samples.two |}.

Definition v1234 : Vector4.t :=
  {| Vector4.x := Samples.one; Vector4.y := Samples.two;
     Vector4.z := Samples.three; Vector4.w := Samples.four |}.

(** A statement that no newline closes. *)
Definition open_statement : cstring := lit "ALBEDO.r = 1.0".

Definition vertex_template : cstring := lit "#version 330 core
void main() {}
".

(** Locations by the length of the name, the program having no
    [uTexORM]. *)
Definition locations (program : Z) (name : cstring) : Z :=
  if strcmp_eq name (lit "uTexORM") then -1 else Samples.location_of name.

(** A GL that accepts everything: the vertex shader is object 3, the
    fragment shader object 2, the program object 7, and its active
    uniforms are [Samples.reported]. *)
Definition willing : Create.driver :=
  {| Create.text_allocated := fun _ => true;
     Create.created_shader := fun shaderType => shaderType - 35630;
     Create.compiled := fun _ _ => true;
     Create.created_program := 7;
     Create.linked := fun _ _ _ => true;
     Create.allocated := true;
     Create.active_uniforms := fun _ => Samples.reported;
     Create.uniform_location := locations;
     Create.uniform_block_index := fun _ _ => 0 |}.


(** An allocator that has no room for a composed text. *)
Definition short_of_memory : Create.driver :=
  {| Create.text_allocated := fun _ => false;
     Create.created_shader := fun shaderType => shaderType - 35630;
     Create.compiled := fun _ _ => true;
     Create.created_program := 7;
     Create.linked := fun _ _ _ => true;
     Create.allocated := true;
     Create.active_uniforms := fun _ => Samples.reported;
     Create.uniform_location := locations;
     Create.uniform_block_index := fun _ _ => 0 |}.

(** Four visible lights; the box of a light meets that of the mesh when
    its [data] is positive. *)
Definition sun : ForwardLights.r3d_light_t :=
  {| ForwardLights.type := ForwardLights.R3D_LIGHT_DIR;
     ForwardLights.shadow := true; ForwardLights.data := -1 |}.
Definition lamp : ForwardLights.r3d_light_t :=
  {| ForwardLights.type := ForwardLights.R3D_LIGHT_OMNI;
     ForwardLights.shadow := true; ForwardLights.data := 2 |}.
Definition far_lamp : ForwardLights.r3d_light_t :=
  {| ForwardLights.type := ForwardLights.R3D_LIGHT_OMNI;
     ForwardLights.shadow := false; ForwardLights.data := -3 |}.
Definition torch : ForwardLights.r3d_light_t :=
  {| ForwardLights.type := ForwardLights.R3D_LIGHT_SPOT;
     ForwardLights.shadow := false; ForwardLights.data := 4 |}.

Definition near (light : ForwardLights.r3d_light_t) : bool :=
  0 <? ForwardLights.data light.

(** The shader that creation builds for program 1 when GL reports
    [Samples.reported]. *)
Definition blend_shader : Create.shader_object :=
  {| Create.custom :=
       fst (Discover.discover_custom_uniforms Samples.location_of
              Samples.reported (R3D_Shader.fresh 1));
     Create.builtin := Create.cache_builtin_uniforms Samples.location_of |}.

(** The descriptor of its first sampler. *)
Definition uTexB : R3D_UniformInfo.t :=
  {| R3D_UniformInfo.name := lit "uTexB"; R3D_UniformInfo.location := 5;
     R3D_UniformInfo.type := R3D_PARAM_TEX2D; R3D_UniformInfo.texSlot := 5 |}.

Definition checker_parameter : R3D_MaterialParam.t :=
  {| R3D_MaterialParam.name := lit "uTexB";
     R3D_MaterialParam.type := R3D_PARAM_TEX2D;
     R3D_MaterialParam.value := Value.set_tex checker Value.zero |}.

(** A material on which the texture [checker] was set as [uTexB]. *)
Definition textured : R3D_Material.t :=
  {| R3D_Material.shader := Some 1;
     R3D_Material.params := Some [checker_parameter];
     R3D_Material.paramCount := 1;
     R3D_Material.paramCapacity := 4 |}.

Definition no_maps : Raster.maps :=
  {| Raster.albedo_texture_id := 0;
     Raster.albedo_color :=
       {| Vector4.x := Samples.one; Vector4.y := Samples.one;
          Vector4.z := Samples.one; Vector4.w := Samples.one |};
     Raster.emission_texture_id := 0;
     Raster.emission_color :=
       {| Vector3.x := 0; Vector3.y := 0; Vector3.z := 0 |};
     Raster.emission_energy := 0;
     Raster.normal_texture_id := 0;
     Raster.normal_scale := Samples.one;
     Raster.orm_texture_id := 0;
     Raster.orm_occlusion := Samples.one;
     Raster.orm_roughness := Samples.one;
     Raster.orm_metalness := 0;
     Raster.billboardMode := 0;
     Raster.cullMode := 1;
     Raster.uvOffset := {| Vector2.x := 0; Vector2.y := 0 |};
     Raster.uvScale := {| Vector2.x := Samples.one; Vector2.y := Samples.one |};
     Raster.alphaCutoff := 0 |}.

Definition lone_group : Draw.r3d_draw_group_t.t :=
  {| Draw.r3d_draw_group_t.aabb := Draw.BoundingBox.zero;
     Draw.r3d_draw_group_t.transform := [];
     Draw.r3d_draw_group_t.skeleton := 0;
     Draw.r3d_draw_group_t.player := None;
     Draw.r3d_draw_group_t.instanced := Draw.instanced_t.zero |}.

(** The default textures 101, 102 and 103 for a texture id of 0. *)
Definition select (id : Z) (f : Raster.fallback) : Z :=
  if id =? 0
  then match f with
       | Raster.WHITE => 101
       | Raster.NORMAL => 102
       | Raster.BLACK => 103
       end
  else id.

End Cases.

(* ===================================================================== *)
(** * The frame: order of the passes *)
(* ===================================================================== *)

Section FrameOrder.

Import StateMachine.

Lemma passes_app (l1 l2 : list Frame.call) :
  passes (l1 ++ l2) = passes l1 ++ passes l2.
Proof.
  induction l1 as [|c l1 IH]; simpl; [reflexivity|].
  destruct (pass_of c); simpl; now rewrite IH.
Qed.

Lemma ordered_app (lo mid hi : nat) (l1 l2 : list pass) :
  lo <= mid <= hi ->
  StronglySorted precedes l1 -> within lo mid l1 ->
  StronglySorted precedes l2 -> within (S mid) hi l2 ->
  StronglySorted precedes (l1 ++ l2) /\ within lo hi (l1 ++ l2).
Proof.
  unfold within. intros [Hlm Hmh] S1 W1 S2 W2. split.
  - induction S1 as [|p l1 S1 IH Hp]; simpl; [assumption|].
    inversion W1; subst. constructor; [now apply IH|].
    apply Forall_app; split; [assumption|].
    eapply Forall_impl; [|exact W2]. intros q Hq; left. destruct H1, Hq. lia.
  - apply Forall_app; split.
    + eapply Forall_impl; [|exact W1]. simpl; intros a [? ?]; lia.
    + eapply Forall_impl; [|exact W2]. simpl; intros a [? ?]; lia.
Qed.

Ltac segment :=
  unfold within; simpl;
  repeat first [apply SSorted_nil | apply SSorted_cons
               | apply Forall_nil | apply Forall_cons];
  try (unfold precedes; simpl;
       first [left; lia | right; split; reflexivity | lia]).

Lemma shadows_ordered f :
  StronglySorted precedes (passes (Frame.shadows f))
  /\ within 0 0 (passes (Frame.shadows f)).
Proof. split; segment. Qed.

Lemma cull_and_sort_ordered f :
  StronglySorted precedes (passes (Frame.cull_and_sort f))
  /\ within 1 2 (passes (Frame.cull_and_sort f)).
Proof.
  unfold Frame.cull_and_sort.
  destruct (Frame.NO_FRUSTUM_CULLING f), (Frame.OPAQUE_SORTING f),
    (Frame.TRANSPARENT_SORTING f); split; segment.
Qed.

Lemma deferred_ordered f :
  StronglySorted precedes (passes (Frame.deferred f))
  /\ within 3 10 (passes (Frame.deferred f)).
Proof.
  unfold Frame.deferred.
  destruct (Frame.has_deferred f); [|split; segment].
  destruct (Frame.has_decal f), (Frame.ssao_enabled f),
    (Frame.light_has_visible f), (Frame.ssil_enabled f),
    (Frame.ssr_enabled f); split; segment.
Qed.

Lemma background_and_transparent_ordered f :
  StronglySorted precedes (passes (Frame.background_and_transparent f))
  /\ within 11 13 (passes (Frame.background_and_transparent f)).
Proof.
  unfold Frame.background_and_transparent.
  destruct (Frame.has_forward f), (Frame.has_prepass f); split; segment.
Qed.

Lemma post_and_blit_ordered f :
  StronglySorted precedes (passes (Frame.post_and_blit f))
  /\ within 14 19 (passes (Frame.post_and_blit f)).
Proof.
  unfold Frame.post_and_blit.
  destruct (Frame.fog_on f), (Frame.dof_on f), (Frame.bloom_on f),
    (Frame.FXAA f); split; segment.
Qed.

Lemma R3D_End_passes f :
  passes (Frame.R3D_End f)
  = passes (Frame.shadows f)
    ++ passes (Frame.cull_and_sort f)
    ++ passes (Frame.deferred f)
    ++ passes (Frame.background_and_transparent f)
    ++ passes (Frame.post_and_blit f).
Proof.
  unfold Frame.R3D_End. rewrite !passes_app. simpl.
  now rewrite app_nil_r.
Qed.

(** What precedes the passes of one frame in the prescribed order. *)
Lemma R3D_End_ordered f :
  StronglySorted precedes (passes (Frame.R3D_End f))
  /\ within 0 19 (passes (Frame.R3D_End f)).
Proof.
  rewrite R3D_End_passes.
  destruct (shadows_ordered f) as [S0 W0].
  destruct (cull_and_sort_ordered f) as [S1 W1].
  destruct (deferred_ordered f) as [S2 W2].
  destruct (background_and_transparent_ordered f) as [S3 W3].
  destruct (post_and_blit_ordered f) as [S4 W4].
  assert (11 <= 13 <= 19) as L3 by lia.
  assert (3 <= 10 <= 19) as L2 by lia.
  assert (1 <= 2 <= 19) as L1 by lia.
  assert (0 <= 0 <= 19) as L0 by lia.
  destruct (ordered_app L3 S3 W3 S4 W4) as [S34 W34].
  destruct (ordered_app L2 S2 W2 S34 W34) as [S234 W234].
  destruct (ordered_app L1 S1 W1 S234 W234) as [S1234 W1234].
  exact (ordered_app L0 S0 W0 S1234 W1234).
Qed.

Lemma issued_app (p : pass) (l1 l2 : list Frame.call) :
  issued p (l1 ++ l2) = issued p l1 || issued p l2.
Proof. apply existsb_app. Qed.

(** A pass is not issued by calls whose passes all stand elsewhere. *)
Lemma issued_outside (lo hi : nat) (p : pass) (l : list Frame.call) :
  within lo hi (passes l) ->
  position p < lo \/ hi < position p ->
  issued p l = false.
Proof.
  unfold within, issued. intros W O.
  induction l as [|c l IH]; simpl in *; [reflexivity|].
  destruct (pass_of c) as [q|].
  - inversion W as [|? ? [Hlo Hhi] W']; subst.
    rewrite (IH W'), orb_false_r. apply Nat.eqb_neq. lia.
  - now apply IH.
Qed.

(** Which part of [R3D_End] can issue which pass. *)
Lemma issued_by_part (p : pass) (f : Frame.frame) :
  issued p (Frame.R3D_End f)
  = issued p (Frame.shadows f)
    || issued p (Frame.cull_and_sort f)
    || issued p (Frame.deferred f)
    || issued p (Frame.background_and_transparent f)
    || issued p (Frame.post_and_blit f).
Proof.
  unfold Frame.R3D_End. rewrite !issued_app. unfold issued at 3 7. simpl.
  now rewrite !orb_false_r, !orb_assoc.
Qed.

Lemma cull_part_issues (f : Frame.frame) :
  issued Culling (Frame.cull_and_sort f) = negb (Frame.NO_FRUSTUM_CULLING f)
  /\ issued Sorting (Frame.cull_and_sort f)
     = Frame.OPAQUE_SORTING f || Frame.TRANSPARENT_SORTING f.
Proof.
  unfold Frame.cull_and_sort.
  destruct (Frame.NO_FRUSTUM_CULLING f), (Frame.OPAQUE_SORTING f),
    (Frame.TRANSPARENT_SORTING f); split; reflexivity.
Qed.

Lemma deferred_part_issues (f : Frame.frame) :
  issued Geometry (Frame.deferred f) = Frame.has_deferred f
  /\ issued Ambient (Frame.deferred f) = Frame.has_deferred f
  /\ issued Compose (Frame.deferred f) = Frame.has_deferred f
  /\ issued Decals (Frame.deferred f) = Frame.has_deferred f && Frame.has_decal f
  /\ issued Lighting (Frame.deferred f)
     = Frame.has_deferred f && Frame.light_has_visible f.
Proof.
  unfold Frame.deferred.
  destruct (Frame.has_deferred f); [|repeat split].
  destruct (Frame.has_decal f), (Frame.ssao_enabled f),
    (Frame.light_has_visible f), (Frame.ssil_enabled f),
    (Frame.ssr_enabled f); repeat split.
Qed.

Lemma screen_space_part_issues (f : Frame.frame) :
  issued SSAO (Frame.deferred f) = Frame.has_deferred f && Frame.ssao_enabled f
  /\ issued SSIL (Frame.deferred f) = Frame.has_deferred f && Frame.ssil_enabled f
  /\ issued SSR (Frame.deferred f) = Frame.has_deferred f && Frame.ssr_enabled f.
Proof.
  unfold Frame.deferred.
  destruct (Frame.has_deferred f); [|repeat split].
  destruct (Frame.has_decal f), (Frame.ssao_enabled f),
    (Frame.light_has_visible f), (Frame.ssil_enabled f),
    (Frame.ssr_enabled f); repeat split.
Qed.

Lemma transparent_part_issues (f : Frame.frame) :
  issued Background (Frame.background_and_transparent f) = true
  /\ issued Forward (Frame.background_and_transparent f)
     = Frame.has_forward f || Frame.has_prepass f
  /\ issued Prepass (Frame.background_and_transparent f) = Frame.has_prepass f.
Proof.
  unfold Frame.background_and_transparent.
  destruct (Frame.has_forward f), (Frame.has_prepass f); repeat split.
Qed.

Lemma post_part_issues (f : Frame.frame) :
  issued PostTonemap (Frame.post_and_blit f) = true
  /\ issued Blit (Frame.post_and_blit f) = true.
Proof.
  unfold Frame.post_and_blit.
  destruct (Frame.fog_on f), (Frame.dof_on f), (Frame.bloom_on f),
    (Frame.FXAA f); repeat split.
Qed.

Lemma effects_part_issues (f : Frame.frame) :
  issued PostFog (Frame.post_and_blit f) = Frame.fog_on f
  /\ issued PostDoF (Frame.post_and_blit f) = Frame.dof_on f
  /\ issued PostBloom (Frame.post_and_blit f) = Frame.bloom_on f
  /\ issued PostFXAA (Frame.post_and_blit f) = Frame.FXAA f.
Proof.
  unfold Frame.post_and_blit.
  destruct (Frame.fog_on f), (Frame.dof_on f), (Frame.bloom_on f),
    (Frame.FXAA f); repeat split.
Qed.

Lemma sorted_lists_app (l1 l2 : list Frame.call) :
  sorted_lists (l1 ++ l2) = sorted_lists l1 ++ sorted_lists l2.
Proof.
  induction l1 as [|c l1 IH]; [reflexivity|].
  destruct c; cbn [app sorted_lists]; now rewrite ?IH.
Qed.

(** Only the calls that follow the shadow pass sort anything. *)
Lemma R3D_End_sorted_lists (f : Frame.frame) :
  sorted_lists (Frame.R3D_End f) = sorted_lists (Frame.cull_and_sort f).
Proof.
  unfold Frame.R3D_End. rewrite !sorted_lists_app.
  assert (sorted_lists (Frame.deferred f) = []) as ->.
  { unfold Frame.deferred.
    destruct (Frame.has_deferred f); [|reflexivity].
    destruct (Frame.has_decal f), (Frame.ssao_enabled f),
      (Frame.light_has_visible f), (Frame.ssil_enabled f),
      (Frame.ssr_enabled f); reflexivity. }
  assert (sorted_lists (Frame.background_and_transparent f) = []) as ->.
  { unfold Frame.background_and_transparent.
    destruct (Frame.has_forward f), (Frame.has_prepass f); reflexivity. }
  assert (sorted_lists (Frame.post_and_blit f) = []) as ->.
  { unfold Frame.post_and_blit.
    destruct (Frame.fog_on f), (Frame.dof_on f), (Frame.bloom_on f),
      (Frame.FXAA f); reflexivity. }
  cbn [Frame.shadows sorted_lists app]. now rewrite app_nil_r.
Qed.

(** The value of [issued] for a pass that one part only can issue. *)
Ltac by_part f :=
  rewrite issued_by_part;
  repeat match goal with
    | |- context [issued ?p (Frame.shadows f)] =>
        rewrite (@issued_outside 0 0 p (Frame.shadows f)
                   (proj2 (shadows_ordered f))) by (simpl; lia)
    | |- context [issued ?p (Frame.cull_and_sort f)] =>
        rewrite (@issued_outside 1 2 p (Frame.cull_and_sort f)
                   (proj2 (cull_and_sort_ordered f))) by (simpl; lia)
    | |- context [issued ?p (Frame.deferred f)] =>
        rewrite (@issued_outside 3 10 p (Frame.deferred f)
                   (proj2 (deferred_ordered f))) by (simpl; lia)
    | |- context [issued ?p (Frame.background_and_transparent f)] =>
        rewrite (@issued_outside 11 13 p (Frame.background_and_transparent f)
                   (proj2 (background_and_transparent_ordered f)))
          by (simpl; lia)
    | |- context [issued ?p (Frame.post_and_blit f)] =>
        rewrite (@issued_outside 14 19 p (Frame.post_and_blit f)
                   (proj2 (post_and_blit_ordered f))) by (simpl; lia)
    end;
  rewrite ?orb_false_r; simpl orb.

(** C1. Whatever the flags, the environment and the draw lists are, the
    passes that one call of [R3D_End] issues come in the order of the
    state machine: every pass is followed only by passes that stand later
    in that order (the sorting calls apart, which form one pass), so that
    none but the sorting is issued twice. Which of the twenty passes are
    issued is fixed by the frame. The shadow pass, the background, the
    tone-mapping output and the blit are issued in every frame. Culling is
    issued unless frustum culling is switched off, sorting when opaque or
    transparent sorting is asked for: the deferred list front to back for
    the first, the prepass and the forward list back to front for the
    second. Geometry, ambient and composition are issued exactly when
    there is a deferred call; decals, SSAO, lighting, SSIL and SSR only
    then, and when there are decals, when SSAO is enabled, when a light is
    visible, when SSIL and when SSR are enabled. The forward pass is
    issued exactly when there is a forward or a prepass call, the prepass
    when there is a prepass call. Fog, depth of field and bloom are issued
    when their mode is not the disabled one, FXAA when its flag is set. *)
Theorem R3D_End_follows_state_machine (f : Frame.frame) :
  StronglySorted precedes (passes (Frame.R3D_End f))
  /\ issued Shadow (Frame.R3D_End f) = true
  /\ issued Culling (Frame.R3D_End f) = negb (Frame.NO_FRUSTUM_CULLING f)
  /\ issued Sorting (Frame.R3D_End f)
     = Frame.OPAQUE_SORTING f || Frame.TRANSPARENT_SORTING f
  /\ sorted_lists (Frame.R3D_End f)
     = (if Frame.OPAQUE_SORTING f
        then [(Frame.R3D_DRAW_DEFERRED, Frame.R3D_DRAW_SORT_FRONT_TO_BACK)]
        else [])
       ++ (if Frame.TRANSPARENT_SORTING f
           then [(Frame.R3D_DRAW_PREPASS, Frame.R3D_DRAW_SORT_BACK_TO_FRONT);
                 (Frame.R3D_DRAW_FORWARD, Frame.R3D_DRAW_SORT_BACK_TO_FRONT)]
           else [])
  /\ issued Geometry (Frame.R3D_End f) = Frame.has_deferred f
  /\ issued Decals (Frame.R3D_End f) = Frame.has_deferred f && Frame.has_decal f
  /\ issued SSAO (Frame.R3D_End f) = Frame.has_deferred f && Frame.ssao_enabled f
  /\ issued Lighting (Frame.R3D_End f)
     = Frame.has_deferred f && Frame.light_has_visible f
  /\ issued SSIL (Frame.R3D_End f) = Frame.has_deferred f && Frame.ssil_enabled f
  /\ issued SSR (Frame.R3D_End f) = Frame.has_deferred f && Frame.ssr_enabled f
  /\ issued Ambient (Frame.R3D_End f) = Frame.has_deferred f
  /\ issued Compose (Frame.R3D_End f) = Frame.has_deferred f
  /\ issued Background (Frame.R3D_End f) = true
  /\ issued Prepass (Frame.R3D_End f) = Frame.has_prepass f
  /\ issued Forward (Frame.R3D_End f) = Frame.has_forward f || Frame.has_prepass f
  /\ issued PostFog (Frame.R3D_End f) = Frame.fog_on f
  /\ issued PostDoF (Frame.R3D_End f) = Frame.dof_on f
  /\ issued PostBloom (Frame.R3D_End f) = Frame.bloom_on f
  /\ issued PostTonemap (Frame.R3D_End f) = true
  /\ issued PostFXAA (Frame.R3D_End f) = Frame.FXAA f
  /\ issued Blit (Frame.R3D_End f) = true.
Proof.
  split; [exact (proj1 (R3D_End_ordered f))|].
  destruct (cull_part_issues f) as (Cu & So).
  destruct (deferred_part_issues f) as (G & A & C & D & L).
  destruct (screen_space_part_issues f) as (Ao & Il & Sr).
  destruct (transparent_part_issues f) as (B & F & P).
  destruct (effects_part_issues f) as (Fo & Do & Bo & Fx).
  destruct (post_part_issues f) as (T & Bl).
  split; [rewrite issued_by_part; reflexivity|].
  split; [by_part f; exact Cu|].
  split; [by_part f; exact So|].
  split.
  { rewrite R3D_End_sorted_lists. unfold Frame.cull_and_sort.
    destruct (Frame.NO_FRUSTUM_CULLING f), (Frame.OPAQUE_SORTING f),
      (Frame.TRANSPARENT_SORTING f); reflexivity. }
  split; [by_part f; exact G|].
  split; [by_part f; exact D|].
  split; [by_part f; exact Ao|].
  split; [by_part f; exact L|].
  split; [by_part f; exact Il|].
  split; [by_part f; exact Sr|].
  split; [by_part f; exact A|].
  split; [by_part f; exact C|].
  split; [by_part f; exact B|].
  split; [by_part f; exact P|].
  split; [by_part f; exact F|].
  split; [by_part f; exact Fo|].
  split; [by_part f; exact Do|].
  split; [by_part f; exact Bo|].
  split; [by_part f; exact T|].
  split; [by_part f; exact Fx|by_part f; exact Bl].
Qed.

End FrameOrder.

(* ===================================================================== *)
(** * Draw submission *)
(* ===================================================================== *)

Section Submitting.

Import Draw Submission.

Variable layers_has : Z -> bool.
Variable R3D_GetDefaultMaterial : R3D_Material.t.

(** A mesh pointer that is NULL is dereferenced by the layer test. *)
Lemma R3D_DrawMesh_null_mesh material transform st :
  R3D_DrawMesh layers_has R3D_GetDefaultMaterial None material transform st
  = Fault.
Proof. reflexivity. Qed.

(** A visible mesh drawn without a material is enqueued with the default
    one: one more group, one more call. *)
Lemma R3D_DrawMesh_null_material me transform st :
  layers_has (R3D_Mesh.layerMask me) = true ->
  exists g,
    R3D_DrawMesh layers_has R3D_GetDefaultMaterial (Some me) None transform st
    = Ok {| groups := groups st ++ [g];
            calls := calls st
                     ++ [(length (groups st),
                          {| r3d_draw_call_t.material := R3D_GetDefaultMaterial;
                             r3d_draw_call_t.mesh := me |},
                          false)] |}.
Proof.
  intro V. eexists. unfold R3D_DrawMesh. rewrite V. simpl.
  unfold r3d_draw_call_push, r3d_draw_group_push. simpl.
  rewrite length_app. simpl.
  replace (length (groups st) + 1 - 1) with (length (groups st)) by lia.
  reflexivity.
Qed.

(** C5, amended. With a mesh at hand, a NULL material is no reason to
    drop the submission: it stands for the default material, in
    [R3D_DrawMesh] as in [R3D_DrawMeshInstancedPro]; and an instanced
    submission whose instance count is zero or whose transforms pointer is
    NULL leaves the draw lists as they are, through
    [R3D_DrawMeshInstancedPro] and through [R3D_DrawMeshInstanced]. *)
Theorem null_material_is_default_and_no_instances_is_noop
    (me : R3D_Mesh.t) (material : option R3D_Material.t)
    (globalAabb : option BoundingBox.t) (transform identity : Matrix)
    (instanceTransforms : option Z) (transformsStride : Z)
    (instanceColors : option Z) (colorsStride instanceCount : Z)
    (st : draw_lists) :
  instanceCount = 0%Z \/ instanceTransforms = None ->
  R3D_DrawMesh layers_has R3D_GetDefaultMaterial (Some me) None transform st
  = R3D_DrawMesh layers_has R3D_GetDefaultMaterial (Some me)
      (Some R3D_GetDefaultMaterial) transform st
  /\ (forall tr n,
        R3D_DrawMeshInstancedPro layers_has R3D_GetDefaultMaterial (Some me) None
          globalAabb transform tr transformsStride instanceColors colorsStride n st
        = R3D_DrawMeshInstancedPro layers_has R3D_GetDefaultMaterial (Some me)
            (Some R3D_GetDefaultMaterial)
            globalAabb transform tr transformsStride instanceColors colorsStride n st)
  /\ R3D_DrawMeshInstancedPro layers_has R3D_GetDefaultMaterial (Some me) material
       globalAabb transform instanceTransforms transformsStride
       instanceColors colorsStride instanceCount st
     = Ok st
  /\ R3D_DrawMeshInstanced layers_has R3D_GetDefaultMaterial identity (Some me)
       material instanceTransforms instanceCount st
     = Ok st.
Proof.
  intros H. repeat split.
  - unfold R3D_DrawMeshInstanced, R3D_DrawMeshInstancedPro.
    destruct (layers_has (R3D_Mesh.layerMask me)); simpl; [|reflexivity].
    destruct H as [-> | ->]; [|reflexivity].
    destruct instanceTransforms; reflexivity.
  - unfold R3D_DrawMeshInstanced, R3D_DrawMeshInstancedPro.
    destruct (layers_has (R3D_Mesh.layerMask me)); simpl; [|reflexivity].
    destruct H as [-> | ->]; [|reflexivity].
    destruct instanceTransforms; reflexivity.
Qed.

(** The mesh loop, up to the first mesh whose layer is off. *)
Lemma mesh_loop_stops (mo : R3D_Model.t) (m : R3D_Mesh.t)
    (post : list R3D_Mesh.t) :
  layers_has (R3D_Mesh.layerMask m) = false ->
  forall (pre done : list R3D_Mesh.t) (n : nat) (st : draw_lists),
    R3D_Model.meshes mo = done ++ pre ++ m :: post ->
    Forall (fun x => layers_has (R3D_Mesh.layerMask x) = true) pre ->
    length pre < n ->
    mesh_loop layers_has mo n (length done) st
    = push_meshes mo pre (length done) st.
Proof.
  intros Hm pre. induction pre as [|x pre IH]; intros done n st E V L.
  - destruct n as [|n]; [simpl in L; lia|]. simpl.
    rewrite E, nth_error_app2, Nat.sub_diag by lia. simpl.
    now rewrite Hm.
  - destruct n as [|n]; [simpl in L; lia|]. simpl.
    rewrite E, nth_error_app2, Nat.sub_diag by lia. simpl.
    inversion V as [|? ? Vx Vpre]; subst. rewrite Vx. simpl.
    unfold material_of.
    destruct (nth_error (R3D_Model.meshMaterials mo) (length done)) as [k|];
      [|reflexivity].
    destruct (k <? 0)%Z; [reflexivity|].
    destruct (nth_error (R3D_Model.materials mo) (Z.to_nat k)) as [mat|];
      [|reflexivity].
    specialize (IH (done ++ [x]) n).
    rewrite length_app in IH. simpl in IH.
    replace (length done + 1) with (S (length done)) in IH by lia.
    apply IH.
    + rewrite E, <- app_assoc. reflexivity.
    + assumption.
    + simpl in L. lia.
Qed.

(** Calls are added to the draw lists, groups are not touched. *)
Lemma push_meshes_keeps_groups (mo : R3D_Model.t) (ms : list R3D_Mesh.t) :
  forall i st st',
    push_meshes mo ms i st = Ok st' ->
    groups st' = groups st
    /\ exists added, calls st' = calls st ++ added /\ length added = length ms.
Proof.
  induction ms as [|me ms IH]; intros i st st' H; simpl in H.
  - inversion H; subst. split; [reflexivity|]. exists []. now rewrite app_nil_r.
  - destruct (material_of mo i) as [mat|]; [|discriminate].
    apply IH in H. destruct H as [G [added [C L]]]. simpl in G, C.
    split; [assumption|].
    eexists. rewrite C, <- app_assoc. split; [reflexivity|].
    simpl. now rewrite L.
Qed.

(** C9. In both model submissions, once the mesh loop meets a mesh whose
    layer is not among the visible ones, the function is over: what has
    been submitted is the group and one call for each mesh before that one,
    and neither that mesh nor any mesh after it, visible or not, adds
    anything. *)
Theorem hidden_mesh_ends_model_submission
    (mo : R3D_Model.t) (pre post : list R3D_Mesh.t) (m : R3D_Mesh.t)
    (transform : Matrix) (globalAabb : option BoundingBox.t)
    (instanceTransforms : Z) (transformsStride : Z)
    (instanceColors : option Z) (colorsStride instanceCount : Z)
    (st : draw_lists) :
  R3D_Model.meshes mo = pre ++ m :: post ->
  Forall (fun x => layers_has (R3D_Mesh.layerMask x) = true) pre ->
  layers_has (R3D_Mesh.layerMask m) = false ->
  (Z.of_nat (length pre) < R3D_Model.meshCount mo)%Z ->
  instanceCount <> 0%Z ->
  R3D_DrawModelPro layers_has (Some mo) transform st
  = push_meshes mo pre 0
      (r3d_draw_group_push (model_group mo transform instanced_t.zero) st)
  /\ R3D_DrawModelInstancedPro layers_has (Some mo) globalAabb transform
       (Some instanceTransforms) transformsStride instanceColors colorsStride
       instanceCount st
     = push_meshes mo pre 0
         (r3d_draw_group_push
            (model_group mo transform
               (instancing globalAabb (Some instanceTransforms) transformsStride
                  instanceColors colorsStride instanceCount))
            st)
  /\ (forall st',
        R3D_DrawModelPro layers_has (Some mo) transform st = Ok st'
        \/ R3D_DrawModelInstancedPro layers_has (Some mo) globalAabb transform
             (Some instanceTransforms) transformsStride instanceColors
             colorsStride instanceCount st = Ok st' ->
        length (groups st') = S (length (groups st))
        /\ length (calls st') = length (calls st) + length pre).
Proof.
  intros E V Hm L Hn.
  assert (length pre < Z.to_nat (R3D_Model.meshCount mo)) as L' by lia.
  assert (R3D_DrawModelPro layers_has (Some mo) transform st
          = push_meshes mo pre 0
              (r3d_draw_group_push (model_group mo transform instanced_t.zero) st))
    as E1.
  { unfold R3D_DrawModelPro.
    apply (@mesh_loop_stops mo m post Hm pre [] _ _ E V L'). }
  assert (R3D_DrawModelInstancedPro layers_has (Some mo) globalAabb transform
            (Some instanceTransforms) transformsStride instanceColors colorsStride
            instanceCount st
          = push_meshes mo pre 0
              (r3d_draw_group_push
                 (model_group mo transform
                    (instancing globalAabb (Some instanceTransforms)
                       transformsStride instanceColors colorsStride instanceCount))
                 st)) as E2.
  { unfold R3D_DrawModelInstancedPro.
    destruct (instanceCount =? 0)%Z eqn:E0; [lia|].
    destruct (R3D_Model.meshCount mo =? 0)%Z eqn:E3; [lia|]. simpl.
    apply (@mesh_loop_stops mo m post Hm pre [] _ _ E V L'). }
  split; [exact E1|]. split; [exact E2|].
  intros st' [H|H]; [rewrite E1 in H|rewrite E2 in H];
    apply push_meshes_keeps_groups in H;
    destruct H as [G [added [C La]]];
    rewrite G, C, length_app, La; unfold r3d_draw_group_push; simpl;
    rewrite length_app; simpl; lia.
Qed.

End Submitting.

(* ===================================================================== *)
(** * Material parameters *)
(* ===================================================================== *)

Section Strings.

Lemma strcmp_eq_refl (a : cstring) : strcmp_eq a a = true.
Proof.
  induction a as [|x a IH]; simpl; [reflexivity|].
  now rewrite Ascii.eqb_refl, IH.
Qed.

Lemma strcmp_eq_true (a b : cstring) : strcmp_eq a b = true -> a = b.
Proof.
  revert b. induction a as [|x a IH]; intros [|y b] H; simpl in H;
    try discriminate; [reflexivity|].
  apply andb_true_iff in H. destruct H as [Hxy Hab].
  apply Ascii.eqb_eq in Hxy. apply IH in Hab. now subst.
Qed.

Lemma strcmp_eq_false (a b : cstring) : a <> b -> strcmp_eq a b = false.
Proof.
  intro N. destruct (strcmp_eq a b) eqn:E; [|reflexivity].
  now apply strcmp_eq_true in E.
Qed.

(** A name of 64 characters or more is different from every stored name. *)
Lemma long_name_never_matches (stored name : cstring) :
  length stored <= 63 -> 64 <= length name -> strcmp_eq stored name = false.
Proof.
  intros Hs Hn. apply strcmp_eq_false. intros ->. lia.
Qed.

End Strings.

Section Setters.

Import Params Lookup.

Lemma find_param_all (name : cstring) (ps : list R3D_MaterialParam.t) :
  forall i, find_param ps (length ps) i name = Ok (first_named name ps i).
Proof.
  induction ps as [|p ps IH]; intro i; simpl; [reflexivity|].
  destruct (strcmp_eq (R3D_MaterialParam.name p) name); [reflexivity|apply IH].
Qed.

Lemma first_named_sound (name : cstring) (ps : list R3D_MaterialParam.t) :
  forall i j p,
    first_named name ps i = Some (j, p) ->
    i <= j /\ nth_error ps (j - i) = Some p /\ R3D_MaterialParam.name p = name.
Proof.
  induction ps as [|q ps IH]; intros i j p H; simpl in H; [discriminate|].
  destruct (strcmp_eq (R3D_MaterialParam.name q) name) eqn:E.
  - inversion H; subst. rewrite Nat.sub_diag. simpl.
    repeat split; auto using strcmp_eq_true.
  - apply IH in H. destruct H as [L [N Hn]].
    repeat split; [lia| |assumption].
    replace (j - i) with (S (j - S i)) by lia. exact N.
Qed.

Lemma material_ok_count (m : R3D_Material.t) :
  material_ok m ->
  Z.to_nat (R3D_Material.paramCount m) = length (R3D_Material.slots m).
Proof.
  unfold material_ok, R3D_Material.slots.
  destruct (R3D_Material.params m) as [l|].
  - intros [-> _]. now rewrite Nat2Z.id.
  - intros ->. reflexivity.
Qed.

Lemma array_set_length {A : Type} (x : A) (arr : list A) :
  forall i, length (array_set i x arr) = length arr.
Proof.
  induction arr as [|a arr IH]; intros [|i]; simpl; auto.
Qed.

Lemma material_ok_countZ (m : R3D_Material.t) :
  material_ok m ->
  R3D_Material.paramCount m = Z.of_nat (length (R3D_Material.slots m)).
Proof.
  unfold material_ok, R3D_Material.slots.
  destruct (R3D_Material.params m) as [l|]; [tauto|auto].
Qed.

Lemma material_ok_capacity (m : R3D_Material.t) :
  material_ok m -> 0 < length (R3D_Material.slots m) ->
  (0 < R3D_Material.paramCapacity m)%Z
  /\ (R3D_Material.paramCount m <= R3D_Material.paramCapacity m)%Z.
Proof.
  unfold material_ok, R3D_Material.slots.
  destruct (R3D_Material.params m) as [l|]; [tauto|simpl; lia].
Qed.

Lemma array_set_end {A : Type} (x y : A) (l : list A) :
  array_set (length l) x (l ++ [y]) = l ++ [x].
Proof. induction l as [|a l IH]; simpl; [reflexivity|now rewrite IH]. Qed.

Lemma write_slot_end (x : R3D_MaterialParam.t) (l : list R3D_MaterialParam.t) :
  write_slot (length l) x l = l ++ [x].
Proof.
  unfold write_slot. rewrite firstn_all, skipn_all2 by lia. reflexivity.
Qed.

(** Appending to a material in good state. *)
Lemma append_param_ok (m : R3D_Material.t) (l : list R3D_MaterialParam.t)
    (capacity : Z) (param : R3D_MaterialParam.t) (assign : Value.t -> Value.t) :
  (0 < capacity)%Z -> (Z.of_nat (length l) < capacity)%Z ->
  exists m',
    (m'' <- store_value
              {| R3D_Material.shader := R3D_Material.shader m;
                 R3D_Material.params := Some (write_slot (length l) param l);
                 R3D_Material.paramCount := Z.of_nat (length l) + 1;
                 R3D_Material.paramCapacity := capacity |}
              (length l) assign ;;
     Ok (Some m'')) = Ok (Some m')
    /\ R3D_Material.slots m'
       = l ++ [with_value param (assign (R3D_MaterialParam.value param))]
    /\ R3D_Material.paramCount m' = Z.of_nat (length (R3D_Material.slots m'))
    /\ R3D_Material.shader m' = R3D_Material.shader m
    /\ material_ok m'.
Proof.
  intros Hcap Hlt. rewrite write_slot_end.
  unfold store_value, R3D_Material.slots. simpl.
  rewrite nth_error_app2, Nat.sub_diag by lia. simpl.
  eexists. split; [reflexivity|]. simpl. rewrite array_set_end.
  unfold material_ok, with_value. simpl.
  rewrite length_app. simpl.
  repeat split; lia.
Qed.

(** What a setter does to a material in good state: it succeeds, the
    parameters become [after_set], the state stays good. *)
Lemma set_material_ok (m : R3D_Material.t) (name : cstring)
    (type : R3D_ParamType) (assign : Value.t -> Value.t) :
  material_ok m ->
  exists m',
    set_material (Some m) (Some name) type assign = Ok (Some m')
    /\ R3D_Material.slots m' = after_set name type assign (R3D_Material.slots m)
    /\ R3D_Material.paramCount m' = Z.of_nat (length (R3D_Material.slots m'))
    /\ R3D_Material.shader m' = R3D_Material.shader m
    /\ material_ok m'.
Proof.
  intro OK. pose proof (@material_ok_count m OK) as C.
  pose proof (@material_ok_countZ m OK) as CZ.
  unfold set_material, FindOrCreateParam. rewrite C, find_param_all.
  unfold after_set. simpl.
  destruct (first_named name (R3D_Material.slots m) 0) as [[i p]|] eqn:F.
  - (* found *)
    simpl. apply first_named_sound in F. destruct F as [_ [N _]].
    rewrite Nat.sub_0_r in N. unfold store_value. rewrite N. simpl.
    eexists. split; [reflexivity|].
    assert (i < length (R3D_Material.slots m)) as L
      by (apply nth_error_Some; congruence).
    destruct (@material_ok_capacity m OK) as [Hcap Hle]; [lia|].
    unfold material_ok. cbn [R3D_Material.slots R3D_Material.params
      R3D_Material.paramCount R3D_Material.paramCapacity R3D_Material.shader].
    rewrite array_set_length.
    repeat split; auto.
  - (* appended *)
    simpl.
    destruct (R3D_Material.params m) as [l|] eqn:P.
    + assert (R3D_Material.slots m = l) as Sl
        by (unfold R3D_Material.slots; now rewrite P).
      rewrite Sl in *.
      assert (0 < R3D_Material.paramCapacity m
              /\ R3D_Material.paramCount m <= R3D_Material.paramCapacity m)%Z
        as [Hcap Hle]
        by (revert OK; unfold material_ok; rewrite P; tauto).
      destruct (R3D_Material.paramCapacity m <=? R3D_Material.paramCount m)%Z eqn:G.
      * apply Z.leb_le in G.
        assert (((0 <=? R3D_Material.paramCount m)
                 && (R3D_Material.paramCount m <? R3D_Material.paramCapacity m * 2))%Z
                = true) as ->
          by (apply andb_true_iff; split; [apply Z.leb_le|apply Z.ltb_lt]; lia).
        simpl. rewrite C, CZ.
        apply append_param_ok; lia.
      * apply Z.leb_gt in G.
        assert (((0 <=? R3D_Material.paramCount m)
                 && (R3D_Material.paramCount m <? R3D_Material.paramCapacity m))%Z
                = true) as ->
          by (apply andb_true_iff; split; [apply Z.leb_le|apply Z.ltb_lt]; lia).
        simpl. rewrite C, CZ.
        apply append_param_ok; lia.
    + assert (R3D_Material.slots m = []) as Sl
        by (unfold R3D_Material.slots; now rewrite P).
      rewrite Sl in *. simpl.
      eexists. split; [reflexivity|].
      unfold material_ok. simpl. repeat split; lia.
Qed.

End Setters.

Section Binding.

Import Params Lookup Bind.

Lemma bind_uniform_ok (m : R3D_Material.t) (info : R3D_UniformInfo.t) :
  material_ok m ->
  bind_uniform m info = Ok (calls_for (R3D_Material.slots m) info).
Proof.
  intro OK. unfold bind_uniform, calls_for.
  rewrite (@material_ok_count m OK), find_param_all. simpl.
  destruct (first_named (R3D_UniformInfo.name info) (R3D_Material.slots m) 0)
    as [[i p]|]; reflexivity.
Qed.

Lemma bind_loop_ok (m : R3D_Material.t) (infos : list R3D_UniformInfo.t) :
  material_ok m ->
  bind_loop m infos = Ok (flat_map (calls_for (R3D_Material.slots m)) infos).
Proof.
  intro OK. induction infos as [|info infos IH]; simpl; [reflexivity|].
  rewrite (@bind_uniform_ok m info OK), IH. reflexivity.
Qed.

Lemma first_named_array_set (name : cstring) (ps : list R3D_MaterialParam.t) :
  forall k j p p',
    first_named name ps k = Some (j, p) ->
    R3D_MaterialParam.name p' = R3D_MaterialParam.name p ->
    first_named name (array_set (j - k) p' ps) k = Some (j, p').
Proof.
  induction ps as [|a ps IH]; intros k j p p' H Hn; simpl in H; [discriminate|].
  destruct (strcmp_eq (R3D_MaterialParam.name a) name) eqn:E.
  - inversion H; subst. rewrite Nat.sub_diag. simpl. now rewrite Hn, E.
  - pose proof (first_named_sound _ _ _ H) as [L _].
    replace (j - k) with (S (j - S k)) by lia. simpl. rewrite E.
    now apply IH with (p := p).
Qed.

Lemma first_named_app_new (name : cstring) (q : R3D_MaterialParam.t)
    (ps : list R3D_MaterialParam.t) :
  forall k,
    first_named name ps k = None ->
    first_named name (ps ++ [q]) k
    = if strcmp_eq (R3D_MaterialParam.name q) name
      then Some (k + length ps, q) else None.
Proof.
  induction ps as [|a ps IH]; intros k H; simpl in *.
  - rewrite Nat.add_0_r. reflexivity.
  - destruct (strcmp_eq (R3D_MaterialParam.name a) name); [discriminate|].
    rewrite IH by assumption.
    replace (S k + length ps) with (k + S (length ps)) by lia. reflexivity.
Qed.

Lemma short_name_kept (name : cstring) :
  length name <= 63 -> firstn 63 name = name.
Proof. intro L. now apply firstn_all2. Qed.

(** After a setter called with a name of at most 63 characters, the lookup
    of that name finds a parameter that holds the assigned value. *)
Lemma after_set_finds (name : cstring) (type : R3D_ParamType)
    (assign : Value.t -> Value.t) (ps : list R3D_MaterialParam.t) :
  length name <= 63 ->
  exists i p old,
    first_named name (after_set name type assign ps) 0 = Some (i, p)
    /\ R3D_MaterialParam.value p = assign old
    /\ length (after_set name type assign ps)
       = match first_named name ps 0 with
         | Some _ => length ps
         | None => S (length ps)
         end.
Proof.
  intro L. unfold after_set.
  destruct (first_named name ps 0) as [[i p]|] eqn:F.
  - exists i, (with_value p (assign (R3D_MaterialParam.value p))),
      (R3D_MaterialParam.value p).
    repeat split.
    + rewrite <- (Nat.sub_0_r i) at 1.
      now apply first_named_array_set with (p := p).
    + apply array_set_length.
  - eexists _, _, Value.zero.
    rewrite first_named_app_new by assumption. simpl.
    rewrite short_name_kept, strcmp_eq_refl by assumption.
    repeat split. rewrite length_app. simpl. lia.
Qed.

(** C8, amended. For a material in good state and a name of at most 63
    characters: after [R3D_SetMaterialVec3], the bind path issues, for a
    registered [vec3] uniform of that name, the call [glUniform3fv] with
    count 1 and the three floats of the vector, x then y then z, as the
    bit patterns they were given; and so it does within the binding of
    every shader that has this uniform registered. *)
Theorem vec3_round_trip (m : R3D_Material.t) (name : cstring)
    (v : Vector3.t) (info : R3D_UniformInfo.t) :
  material_ok m ->
  length name <= 63 ->
  R3D_UniformInfo.name info = firstn 63 name ->
  R3D_UniformInfo.type info = R3D_PARAM_VEC3 ->
  exists m',
    R3D_SetMaterialVec3 (Some m) (Some name) v = Ok (Some m')
    /\ bind_uniform m' info
       = Ok [GL.glUniform3fv (R3D_UniformInfo.location info) 1
               [Vector3.x v; Vector3.y v; Vector3.z v]]
    /\ forall sh,
         In info (R3D_Shader.registered sh) ->
         exists calls,
           R3D_BindCustomUniforms (Some sh) (Some m') = Ok calls
           /\ In (GL.glUniform3fv (R3D_UniformInfo.location info) 1
                    [Vector3.x v; Vector3.y v; Vector3.z v]) calls.
Proof.
  intros OK L Hn Ht. unfold R3D_SetMaterialVec3.
  destruct (@set_material_ok m name R3D_PARAM_VEC3
              (Value.set_v3 (Vector3.x v) (Vector3.y v) (Vector3.z v)) OK)
    as (m' & E & Sl & _ & _ & OK').
  exists m'. split; [exact E|].
  assert (calls_for (R3D_Material.slots m') info
          = [GL.glUniform3fv (R3D_UniformInfo.location info) 1
               [Vector3.x v; Vector3.y v; Vector3.z v]]) as Cf.
  { unfold calls_for. rewrite Hn, short_name_kept, Sl by assumption.
    destruct (@after_set_finds name R3D_PARAM_VEC3
                (Value.set_v3 (Vector3.x v) (Vector3.y v) (Vector3.z v))
                (R3D_Material.slots m) L) as (i & p & old & F & V & _).
    rewrite F. unfold bind_calls. rewrite Ht, V. reflexivity. }
  split.
  - rewrite (@bind_uniform_ok m' info OK'). now rewrite Cf.
  - intros sh Hin. eexists. split.
    + unfold R3D_BindCustomUniforms. now apply bind_loop_ok.
    + apply in_flat_map. exists info. split; [exact Hin|].
      rewrite Cf. now left.
Qed.

Lemma stored_under_none (name : cstring) (ps : list R3D_MaterialParam.t) :
  forall k, first_named name ps k = None -> stored_under name ps = 0.
Proof.
  unfold stored_under.
  induction ps as [|p ps IH]; intros k H; simpl in *; [reflexivity|].
  destruct (strcmp_eq (R3D_MaterialParam.name p) name); [discriminate|].
  now apply IH with (k := S k).
Qed.

Lemma stored_under_some (name : cstring) (ps : list R3D_MaterialParam.t) :
  forall k j p, first_named name ps k = Some (j, p) -> 1 <= stored_under name ps.
Proof.
  unfold stored_under.
  induction ps as [|q ps IH]; intros k j p H; simpl in *; [discriminate|].
  destruct (strcmp_eq (R3D_MaterialParam.name q) name); simpl; [lia|].
  now apply IH with (k := S k) (j := j) (p := p).
Qed.

Lemma stored_under_array_set (name : cstring) (ps : list R3D_MaterialParam.t) :
  forall i p p',
    nth_error ps i = Some p ->
    R3D_MaterialParam.name p' = R3D_MaterialParam.name p ->
    stored_under name (array_set i p' ps) = stored_under name ps.
Proof.
  unfold stored_under.
  induction ps as [|q ps IH]; intros [|i] p p' H Hn; simpl in *;
    try discriminate.
  - inversion H; subst. rewrite Hn.
    destruct (strcmp_eq (R3D_MaterialParam.name p) name); reflexivity.
  - destruct (strcmp_eq (R3D_MaterialParam.name q) name); simpl;
      now rewrite (IH i p p' H Hn).
Qed.

(** A setter called with a name of at most 63 characters leaves exactly
    as many parameters under that name as there were, and one when there
    was none. *)
Lemma stored_under_after_set (name : cstring) (type : R3D_ParamType)
    (assign : Value.t -> Value.t) (ps : list R3D_MaterialParam.t) :
  length name <= 63 ->
  stored_under name (after_set name type assign ps)
  = Nat.max 1 (stored_under name ps).
Proof.
  intro L. unfold after_set.
  destruct (first_named name ps 0) as [[i p]|] eqn:F.
  - pose proof (@stored_under_some name ps 0 i p F) as One.
    pose proof (@first_named_sound name ps 0 i p F) as [_ [N _]].
    rewrite Nat.sub_0_r in N.
    rewrite (@stored_under_array_set name ps i p
               (with_value p (assign (R3D_MaterialParam.value p))) N eq_refl).
    lia.
  - rewrite (@stored_under_none name ps 0 F). unfold stored_under.
    rewrite filter_app, length_app. simpl.
    rewrite short_name_kept, strcmp_eq_refl by assumption.
    fold (stored_under name ps). rewrite (@stored_under_none name ps 0 F).
    reflexivity.
Qed.

(** For names of at most 63 characters two calls of [R3D_SetMaterialFloat]
    add at most one parameter, and the lookup of the name then finds the
    second value. *)
Lemma float_twice_short_name (m : R3D_Material.t) (name : cstring)
    (v1 v2 : float32) :
  material_ok m ->
  length name <= 63 ->
  exists m1 m2 i p,
    R3D_SetMaterialFloat (Some m) (Some name) v1 = Ok (Some m1)
    /\ R3D_SetMaterialFloat (Some m1) (Some name) v2 = Ok (Some m2)
    /\ (R3D_Material.paramCount m2 <= R3D_Material.paramCount m + 1)%Z
    /\ first_named name (R3D_Material.slots m2) 0 = Some (i, p)
    /\ Value.f (R3D_MaterialParam.value p) = v2
    /\ stored_under name (R3D_Material.slots m2)
       = Nat.max 1 (stored_under name (R3D_Material.slots m)).
Proof.
  intros OK L. unfold R3D_SetMaterialFloat.
  destruct (@set_material_ok m name R3D_PARAM_FLOAT (Value.set_f v1) OK)
    as (m1 & E1 & S1 & C1 & _ & OK1).
  destruct (@set_material_ok m1 name R3D_PARAM_FLOAT (Value.set_f v2) OK1)
    as (m2 & E2 & S2 & C2 & _ & OK2).
  destruct (@after_set_finds name R3D_PARAM_FLOAT (Value.set_f v1)
              (R3D_Material.slots m) L) as (i1 & p1 & old1 & F1 & _ & Len1).
  destruct (@after_set_finds name R3D_PARAM_FLOAT (Value.set_f v2)
              (R3D_Material.slots m1) L) as (i2 & p2 & old2 & F2 & V2 & Len2).
  exists m1, m2, i2, p2. repeat split; try assumption.
  - rewrite C2, S2, Len2, S1, F1, <- S1.
    rewrite (@material_ok_countZ m OK).
    rewrite S1, Len1.
    destruct (first_named name (R3D_Material.slots m) 0); lia.
  - now rewrite S2.
  - rewrite V2. reflexivity.
  - rewrite S2, S1, !stored_under_after_set by assumption. lia.
Qed.

(** The lookup of the setters never finds a name of 64 characters or
    more, whatever was stored before: stored names have at most 63. *)
Lemma long_name_is_never_found (name : cstring)
    (ps : list R3D_MaterialParam.t) :
  Forall (fun p => length (R3D_MaterialParam.name p) <= 63) ps ->
  64 <= length name ->
  forall k, first_named name ps k = None.
Proof.
  intros F L. induction F as [|p ps Hp _ IH]; intro k; simpl; [reflexivity|].
  rewrite (@long_name_never_matches _ name Hp L). apply IH.
Qed.

(** The lookup goes by the stored names, and what it finds is used for
    its value only. *)
Lemma calls_for_untagged (info : R3D_UniformInfo.t)
    (ps : list R3D_MaterialParam.t) :
  forall ps',
    map untagged ps' = map untagged ps ->
    calls_for ps' info = calls_for ps info.
Proof.
  unfold calls_for. generalize 0.
  induction ps as [|p ps IH]; intros k [|p' ps'] E; try discriminate;
    [reflexivity|].
  simpl in E. inversion E as [[En Ev Et]]. simpl. rewrite En.
  destruct (strcmp_eq (R3D_MaterialParam.name p) (R3D_UniformInfo.name info)).
  - now rewrite Ev.
  - now apply IH.
Qed.

(** C2, amended. The bind path does not look at the type tag a parameter
    was stored with. For a material in good state it never fails. For a
    discovered uniform under whose name a parameter is stored it issues
    the call of the uniform's own type on the words of the value of the
    first such parameter: [glUniform1f] with the first word for a float,
    [glUniform2fv], [glUniform3fv] or [glUniform4fv] with count 1 and the
    first two, three or four words for a vector, [glActiveTexture] of unit
    [GL_TEXTURE0] plus the slot and [glBindTexture] of the first word to
    [GL_TEXTURE_2D] for a sampler. It issues nothing for a uniform under
    whose name no parameter is stored. The whole of the calls is the
    sequence of these over the discovered uniforms in their order, and a
    material that stores the same names and values under other tags gets
    the same calls. *)
Theorem bind_goes_by_the_uniform_type (sh : R3D_Shader.t) (m : R3D_Material.t) :
  material_ok m ->
  R3D_BindCustomUniforms (Some sh) (Some m)
  = Ok (flat_map (calls_for (R3D_Material.slots m)) (R3D_Shader.registered sh))
  /\ (forall info i p,
        first_named (R3D_UniformInfo.name info) (R3D_Material.slots m) 0
        = Some (i, p) ->
        let v := R3D_MaterialParam.value p in
        let location := R3D_UniformInfo.location info in
        bind_uniform m info
        = Ok match R3D_UniformInfo.type info with
             | R3D_PARAM_FLOAT => [GL.glUniform1f location (Value.w0 v)]
             | R3D_PARAM_VEC2 =>
                 [GL.glUniform2fv location 1 [Value.w0 v; Value.w1 v]]
             | R3D_PARAM_VEC3 =>
                 [GL.glUniform3fv location 1
                    [Value.w0 v; Value.w1 v; Value.w2 v]]
             | R3D_PARAM_VEC4 =>
                 [GL.glUniform4fv location 1
                    [Value.w0 v; Value.w1 v; Value.w2 v; Value.w3 v]]
             | R3D_PARAM_TEX2D =>
                 [GL.glActiveTexture (33984 + R3D_UniformInfo.texSlot info)%Z;
                  GL.glBindTexture 3553 (Value.w0 v)]
             end)
  /\ (forall info,
        first_named (R3D_UniformInfo.name info) (R3D_Material.slots m) 0 = None ->
        bind_uniform m info = Ok [])
  /\ (forall m',
        material_ok m' ->
        map untagged (R3D_Material.slots m') = map untagged (R3D_Material.slots m) ->
        R3D_BindCustomUniforms (Some sh) (Some m')
        = R3D_BindCustomUniforms (Some sh) (Some m)).
Proof.
  intro OK. split; [|split; [|split]].
  - unfold R3D_BindCustomUniforms. now apply bind_loop_ok.
  - intros info i p F v location.
    rewrite (@bind_uniform_ok m info OK). unfold calls_for. rewrite F.
    subst v location. destruct (R3D_UniformInfo.type info); reflexivity.
  - intros info F. rewrite (@bind_uniform_ok m info OK).
    unfold calls_for. now rewrite F.
  - intros m' OK' E. unfold R3D_BindCustomUniforms.
    rewrite (@bind_loop_ok m' _ OK'), (@bind_loop_ok m _ OK).
    f_equal. apply flat_map_ext. intro info.
    now apply calls_for_untagged.
Qed.

End Binding.

(* ===================================================================== *)
(** * Uniform discovery *)
(* ===================================================================== *)

Section Discovery.

Import Discover Protocol.

Variable glGetUniformLocation : cstring -> Z.

Lemma isBuiltin_existsb (name : cstring) (table : list cstring) :
  isBuiltin name table = existsb (strcmp_eq name) table.
Proof.
  induction table as [|b table IH]; simpl; [reflexivity|].
  destruct (strcmp_eq name b); simpl; auto.
Qed.

Lemma ascii_eqb_sym (x y : ascii) : Ascii.eqb x y = Ascii.eqb y x.
Proof.
  destruct (Ascii.eqb x y) eqn:E.
  - apply Ascii.eqb_eq in E. subst. symmetry. apply Ascii.eqb_refl.
  - symmetry. apply Ascii.eqb_neq. apply Ascii.eqb_neq in E. congruence.
Qed.

Lemma strncmp_eq_prefix (b : cstring) :
  forall a, strncmp_eq a b (length b) = starts_with b a.
Proof.
  induction b as [|y b IH]; intros [|x a]; simpl; try reflexivity.
  now rewrite IH, ascii_eqb_sym.
Qed.

Lemma strchr_existsb (c : ascii) (name : cstring) :
  match strchr name c with Some _ => true | None => false end
  = existsb (Ascii.eqb c) name.
Proof.
  induction name as [|x name IH]; simpl; [reflexivity|].
  rewrite (ascii_eqb_sym c x).
  destruct (Ascii.eqb x c); simpl; [reflexivity|].
  rewrite <- IH. destruct (strchr name c); reflexivity.
Qed.

Lemma supported_map_gl_type (u : GL.active_uniform) :
  supported u
  = match map_gl_type (GL.au_type u) with Some _ => true | None => false end.
Proof.
  unfold supported, map_gl_type. simpl.
  destruct (GL.au_type u =? GL.GL_FLOAT)%Z; [reflexivity|].
  destruct (GL.au_type u =? GL.GL_FLOAT_VEC2)%Z; [reflexivity|].
  destruct (GL.au_type u =? GL.GL_FLOAT_VEC3)%Z; [reflexivity|].
  destruct (GL.au_type u =? GL.GL_FLOAT_VEC4)%Z; [reflexivity|].
  destruct (GL.au_type u =? GL.GL_SAMPLER_2D)%Z; reflexivity.
Qed.

(** The three [continue] tests are the negation of [custom]. *)
Lemma continue_tests (u : GL.active_uniform) :
  custom u
  = negb (isBuiltin (GL.au_name u) builtinUniforms)
    && negb (strncmp_eq (GL.au_name u) (lit "gl_") 3)
    && negb (match strchr (GL.au_name u) "["%char with
             | Some _ => true | None => false end).
Proof.
  unfold custom.
  rewrite isBuiltin_existsb, strchr_existsb.
  now rewrite <- (strncmp_eq_prefix (lit "gl_")).
Qed.

Lemma firstn_array_set_same {A : Type} (x : A) (arr : list A) :
  forall i, firstn i (array_set i x arr) = firstn i arr.
Proof.
  induction arr as [|a arr IH]; intros [|i]; simpl; try reflexivity.
  now rewrite IH.
Qed.

Lemma firstn_array_set_next {A : Type} (x : A) (arr : list A) :
  forall i, i < length arr ->
    firstn (S i) (array_set i x arr) = firstn i arr ++ [x].
Proof.
  induction arr as [|a arr IH]; intros [|i] L; simpl in *; try lia.
  - reflexivity.
  - f_equal. apply IH. lia.
Qed.

(** One registration, by the type GL reports. *)
Lemma register_spec (u : GL.active_uniform) (sh : R3D_Shader.t) :
  discovering sh ->
  (R3D_Shader.customUniformCount sh < 16)%Z ->
  let r := register glGetUniformLocation u sh in
  let d := describe glGetUniformLocation (R3D_Shader.nextTexSlot sh) [u] in
  discovering (fst r)
  /\ R3D_Shader.program (fst r) = R3D_Shader.program sh
  /\ R3D_Shader.registered (fst r) = R3D_Shader.registered sh ++ d
  /\ R3D_Shader.customUniformCount (fst r)
     = (R3D_Shader.customUniformCount sh + Z.of_nat (length d))%Z
  /\ R3D_Shader.nextTexSlot (fst r)
     = (R3D_Shader.nextTexSlot sh + Z.of_nat (length (filter is_sampler d)))%Z
  /\ snd r = sampler_bindings (R3D_Shader.program sh) d.
Proof.
  intros [Hlen [Hc0 _]] Hc. unfold register, describe, R3D_Shader.registered.
  assert (Z.to_nat (R3D_Shader.customUniformCount sh)
          < length (R3D_Shader.customUniforms sh)) as Hi
    by (rewrite Hlen; unfold R3D_MAX_CUSTOM_UNIFORMS; lia).
  unfold discovering.
  destruct (map_gl_type (GL.au_type u)) as [[]|]; simpl;
    rewrite ?array_set_length, ?Hlen;
    try (replace (Z.to_nat (R3D_Shader.customUniformCount sh + 1))
           with (S (Z.to_nat (R3D_Shader.customUniformCount sh))) by lia;
         rewrite firstn_array_set_next by exact Hi);
    try (replace (R3D_Shader.customUniformCount sh + 1 - 1)%Z
           with (R3D_Shader.customUniformCount sh) by lia;
         rewrite firstn_array_set_same, app_nil_r);
    repeat split; try reflexivity; try lia.
Qed.

#[local] Arguments isBuiltin : simpl never.
#[local] Arguments strncmp_eq : simpl never.
#[local] Arguments strchr : simpl never.

Lemma describe_app (slot : Z) (l1 l2 : list GL.active_uniform) :
  describe glGetUniformLocation slot (l1 ++ l2)
  = describe glGetUniformLocation slot l1
    ++ describe glGetUniformLocation
         (slot + Z.of_nat (length (filter is_sampler
                                     (describe glGetUniformLocation slot l1))))%Z
         l2.
Proof.
  revert slot. induction l1 as [|u l1 IH]; intro slot; simpl.
  - now rewrite Z.add_0_r.
  - destruct (map_gl_type (GL.au_type u)) as [[]|]; simpl; rewrite IH;
      try reflexivity.
    do 3 f_equal. lia.
Qed.

Lemma sampler_bindings_app (program : Z) (l1 l2 : list R3D_UniformInfo.t) :
  sampler_bindings program (l1 ++ l2)
  = sampler_bindings program l1 ++ sampler_bindings program l2.
Proof.
  unfold sampler_bindings. now rewrite filter_app, flat_map_app.
Qed.

Lemma eligible_cons (u : GL.active_uniform) (rest : list GL.active_uniform) :
  eligible (u :: rest)
  = if custom u && supported u then u :: eligible rest else eligible rest.
Proof. reflexivity. Qed.

Lemma describe_unsupported (slot : Z) (u : GL.active_uniform) :
  supported u = false -> describe glGetUniformLocation slot [u] = [].
Proof.
  rewrite supported_map_gl_type. simpl.
  destruct (map_gl_type (GL.au_type u)) as [[]|]; now intros.
Qed.

(** The loop, from any state it can be in: it registers the descriptors
    of the eligible uniforms that still fit. *)
Lemma discover_loop_spec (active : list GL.active_uniform) :
  forall (sh : R3D_Shader.t) (gl : list GL.call),
    discovering sh ->
    let room := Z.to_nat (16 - R3D_Shader.customUniformCount sh) in
    let d := describe glGetUniformLocation (R3D_Shader.nextTexSlot sh)
               (firstn room (eligible active)) in
    let r := discover_loop glGetUniformLocation active sh gl in
    R3D_Shader.registered (fst r) = R3D_Shader.registered sh ++ d
    /\ R3D_Shader.customUniformCount (fst r)
       = (R3D_Shader.customUniformCount sh + Z.of_nat (length d))%Z
    /\ snd r = gl ++ sampler_bindings (R3D_Shader.program sh) d.
Proof.
  induction active as [|u rest IH]; intros sh gl D; cbv zeta;
    cbn [discover_loop].
  - rewrite firstn_nil. simpl. rewrite !app_nil_r, Z.add_0_r. auto.
  - change (Z.of_nat R3D_MAX_CUSTOM_UNIFORMS) with 16%Z.
    destruct (R3D_Shader.customUniformCount sh <? 16)%Z eqn:Hc.
    + apply Z.ltb_lt in Hc. rewrite eligible_cons, continue_tests.
      pose proof D as [_ [Hc0 _]].
      destruct (isBuiltin (GL.au_name u) builtinUniforms); cbn [negb andb];
        [now apply IH|].
      destruct (strncmp_eq (GL.au_name u) (lit "gl_") 3); cbn [negb andb];
        [now apply IH|].
      destruct (strchr (GL.au_name u) "["%char); cbn [negb andb];
        [now apply IH|].
      pose proof (@register_spec u sh D Hc) as R. cbv zeta in R.
      destruct (register glGetUniformLocation u sh) as [sh' calls].
      cbn [fst snd] in R. destruct R as (D' & P' & R' & C' & N' & G').
      specialize (IH sh' (gl ++ calls) D'). cbv zeta in IH.
      cbv beta iota zeta.
      destruct IH as (IR & IC & IG).
      rewrite IR, IC, IG, R', C', N', G', P'. clear IR IC IG.
      destruct (supported u) eqn:Su.
      * (* a descriptor is registered *)
        assert (length (describe glGetUniformLocation
                          (R3D_Shader.nextTexSlot sh) [u]) = 1) as L1.
        { revert Su. rewrite supported_map_gl_type. simpl.
          destruct (map_gl_type (GL.au_type u)) as [[]|]; now intros. }
        replace (Z.to_nat (16 - R3D_Shader.customUniformCount sh))
          with (S (Z.to_nat (16 - (R3D_Shader.customUniformCount sh
                                   + Z.of_nat
                                       (length (describe glGetUniformLocation
                                                  (R3D_Shader.nextTexSlot sh) [u]))))))
          by (rewrite L1; lia).
        rewrite firstn_cons.
        set (tail := firstn _ (eligible rest)).
        rewrite (describe_app (R3D_Shader.nextTexSlot sh) [u] tail : describe
                   glGetUniformLocation (R3D_Shader.nextTexSlot sh) (u :: tail) = _).
        rewrite sampler_bindings_app, ?length_app, <- ?app_assoc.
        repeat split; try reflexivity; try lia.
      * (* an unsupported type: nothing stays *)
        rewrite (describe_unsupported _ u Su). simpl.
        rewrite !app_nil_r, !Z.add_0_r. auto.
    + apply Z.ltb_ge in Hc. destruct D as [_ [_ Hle]].
      replace (Z.to_nat (16 - R3D_Shader.customUniformCount sh)) with 0 by lia.
      simpl. rewrite !app_nil_r, Z.add_0_r. auto.
Qed.

Lemma describe_length (slot : Z) (l : list GL.active_uniform) :
  Forall (fun u => supported u = true) l ->
  length (describe glGetUniformLocation slot l) = length l.
Proof.
  revert slot. induction l as [|u l IH]; intros slot F; simpl; [reflexivity|].
  inversion F as [|? ? Su Fl]; subst.
  rewrite supported_map_gl_type in Su.
  destruct (map_gl_type (GL.au_type u)) as [[]|]; simpl;
    try discriminate; now rewrite IH.
Qed.

Lemma eligible_supported (active : list GL.active_uniform) :
  Forall (fun u => supported u = true) (eligible active).
Proof.
  apply Forall_forall. intros u H. unfold eligible in H.
  apply filter_In in H. destruct H as [_ H].
  now apply andb_true_iff in H.
Qed.

(** Samplers among described uniforms take consecutive slots. *)
Lemma describe_slots (slot : Z) (l : list GL.active_uniform) :
  map R3D_UniformInfo.texSlot
    (filter is_sampler (describe glGetUniformLocation slot l))
  = slots_from slot
      (length (filter is_sampler (describe glGetUniformLocation slot l))).
Proof.
  revert slot. induction l as [|u l IH]; intro slot; simpl; [reflexivity|].
  destruct (map_gl_type (GL.au_type u)) as [[]|]; simpl; rewrite ?IH;
    reflexivity.
Qed.

(** Whoever is no sampler has the slot -1. *)
Lemma describe_no_slot (slot : Z) (l : list GL.active_uniform) :
  Forall (fun i => R3D_UniformInfo.texSlot i = (-1)%Z)
    (filter (fun i => negb (is_sampler i))
       (describe glGetUniformLocation slot l)).
Proof.
  revert slot. induction l as [|u l IH]; intro slot; simpl; [constructor|].
  destruct (map_gl_type (GL.au_type u)) as [[]|]; simpl;
    try (constructor; [reflexivity|]); apply IH.
Qed.

Lemma first_ones_all {A : Type} (P : A -> Prop) (l : list A) :
  Forall P l -> forall n, Forall P (firstn n l).
Proof.
  induction 1 as [|x l Hx Hl IH]; intros [|n]; simpl; constructor; auto.
Qed.

Lemma describe_names (slot : Z) (l : list GL.active_uniform) :
  Forall (fun u => supported u = true) l ->
  map R3D_UniformInfo.name (describe glGetUniformLocation slot l)
  = map (fun u => firstn 63 (GL.au_name u)) l.
Proof.
  revert slot. induction l as [|u l IH]; intros slot F; simpl; [reflexivity|].
  inversion F as [|? ? Su Fl]; subst.
  rewrite supported_map_gl_type in Su.
  destruct (map_gl_type (GL.au_type u)) as [[]|]; simpl;
    try discriminate; now rewrite IH.
Qed.

(** The type switch of the loop gives each supported type its tag, and a
    slot to the [sampler2D] only. *)
Lemma type_switch (u : GL.active_uniform) :
  (tag_of (GL.au_type u), sampler2D u)
  = match map_gl_type (GL.au_type u) with
    | Some R3D_PARAM_TEX2D => (Some R3D_PARAM_TEX2D, true)
    | Some tag => (Some tag, false)
    | None => (None, false)
    end.
Proof.
  unfold tag_of, sampler2D, map_gl_type, supported_types.
  cbn [find fst snd option_map].
  generalize (GL.au_type u). intro t.
  destruct (Z.eqb_spec t GL.GL_FLOAT) as [->|]; [reflexivity|].
  destruct (Z.eqb_spec t GL.GL_FLOAT_VEC2) as [->|]; [reflexivity|].
  destruct (Z.eqb_spec t GL.GL_FLOAT_VEC3) as [->|]; [reflexivity|].
  destruct (Z.eqb_spec t GL.GL_FLOAT_VEC4) as [->|]; [reflexivity|].
  destruct (Z.eqb_spec t GL.GL_SAMPLER_2D) as [->|]; reflexivity.
Qed.

(** What the loop leaves is what is expected. *)
Lemma describe_expected (l : list GL.active_uniform) :
  forall slot,
    describe glGetUniformLocation slot l = expected glGetUniformLocation slot l.
Proof.
  induction l as [|u l IH]; intro slot; cbn [describe expected];
    [reflexivity|].
  pose proof (type_switch u) as T.
  destruct (map_gl_type (GL.au_type u)) as [[]|]; inversion T as [[Tt Ts]];
    rewrite Tt, ?Ts, ?IH; reflexivity.
Qed.

Lemma sampler_bindings_expected (program : Z) (l : list GL.active_uniform) :
  forall slot,
    sampler_bindings program (expected glGetUniformLocation slot l)
    = expected_bindings glGetUniformLocation program slot l.
Proof.
  unfold sampler_bindings.
  induction l as [|u l IH]; intro slot; cbn [expected expected_bindings];
    [reflexivity|].
  pose proof (type_switch u) as T.
  destruct (map_gl_type (GL.au_type u)) as [[]|]; inversion T as [[Tt Ts]];
    rewrite Tt, ?Ts;
    cbn [filter is_sampler R3D_UniformInfo.type flat_map app
         R3D_UniformInfo.location R3D_UniformInfo.texSlot];
    now rewrite ?IH.
Qed.

Lemma expected_sampler_slots (l : list GL.active_uniform) :
  forall slot,
    map R3D_UniformInfo.texSlot
      (filter is_sampler (expected glGetUniformLocation slot l))
    = slots_from slot (length (filter sampler2D l)).
Proof.
  induction l as [|u l IH]; intro slot; cbn [expected filter];
    [reflexivity|].
  pose proof (type_switch u) as T.
  destruct (map_gl_type (GL.au_type u)) as [[]|]; inversion T as [[Tt Ts]];
    rewrite Tt, ?Ts;
    cbn [filter is_sampler R3D_UniformInfo.type map length slots_from
         R3D_UniformInfo.texSlot];
    now rewrite ?IH.
Qed.

Lemma expected_fields (l : list GL.active_uniform) :
  Forall (fun u => supported u = true) l ->
  forall slot,
    map (fun i => (R3D_UniformInfo.name i, R3D_UniformInfo.location i,
                   Some (R3D_UniformInfo.type i)))
      (expected glGetUniformLocation slot l)
    = map (fun u => (firstn 63 (GL.au_name u),
                     glGetUniformLocation (GL.au_name u),
                     tag_of (GL.au_type u))) l.
Proof.
  induction 1 as [|u l Su _ IH]; intro slot; cbn [expected map];
    [reflexivity|].
  rewrite supported_map_gl_type in Su.
  pose proof (type_switch u) as T.
  destruct (map_gl_type (GL.au_type u)) as [[]|]; try discriminate;
    inversion T as [[Tt Ts]]; rewrite Tt; cbn [map R3D_UniformInfo.name
      R3D_UniformInfo.location R3D_UniformInfo.type];
    now rewrite IH.
Qed.

(** C3. Discovery on a freshly created shader registers the descriptors
    of the first sixteen eligible uniforms, in the order GL reports them:
    with N eligible uniforms the count is N as long as N is at most 16,
    and 16 beyond. Every descriptor has the first 63 characters of the
    name, the location GL gives, and the tag of the type GL reports
    (float, vec2, vec3, vec4 or sampler2D); the [sampler2D] uniforms among
    them have the slots 5, 6, 7, ... in that order, and the others the
    slot -1. All that discovery sends to GL is, for each of these
    [sampler2D] uniforms in turn, the program made current and the uniform
    set to its slot. Uniforms of other types, built-in or reserved names
    and array elements leave no descriptor. *)
Theorem discovery_registers_the_eligible_uniforms
    (program : Z) (active : list GL.active_uniform) :
  let found := firstn 16 (eligible active) in
  let r := discover_custom_uniforms glGetUniformLocation active
             (R3D_Shader.fresh program) in
  let registered := R3D_Shader.registered (fst r) in
  R3D_Shader.customUniformCount (fst r)
  = Z.of_nat (Nat.min 16 (length (eligible active)))
  /\ length registered = Nat.min 16 (length (eligible active))
  /\ registered = expected glGetUniformLocation 5 found
  /\ map (fun i => (R3D_UniformInfo.name i, R3D_UniformInfo.location i,
                    Some (R3D_UniformInfo.type i))) registered
     = map (fun u => (firstn 63 (GL.au_name u),
                      glGetUniformLocation (GL.au_name u),
                      tag_of (GL.au_type u))) found
  /\ map R3D_UniformInfo.texSlot (filter is_sampler registered)
     = slots_from 5 (length (filter sampler2D found))
  /\ Forall (fun i => R3D_UniformInfo.texSlot i = (-1)%Z)
       (filter (fun i => negb (is_sampler i)) registered)
  /\ snd r = expected_bindings glGetUniformLocation program 5 found.
Proof.
  intros found r registered.
  assert (discovering
            {| R3D_Shader.program := program;
               R3D_Shader.customUniforms :=
                 repeat R3D_UniformInfo.zero R3D_MAX_CUSTOM_UNIFORMS;
               R3D_Shader.customUniformCount := 0;
               R3D_Shader.nextTexSlot := FIRST_CUSTOM_TEX_SLOT |}) as D.
  { split; [reflexivity|simpl; lia]. }
  pose proof (@discover_loop_spec active _ [] D) as H. cbv zeta in H.
  cbn [R3D_Shader.customUniformCount R3D_Shader.nextTexSlot
       R3D_Shader.program] in H.
  change (Z.to_nat (16 - 0)) with 16 in H.
  change FIRST_CUSTOM_TEX_SLOT with 5%Z in H.
  fold found in H. destruct H as (R & C & G).
  change (R3D_Shader.registered (fst r)
          = [] ++ describe glGetUniformLocation 5 found) in R.
  change (R3D_Shader.customUniformCount (fst r)
          = (0 + Z.of_nat (length (describe glGetUniformLocation 5 found)))%Z)
    in C.
  change (snd r = [] ++ sampler_bindings program
                          (describe glGetUniformLocation 5 found)) in G.
  rewrite app_nil_l in R, G. rewrite Z.add_0_l in C.
  assert (Forall (fun u => supported u = true) found) as F.
  { apply first_ones_all, eligible_supported. }
  assert (length (describe glGetUniformLocation 5 found)
          = Nat.min 16 (length (eligible active))) as L.
  { rewrite (describe_length 5 F). apply length_firstn. }
  subst registered. rewrite R.
  split; [now rewrite C, L|].
  split; [exact L|].
  split; [apply describe_expected|].
  rewrite describe_expected in G |- *.
  split; [exact (expected_fields F 5)|].
  split; [apply expected_sampler_slots|].
  split; [rewrite <- describe_expected; apply describe_no_slot|].
  rewrite G. apply sampler_bindings_expected.
Qed.

End Discovery.

(* ===================================================================== *)
(** * Composition of the fragment source *)
(* ===================================================================== *)

Section Composition.

Import Compose Protocol.

Lemma strchr_found (c : ascii) (s : cstring) :
  forall e, strchr s c = Some e ->
    s = firstn e s ++ c :: skipn (S e) s /\ ~ In c (firstn e s).
Proof.
  induction s as [|x s IH]; intros e H; simpl in H; [discriminate|].
  destruct (Ascii.eqb x c) eqn:E.
  - inversion H; subst. apply Ascii.eqb_eq in E. subst. simpl. auto.
  - destruct (strchr s c) as [e'|]; [|discriminate].
    inversion H; subst. destruct (IH e' eq_refl) as [Hs Hn].
    simpl. split; [now rewrite <- Hs|].
    intros [->|Hin]; [now rewrite Ascii.eqb_refl in E|auto].
Qed.

Lemma strchr_line (c : ascii) (l rest : cstring) :
  ~ In c l -> strchr (l ++ c :: rest) c = Some (length l).
Proof.
  induction l as [|x l IH]; intro N; simpl.
  - now rewrite Ascii.eqb_refl.
  - destruct (Ascii.eqb x c) eqn:E.
    + apply Ascii.eqb_eq in E. subst. exfalso. apply N. now left.
    + rewrite IH; [reflexivity|]. intro. apply N. now right.
Qed.

Lemma strchr_absent (c : ascii) (s : cstring) :
  strchr s c = None -> ~ In c s.
Proof.
  induction s as [|x s IH]; intro H; simpl in *; [tauto|].
  destruct (Ascii.eqb x c) eqn:E; [discriminate|].
  destruct (strchr s c); [discriminate|].
  intros [->|Hin]; [now rewrite Ascii.eqb_refl in E|now apply IH].
Qed.

Lemma lines_line (l rest : cstring) :
  ~ In nl l -> lines (l ++ nl :: rest) = l :: lines rest.
Proof.
  induction l as [|x l IH]; intro N; simpl.
  - reflexivity.
  - destruct (Ascii.eqb x nl) eqn:E.
    + apply Ascii.eqb_eq in E. subst. exfalso. apply N. now left.
    + rewrite IH; [reflexivity|]. intro. apply N. now right.
Qed.

Lemma lines_last (l : cstring) :
  ~ In nl l -> l <> [] -> lines l = [l].
Proof.
  induction l as [|x l IH]; intros N Ne; [congruence|]. simpl.
  destruct (Ascii.eqb x nl) eqn:E.
  - apply Ascii.eqb_eq in E. subst. exfalso. apply N. now left.
  - destruct l as [|y l]; [reflexivity|].
    rewrite IH; [reflexivity| |discriminate]. intro. apply N. now right.
Qed.

Lemma skip_blanks_line (l rest : cstring) :
  ~ In nl l -> skip_blanks (l ++ nl :: rest) = skip_blanks l ++ nl :: rest.
Proof.
  induction l as [|x l IH]; intro N; simpl; [reflexivity|].
  destruct (Ascii.eqb x space || Ascii.eqb x tab); [|reflexivity].
  apply IH. intro. apply N. now right.
Qed.

Lemma starts_with_line (pat l rest : cstring) :
  ~ In nl pat -> starts_with pat (l ++ nl :: rest) = starts_with pat l.
Proof.
  revert l. induction pat as [|y pat IH]; intros l N; [reflexivity|].
  destruct l as [|x l]; simpl.
  - destruct (Ascii.eqb y nl) eqn:E; [|reflexivity].
    apply Ascii.eqb_eq in E. subst. exfalso. apply N. now left.
  - rewrite IH; [reflexivity|]. intro. apply N. now right.
Qed.

(** The scan of [trimmed] leaves the line without its indentation. *)
Lemma skip_blanks_unindented (s : cstring) : skip_blanks s = unindented s.
Proof.
  unfold unindented. induction s as [|c s IH]; simpl; [reflexivity|].
  unfold blank_char. destruct (Ascii.eqb c space || Ascii.eqb c tab);
    [exact IH|reflexivity].
Qed.



Lemma keyword_not_newline : ~ In nl (lit "uniform ").
Proof.
  intro H. repeat (destruct H as [H|H]; [discriminate|]). exact H.
Qed.

(** The test of the loop, made on the rest of the source, is a test on
    the line. *)
Lemma uniform_test_line (l rest : cstring) :
  ~ In nl l ->
  strncmp_eq (skip_blanks (l ++ nl :: rest)) (lit "uniform ") 8
  = keyword_and_space l.
Proof.
  intro N. unfold keyword_and_space. rewrite <- skip_blanks_unindented.
  change 8 with (length (lit "uniform ")).
  rewrite strncmp_eq_prefix, skip_blanks_line by assumption.
  apply starts_with_line, keyword_not_newline.
Qed.

Lemma uniform_test_last (l : cstring) :
  strncmp_eq (skip_blanks l) (lit "uniform ") 8 = keyword_and_space l.
Proof.
  unfold keyword_and_space. rewrite <- skip_blanks_unindented.
  change 8 with (length (lit "uniform ")).
  apply strncmp_eq_prefix.
Qed.

Lemma declarations_line (l rest : cstring) :
  ~ In nl l ->
  declarations (l ++ nl :: rest) = to_declarations l ++ declarations rest.
Proof.
  intro N. unfold declarations, to_declarations.
  rewrite lines_line by assumption. simpl.
  destruct (keyword_and_space l); simpl; [|reflexivity].
  now rewrite <- app_assoc.
Qed.

Lemma body_line (l rest : cstring) :
  ~ In nl l -> body (l ++ nl :: rest) = to_body l ++ body rest.
Proof.
  intro N. unfold body, to_body.
  rewrite lines_line by assumption. simpl.
  destruct (negb (keyword_and_space l) && negb (length l =? 0)); simpl;
    [|reflexivity].
  now rewrite <- app_assoc.
Qed.

Lemma declarations_last (l : cstring) :
  ~ In nl l -> l <> [] -> declarations l = to_declarations l.
Proof.
  intros N Ne. unfold declarations, to_declarations.
  rewrite lines_last by assumption. simpl.
  destruct (keyword_and_space l); reflexivity.
Qed.

Lemma body_last (l : cstring) :
  ~ In nl l -> l <> [] -> body l = to_body l.
Proof.
  intros N Ne. unfold body, to_body.
  rewrite lines_last by assumption. simpl.
  destruct (negb (keyword_and_space l) && negb (length l =? 0)); reflexivity.
Qed.

(** The two writes of one turn, when there is room for them. *)
Lemma turn_writes (cap : nat) (l u b : cstring) (eol : option nat) :
  length (u ++ to_declarations l) <= cap ->
  length (b ++ to_body l) <= cap ->
  (if keyword_and_space l then
     u' <- put_line cap u l ;; Ok (u', b, eol)
   else if 0 <? length l then
     b' <- put_line cap b l ;; Ok (u, b', eol)
   else Ok (u, b, eol))
  = Ok (u ++ to_declarations l, b ++ to_body l, eol).
Proof.
  unfold to_declarations, to_body, put_line. intros Hu Hb.
  destruct (keyword_and_space l); simpl in *.
  - rewrite app_nil_r.
    rewrite length_app, length_app in Hu. simpl in Hu.
    replace (length u + length l + 1 <=? cap) with true
      by (symmetry; apply Nat.leb_le; lia).
    reflexivity.
  - rewrite app_nil_r.
    destruct (length l) as [|n] eqn:Ln; simpl in *.
    + now rewrite app_nil_r.
    + rewrite length_app, length_app in Hb. simpl in Hb.
      replace (length b + S n + 1 <=? cap) with true
        by (symmetry; apply Nat.leb_le; lia).
      reflexivity.
Qed.

(** One turn of the loop on a line closed by a newline. *)
Lemma split_turn_line (cap : nat) (l rest u b : cstring) :
  ~ In nl l ->
  length (u ++ to_declarations l) <= cap ->
  length (b ++ to_body l) <= cap ->
  split_turn cap (l ++ nl :: rest) u b
  = Ok (u ++ to_declarations l, b ++ to_body l, Some (length l)).
Proof.
  intros N Hu Hb. unfold split_turn.
  rewrite strchr_line, uniform_test_line by assumption.
  rewrite firstn_app, Nat.sub_diag, firstn_all, firstn_O, app_nil_r.
  now apply turn_writes.
Qed.

(** One turn of the loop on a last line without newline. *)
Lemma split_turn_last (cap : nat) (l u b : cstring) :
  ~ In nl l ->
  length (u ++ to_declarations l) <= cap ->
  length (b ++ to_body l) <= cap ->
  split_turn cap l u b = Ok (u ++ to_declarations l, b ++ to_body l, None).
Proof.
  intros N Hu Hb. unfold split_turn.
  assert (strchr l nl = None) as ->.
  { destruct (strchr l nl) as [e|] eqn:E; [|reflexivity].
    apply strchr_found in E. destruct E as [E _].
    exfalso. apply N. rewrite E. apply in_or_app. right. now left. }
  rewrite uniform_test_last. unfold strlen. rewrite firstn_all.
  now apply turn_writes.
Qed.

(** A text is a line and a newline and what follows, or one last line. *)
Lemma first_line (s : cstring) :
  (exists l rest, s = l ++ nl :: rest /\ ~ In nl l) \/ ~ In nl s.
Proof.
  destruct (strchr s nl) as [e|] eqn:E.
  - left. apply strchr_found in E. destruct E as [E N]. eauto.
  - right. now apply strchr_absent.
Qed.

(** The loop, on a source whose lines fit the buffers. *)
Lemma split_loop_fits (cap : nat) :
  forall (n : nat) (line u b : cstring),
    length line <= n ->
    length (u ++ declarations line) <= cap ->
    length (b ++ body line) <= cap ->
    split_loop cap line u b = Ok (u ++ declarations line, b ++ body line).
Proof.
  induction n as [|n IH]; intros line u b Ln Hu Hb.
  - destruct line; [|simpl in Ln; lia].
    simp split_loop. unfold declarations, body. simpl.
    now rewrite !app_nil_r.
  - destruct line as [|c line'].
    + simp split_loop. unfold declarations, body. simpl.
      now rewrite !app_nil_r.
    + destruct (first_line (c :: line')) as [(l & rest & E & N)|N].
      * rewrite E in *. rewrite declarations_line in * by assumption.
        rewrite body_line in * by assumption.
        rewrite app_assoc in Hu, Hb.
        assert (length (u ++ to_declarations l) <= cap) as Hu'
          by (rewrite length_app in Hu; lia).
        assert (length (b ++ to_body l) <= cap) as Hb'
          by (rewrite length_app in Hb; lia).
        pose proof (@split_turn_line cap l rest u b N Hu' Hb') as T.
        rewrite <- E in T |- *. simp split_loop. rewrite T. simpl.
        assert (skipn (length l) line' = rest) as ->.
        { change (skipn (S (length l)) (c :: line') = rest). rewrite E.
          change (nl :: rest) with ([nl] ++ rest). rewrite app_assoc.
          rewrite skipn_app.
          replace (S (length l)) with (length (l ++ [nl]))
            by (rewrite length_app; simpl; lia).
          rewrite skipn_all, Nat.sub_diag. reflexivity. }
        rewrite IH, <- !app_assoc; try assumption; try reflexivity.
        rewrite length_app in Ln. simpl in Ln. lia.
      * rewrite declarations_last in * by (assumption || discriminate).
        rewrite body_last in * by (assumption || discriminate).
        pose proof (@split_turn_last cap (c :: line') u b N Hu Hb) as T.
        simp split_loop. rewrite T. reflexivity.
Qed.

(** The whole of [split_user_code], on a source whose two parts are no
    longer than the source. *)
Lemma split_user_code_fits (code : cstring) :
  length (declarations code) <= length code ->
  length (body code) <= length code ->
  split_user_code code = Ok (declarations code, body code).
Proof.
  intros Hd Hb. unfold split_user_code, strlen.
  rewrite (@split_loop_fits (length code + 1) (length code) code [] []);
    simpl; try lia.
  unfold terminate.
  replace (length (declarations code) <? length code + 1) with true
    by (symmetry; apply Nat.ltb_lt; lia).
  replace (length (body code) <? length code + 1) with true
    by (symmetry; apply Nat.ltb_lt; lia).
  reflexivity.
Qed.

(** A source of one line that no newline closes does not fit: the
    terminator is written one byte past the buffer of the line. *)
Lemma split_user_code_unterminated_line (l : cstring) :
  l <> [] -> ~ In nl l -> split_user_code l = Fault.
Proof.
  intros Ne N. unfold split_user_code, strlen.
  destruct l as [|c l']; [congruence|].
  assert (length (to_declarations (c :: l')) <= length (c :: l') + 1
          /\ length (to_body (c :: l')) <= length (c :: l') + 1) as [Hu Hb].
  { unfold to_declarations, to_body.
    destruct (keyword_and_space (c :: l')); simpl; rewrite ?length_app;
      simpl; lia. }
  simp split_loop.
  rewrite (@split_turn_last (length (c :: l') + 1) (c :: l') [] [] N Hu Hb).
  simpl. unfold terminate, to_declarations, to_body.
  destruct (keyword_and_space (c :: l')); simpl; rewrite ?length_app; simpl.
  - replace (S (length l' + 1) <? S (length l' + 1)) with false
      by (symmetry; apply Nat.ltb_ge; lia).
    reflexivity.
  - replace (S (length l' + 1) <? S (length l' + 1)) with false
      by (symmetry; apply Nat.ltb_ge; lia).
    reflexivity.
Qed.

Lemma unlines_lines_closed (s : cstring) :
  unlines (lines (s ++ [nl])) = s ++ [nl].
Proof.
  induction s as [|c s IH]; simpl; [reflexivity|].
  destruct (Ascii.eqb c nl) eqn:E.
  - apply Ascii.eqb_eq in E. subst. simpl. now rewrite IH.
  - destruct (lines (s ++ [nl])) as [|l ls] eqn:L; simpl in *.
    + destruct s; discriminate.
    + now rewrite IH.
Qed.

Lemma unlines_filter_length (f : cstring -> bool) (ls : list cstring) :
  length (unlines (filter f ls)) <= length (unlines ls).
Proof.
  induction ls as [|l ls IH]; simpl; [lia|].
  destruct (f l); simpl; rewrite ?length_app; simpl; lia.
Qed.

(** A source that ends in a newline fits. *)
Lemma closed_source_fits (s : cstring) :
  length (declarations (s ++ [nl])) <= length (s ++ [nl])
  /\ length (body (s ++ [nl])) <= length (s ++ [nl]).
Proof.
  unfold declarations, body. split.
  - rewrite <- (unlines_lines_closed s) at 2. apply unlines_filter_length.
  - rewrite <- (unlines_lines_closed s) at 2. apply unlines_filter_length.
Qed.





End Composition.

(* ===================================================================== *)
(** * The code on concrete inputs *)
(* ===================================================================== *)

Section Examples.

Import Params Lookup Bind Samples.

(** Discovery among built-in, reserved, array and matrix uniforms. *)
Example discovery_of_the_texture_blend_uniforms :
  let r := Discover.discover_custom_uniforms location_of reported
             (R3D_Shader.fresh 7) in
  R3D_Shader.customUniformCount (fst r) = 4%Z
  /\ map (fun i => (R3D_UniformInfo.name i, R3D_UniformInfo.type i,
                    R3D_UniformInfo.texSlot i))
       (R3D_Shader.registered (fst r))
     = [(lit "uTexB", R3D_PARAM_TEX2D, 5%Z);
        (lit "uBlendPower", R3D_PARAM_FLOAT, (-1)%Z);
        (lit "uTintColor", R3D_PARAM_VEC3, (-1)%Z);
        (lit "uTexC", R3D_PARAM_TEX2D, 6%Z)]
  /\ snd r = [GL.glUseProgram 7; GL.glUniform1i 5 5;
              GL.glUseProgram 7; GL.glUniform1i 5 6].
Proof. vm_compute. repeat split. Qed.

Lemma tinted_ok : material_ok tinted.
Proof. unfold material_ok. simpl. repeat split; lia. Defined.

(** [uTint] stored as a float, declared as a [vec3] by the program: the
    three words of the stored value are sent. *)
Lemma bind_goes_by_the_uniform_type_witness :
  material_ok tinted
  /\ R3D_BindCustomUniforms (Some (one_vec3 (lit "uTint"))) (Some tinted)
     = Ok [GL.glUniform3fv 3 1 [one; 0%Z; 0%Z]].
Proof.
  split; [exact tinted_ok|].
  exact (proj1 (@bind_goes_by_the_uniform_type (one_vec3 (lit "uTint")) tinted
                  tinted_ok)).
Defined.

(** C2, as stated, fails: [uTint] is stored as a float by
    [R3D_SetMaterialFloat], the program declares it as a [vec3], and the
    bind path nevertheless sets the uniform, from the words of the stored
    value. *)
Lemma mistyped_parameter_is_bound :
  R3D_SetMaterialFloat (Some plain) (Some (lit "uTint")) one = Ok (Some tinted)
  /\ map R3D_MaterialParam.type (R3D_Material.slots tinted) = [R3D_PARAM_FLOAT]
  /\ map R3D_UniformInfo.type (R3D_Shader.registered (one_vec3 (lit "uTint")))
     = [R3D_PARAM_VEC3]
  /\ R3D_BindCustomUniforms (Some (one_vec3 (lit "uTint"))) (Some tinted)
     = Ok [GL.glUniform3fv 3 1 [one; 0%Z; 0%Z]]
  /\ R3D_BindCustomUniforms (Some (one_vec3 (lit "uTint"))) (Some tinted)
     <> Ok [].
Proof. vm_compute. repeat split. discriminate. Qed.

(** C6. The code at the failing input: [uTint] is stored as a float,
    then set again with [R3D_SetMaterialVec3]. The value is the vector,
    the type tag is still the one of the first call. *)
Theorem setter_keeps_the_tag_of_an_existing_parameter :
  (m <- R3D_SetMaterialFloat (Some plain) (Some (lit "uTint")) one ;;
   R3D_SetMaterialVec3 m (Some (lit "uTint")) v123)
  = Ok (Some
          {| R3D_Material.shader := None;
             R3D_Material.params :=
               Some [{| R3D_MaterialParam.name := lit "uTint";
                        R3D_MaterialParam.type := R3D_PARAM_FLOAT;
                        R3D_MaterialParam.value :=
                          {| Value.w0 := one; Value.w1 := two;
                             Value.w2 := three; Value.w3 := 0;
                             Value.w4 := 0 |} |}];
             R3D_Material.paramCount := 1;
             R3D_Material.paramCapacity := 4 |}).
Proof. vm_compute. reflexivity. Qed.

(** C7. The code at the failing input: a name of 64 characters set
    twice. The lookup compares the stored 63 characters with the whole
    name, finds nothing, and the second call appends a second parameter. *)
Theorem long_name_set_twice_is_stored_twice :
  exists m,
    (m1 <- R3D_SetMaterialFloat (Some plain) (Some a64) one ;;
     R3D_SetMaterialFloat m1 (Some a64) two) = Ok (Some m)
    /\ R3D_Material.paramCount m = 2%Z
    /\ map (fun p => (R3D_MaterialParam.name p,
                      Value.f (R3D_MaterialParam.value p)))
         (R3D_Material.slots m)
       = [(a63, one); (a63, two)]
    /\ stored_under a63 (R3D_Material.slots m) = 2
    /\ stored_under a64 (R3D_Material.slots m) = 0.
Proof. eexists. vm_compute. repeat split. Qed.

(** The same name of 64 characters with a [vec3] set twice, then bound
    against a shader that knows the uniform by its first 63 characters:
    what reaches [glUniform3fv] is the vector of the first call. *)
Example long_name_binds_the_older_value :
  (m1 <- R3D_SetMaterialVec3 (Some plain) (Some a64) v123 ;;
   m2 <- R3D_SetMaterialVec3 m1 (Some a64) v456 ;;
   R3D_BindCustomUniforms (Some (one_vec3 (firstn 63 a64))) m2)
  = Ok [GL.glUniform3fv 3 1 [one; two; three]].
Proof. vm_compute. reflexivity. Qed.

Lemma plain_ok : material_ok plain.
Proof. reflexivity. Defined.

Lemma vec3_round_trip_witness :
  length (lit "uTint") <= 63
  /\ exists m',
       R3D_SetMaterialVec3 (Some plain) (Some (lit "uTint")) v456 = Ok (Some m')
       /\ bind_uniform m'
            {| R3D_UniformInfo.name := lit "uTint";
               R3D_UniformInfo.location := 3;
               R3D_UniformInfo.type := R3D_PARAM_VEC3;
               R3D_UniformInfo.texSlot := (-1) |}
          = Ok [GL.glUniform3fv 3 1 [four; five; six]].
Proof.
  assert (length (lit "uTint") <= 63) as L by (apply Nat.leb_le; reflexivity).
  split; [exact L|].
  destruct (@vec3_round_trip plain (lit "uTint") v456
              {| R3D_UniformInfo.name := lit "uTint";
                 R3D_UniformInfo.location := 3;
                 R3D_UniformInfo.type := R3D_PARAM_VEC3;
                 R3D_UniformInfo.texSlot := (-1) |}
              plain_ok L eq_refl eq_refl) as (m' & E & B & _).
  exists m'. split; [exact E|exact B].
Defined.

(** C8, as stated, fails: a program declares seventeen [vec3] uniforms,
    the last of them [uq]; discovery registers sixteen; a vector set for
    [uq] is stored in the material, and binding the material against the
    shader sends nothing at all. *)
Lemma uniform_beyond_the_cap_is_not_bound :
  let sh := fst (Discover.discover_custom_uniforms location_of seventeen
                   (R3D_Shader.fresh 7)) in
  map GL.au_name (skipn 16 seventeen) = [lit "uq"]
  /\ R3D_Shader.customUniformCount sh = 16%Z
  /\ (m <- R3D_SetMaterialVec3 (Some plain) (Some (lit "uq")) v123 ;;
      R3D_BindCustomUniforms (Some sh) m) = Ok [].
Proof. vm_compute. repeat split. Qed.

(** C10. The code at the failing input: two names that differ in their
    64th character only. Both are stored under the same 63 characters,
    but in two parameters, not in one. *)
Theorem names_sharing_63_characters_get_separate_entries :
  exists m,
    (m1 <- R3D_SetMaterialFloat (Some plain) (Some a63b) one ;;
     R3D_SetMaterialFloat m1 (Some a63c) two) = Ok (Some m)
    /\ map (fun p => (R3D_MaterialParam.name p,
                      Value.f (R3D_MaterialParam.value p)))
         (R3D_Material.slots m)
       = [(a63, one); (a63, two)]
    /\ calls_for (R3D_Material.slots m)
         {| R3D_UniformInfo.name := firstn 63 a63c;
            R3D_UniformInfo.location := 3;
            R3D_UniformInfo.type := R3D_PARAM_FLOAT;
            R3D_UniformInfo.texSlot := (-1) |}
       = [GL.glUniform1f 3 one].
Proof. eexists. vm_compute. repeat split. Qed.



(** A source of one line without newline overruns its buffer. *)
Example one_statement_without_newline :
  Compose.split_user_code (lit "ALBEDO.rgb = vec3(1.0);") = Fault.
Proof. vm_compute. reflexivity. Qed.

Lemma null_material_is_default_and_no_instances_is_noop_witness :
  (0%Z = 0%Z \/ Some 5%Z = None)
  /\ Draw.R3D_DrawMeshInstanced all_layers plain [] (Some (mesh_on 1 10))
       (Some plain) (Some 5%Z) 0 Draw.empty_lists
     = Ok Draw.empty_lists.
Proof.
  split; [left; reflexivity|].
  apply (@null_material_is_default_and_no_instances_is_noop all_layers plain
           (mesh_on 1 10) (Some plain) None [] [] (Some 5%Z) 0%Z None 0%Z 0%Z
           Draw.empty_lists).
  left; reflexivity.
Defined.

(** C5, as stated, fails: a visible mesh submitted with a NULL material
    is enqueued, one group and one call, by [R3D_DrawMesh] and by
    [R3D_DrawMeshInstancedPro]; and a NULL mesh is dereferenced. *)
Lemma null_material_is_enqueued :
  Draw.R3D_DrawMesh all_layers plain (Some (mesh_on 1 10)) None []
    Draw.empty_lists
  <> Ok Draw.empty_lists
  /\ (exists st,
        Draw.R3D_DrawMesh all_layers plain (Some (mesh_on 1 10)) None []
          Draw.empty_lists = Ok st
        /\ length (Draw.groups st) = 1
        /\ map (fun c => Draw.r3d_draw_call_t.material (snd (fst c)))
             (Draw.calls st) = [plain])
  /\ Draw.R3D_DrawMeshInstancedPro all_layers plain (Some (mesh_on 1 10)) None
       None [] (Some 5%Z) 0 None 0 2 Draw.empty_lists
     <> Ok Draw.empty_lists
  /\ Draw.R3D_DrawMesh all_layers plain None (Some plain) [] Draw.empty_lists
     = Fault.
Proof.
  split; [vm_compute; discriminate|].
  split; [eexists; vm_compute; repeat split|].
  split; [vm_compute; discriminate|reflexivity].
Qed.

Lemma hidden_mesh_ends_model_submission_witness :
  first_layer 2 = false
  /\ Draw.R3D_DrawModelPro first_layer (Some three_meshes) [] Draw.empty_lists
     = Submission.push_meshes three_meshes [mesh_on 1 10] 0
         (Draw.r3d_draw_group_push
            (Submission.model_group three_meshes [] Draw.instanced_t.zero)
            Draw.empty_lists).
Proof.
  split; [reflexivity|].
  apply (@hidden_mesh_ends_model_submission first_layer three_meshes
           [mesh_on 1 10] [mesh_on 1 30] (mesh_on 2 20) [] None 9%Z 0%Z None
           0%Z 1%Z Draw.empty_lists).
  - reflexivity.
  - repeat constructor.
  - reflexivity.
  - reflexivity.
  - discriminate.
Defined.

(** Of three meshes, the second hidden and the third visible, only the
    first is submitted. *)
Example three_meshes_submit_one_call :
  exists st,
    Draw.R3D_DrawModelPro first_layer (Some three_meshes) [] Draw.empty_lists
    = Ok st
    /\ length (Draw.groups st) = 1
    /\ map (fun c => Draw.R3D_Mesh.geometry
                       (Draw.r3d_draw_call_t.mesh (snd (fst c))))
         (Draw.calls st) = [10%Z].
Proof. eexists. vm_compute. repeat split. Qed.

(** One frame with everything on, and one with nothing to draw. *)
Example every_pass_once :
  StateMachine.passes
    (Frame.R3D_End
       {| Frame.NO_FRUSTUM_CULLING := false; Frame.OPAQUE_SORTING := true;
          Frame.TRANSPARENT_SORTING := true; Frame.FXAA := true;
          Frame.has_deferred := true; Frame.has_decal := true;
          Frame.has_prepass := true; Frame.has_forward := true;
          Frame.light_has_visible := true; Frame.ssao_enabled := true;
          Frame.ssil_enabled := true; Frame.ssr_enabled := true;
          Frame.fog_on := true; Frame.dof_on := true; Frame.bloom_on := true |})
  = [StateMachine.Shadow; StateMachine.Culling; StateMachine.Sorting;
     StateMachine.Sorting; StateMachine.Sorting; StateMachine.Geometry;
     StateMachine.Decals; StateMachine.SSAO; StateMachine.Lighting;
     StateMachine.SSIL; StateMachine.SSR; StateMachine.Ambient;
     StateMachine.Compose; StateMachine.Background; StateMachine.Prepass;
     StateMachine.Forward; StateMachine.PostFog; StateMachine.PostDoF;
     StateMachine.PostBloom; StateMachine.PostTonemap;
     StateMachine.PostFXAA; StateMachine.Blit].
Proof. reflexivity. Qed.

Example empty_frame :
  Frame.R3D_End
    {| Frame.NO_FRUSTUM_CULLING := true; Frame.OPAQUE_SORTING := false;
       Frame.TRANSPARENT_SORTING := false; Frame.FXAA := false;
       Frame.has_deferred := false; Frame.has_decal := false;
       Frame.has_prepass := false; Frame.has_forward := false;
       Frame.light_has_visible := false; Frame.ssao_enabled := false;
       Frame.ssil_enabled := false; Frame.ssr_enabled := false;
       Frame.fog_on := false; Frame.dof_on := false; Frame.bloom_on := false |}
  = [Frame.r3d_light_update_and_cull; Frame.pass_scene_shadow;
     Frame.r3d_cache_bind_view_state;
     Frame.R3D_TARGET_CLEAR Frame.R3D_TARGET_DEPTH;
     Frame.pass_scene_background; Frame.pass_post_setup;
     Frame.pass_post_output; Frame.r3d_target_blit;
     Frame.reset_raylib_state].
Proof. reflexivity. Qed.

End Examples.

(* ===================================================================== *)
(** * Material parameters over a sequence of setter calls *)
(* ===================================================================== *)

Section Histories.

Import Params Lookup Bind History.

Lemma array_set_all {A : Type} (P : A -> Prop) (x : A) (arr : list A) :
  Forall P arr -> P x -> forall i, Forall P (array_set i x arr).
Proof.
  induction 1 as [|a arr Ha Harr IH]; intros Hx [|i]; simpl; constructor; auto.
Qed.

(** The array and its capacity after a setter. *)
Lemma set_material_growth (m m' : R3D_Material.t) (name : cstring)
    (type : R3D_ParamType) (assign : Value.t -> Value.t) :
  material_ok m ->
  set_material (Some m) (Some name) type assign = Ok (Some m') ->
  (exists l, R3D_Material.params m' = Some l)
  /\ match R3D_Material.params m with
     | None =>
         R3D_Material.paramCapacity m' = 4%Z /\ R3D_Material.paramCount m' = 1%Z
     | Some _ =>
         (R3D_Material.paramCapacity m' = R3D_Material.paramCapacity m
          /\ (R3D_Material.paramCount m' = R3D_Material.paramCount m
              \/ (R3D_Material.paramCount m' = R3D_Material.paramCount m + 1
                  /\ R3D_Material.paramCount m < R3D_Material.paramCapacity m))%Z)
         \/ (R3D_Material.paramCapacity m' = R3D_Material.paramCapacity m * 2
             /\ R3D_Material.paramCount m = R3D_Material.paramCapacity m
             /\ R3D_Material.paramCount m' = R3D_Material.paramCount m + 1)%Z
     end.
Proof.
  intros OK H. pose proof (@material_ok_count m OK) as C.
  unfold set_material, FindOrCreateParam in H.
  rewrite C, find_param_all in H. simpl in H.
  destruct (first_named name (R3D_Material.slots m) 0) as [[i p]|] eqn:F.
  - simpl in H. unfold store_value in H.
    destruct (nth_error (R3D_Material.slots m) i) as [q|]; [|discriminate].
    simpl in H. inversion H; subst m';
          cbn [R3D_Material.params R3D_Material.paramCount
               R3D_Material.paramCapacity]. split; [eauto|].
    destruct (R3D_Material.params m) as [l|] eqn:P.
    + left. auto.
    + unfold R3D_Material.slots in F. rewrite P in F. discriminate.
  - revert OK H. unfold material_ok.
    destruct (R3D_Material.params m) as [l|] eqn:P.
    + intros (Hc & Hcap & Hle).
      destruct (R3D_Material.paramCapacity m <=? R3D_Material.paramCount m)%Z
        eqn:G.
      * apply Z.leb_le in G.
        replace ((0 <=? R3D_Material.paramCount m)
                 && (R3D_Material.paramCount m <? R3D_Material.paramCapacity m * 2))%Z
          with true
          by (symmetry; apply andb_true_iff; split;
              [apply Z.leb_le|apply Z.ltb_lt]; lia).
        simpl. unfold store_value.
        destruct (nth_error _ _) as [q|]; [|discriminate].
        simpl. intro H. inversion H; subst m';
          cbn [R3D_Material.params R3D_Material.paramCount
               R3D_Material.paramCapacity].
        split; [eauto|]. right. lia.
      * apply Z.leb_gt in G.
        replace ((0 <=? R3D_Material.paramCount m)
                 && (R3D_Material.paramCount m <? R3D_Material.paramCapacity m))%Z
          with true
          by (symmetry; apply andb_true_iff; split;
              [apply Z.leb_le|apply Z.ltb_lt]; lia).
        simpl. unfold store_value.
        destruct (nth_error _ _) as [q|]; [|discriminate].
        simpl. intro H. inversion H; subst m';
          cbn [R3D_Material.params R3D_Material.paramCount
               R3D_Material.paramCapacity].
        split; [eauto|]. left. lia.
    + intros Hc. simpl. intro H. inversion H; subst m';
        cbn [R3D_Material.params R3D_Material.paramCount
             R3D_Material.paramCapacity].
      split; [eauto|]. lia.
Qed.

Lemma after_set_names (name : cstring) (type : R3D_ParamType)
    (assign : Value.t -> Value.t) (ps : list R3D_MaterialParam.t) :
  Forall (fun p => length (R3D_MaterialParam.name p) <= 63) ps ->
  Forall (fun p => length (R3D_MaterialParam.name p) <= 63)
    (after_set name type assign ps).
Proof.
  intro F. unfold after_set.
  destruct (first_named name ps 0) as [[i p]|] eqn:E.
  - apply array_set_all; [exact F|]. simpl.
    apply first_named_sound in E. destruct E as [_ [N _]].
    apply nth_error_In in N.
    now apply (proj1 (Forall_forall _ _) F).
  - apply Forall_app. split; [exact F|]. constructor; [|constructor].
    cbn [R3D_MaterialParam.name]. rewrite length_firstn. apply Nat.le_min_l.
Qed.

Lemma grown_positive (k : nat) : (4 <= grown k)%Z.
Proof. induction k as [|k IH]; cbn [grown]; lia. Qed.

(** One setter keeps a material settled. *)
Lemma set_material_settled (m : R3D_Material.t) (name : cstring)
    (type : R3D_ParamType) (assign : Value.t -> Value.t) :
  settled m ->
  exists m',
    set_material (Some m) (Some name) type assign = Ok (Some m')
    /\ settled m'
    /\ R3D_Material.shader m' = R3D_Material.shader m
    /\ (R3D_Material.paramCount m <= R3D_Material.paramCount m'
        <= R3D_Material.paramCount m + 1)%Z
    /\ R3D_Material.params m' <> None.
Proof.
  intros (OK & Names & Cap).
  destruct (@set_material_ok m name type assign OK)
    as (m' & E & Sl & Cn & Sh & OK').
  destruct (@set_material_growth m m' name type assign OK E) as [[l' P'] G].
  exists m'. split; [exact E|].
  assert (settled m') as St.
  { split; [exact OK'|]. split; [rewrite Sl; now apply after_set_names|].
    rewrite P'.
    destruct (R3D_Material.params m) as [l|] eqn:P.
    - destruct Cap as ([k Hk] & Hb & H1).
      destruct G as [[Gc Gn]|(Gc & Gf & Gn)].
      + rewrite Gc. split; [now exists k|]. split; lia.
      + rewrite Gc. split; [exists (S k); cbn [grown]; lia|]. split; lia.
    - destruct G as [Gc Gn]. rewrite Gc, Gn.
      split; [now exists 0|]. split; [now left|lia]. }
  split; [exact St|]. split; [exact Sh|].
  split; [|rewrite P'; discriminate].
  unfold material_ok in OK.
  destruct (R3D_Material.params m) as [l|] eqn:P.
  - destruct G as [[_ Gn]|(_ & _ & Gn)]; lia.
  - destruct G as [_ Gn]. lia.
Qed.

Lemma apply_is_set_material (s : setter) (m : option R3D_Material.t) :
  exists name type assign,
    apply s m = set_material m (Some name) type assign.
Proof.
  destruct s; simpl; unfold R3D_SetMaterialFloat, R3D_SetMaterialVec2,
    R3D_SetMaterialVec3, R3D_SetMaterialVec4, R3D_SetMaterialTexture; eauto.
Qed.

Lemma run_settled (l : list setter) :
  forall m,
    settled m ->
    exists m',
      run l (Some m) = Ok (Some m')
      /\ settled m'
      /\ R3D_Material.shader m' = R3D_Material.shader m
      /\ (R3D_Material.paramCount m <= R3D_Material.paramCount m'
          <= R3D_Material.paramCount m + Z.of_nat (length l))%Z
      /\ (l <> [] -> R3D_Material.params m' <> None).
Proof.
  induction l as [|s l IH]; intros m St.
  - exists m. cbn [run length]. split; [reflexivity|]. split; [exact St|].
    split; [reflexivity|]. split; [lia|]. intro N. now elim N.
  - destruct (apply_is_set_material s (Some m)) as (name & type & assign & A).
    destruct (@set_material_settled m name type assign St)
      as (m1 & E1 & St1 & Sh1 & Cn1 & P1).
    destruct (IH m1 St1) as (m2 & E2 & St2 & Sh2 & Cn2 & P2).
    exists m2. cbn [run]. rewrite A, E1. cbn [obind].
    split; [exact E2|]. split; [exact St2|].
    split; [congruence|]. split; [cbn [length]; lia|].
    intros _. destruct l as [|s' l'].
    + simpl in E2. inversion E2; subst. exact P1.
    + apply P2. discriminate.
Qed.

(** X1. Whatever sequence of calls of the five setters is made on a
    material that holds no parameter yet, every call succeeds without
    touching memory outside the parameter array, and the material it
    leaves is consistent: the count is the number of stored parameters and
    at most the number of calls, stored names have at most 63 characters,
    and once a call was made the array exists, holds at least one
    parameter, and its capacity is one of 4, 8, 16, ..., never more than 4
    or twice the count. *)
Theorem setters_keep_the_parameter_array_consistent
    (l : list setter) (shader : option Z) :
  exists m,
    run l (Some (no_params shader)) = Ok (Some m)
    /\ material_ok m
    /\ R3D_Material.shader m = shader
    /\ R3D_Material.paramCount m = Z.of_nat (length (R3D_Material.slots m))
    /\ (R3D_Material.paramCount m <= Z.of_nat (length l))%Z
    /\ Forall (fun p => length (R3D_MaterialParam.name p) <= 63)
         (R3D_Material.slots m)
    /\ match l with
       | [] => R3D_Material.params m = None
       | _ :: _ =>
           R3D_Material.params m <> None
           /\ (1 <= R3D_Material.paramCount m <= R3D_Material.paramCapacity m)%Z
           /\ (exists k, R3D_Material.paramCapacity m = grown k)
           /\ (R3D_Material.paramCapacity m <= 4
               \/ R3D_Material.paramCapacity m
                  <= 2 * R3D_Material.paramCount m)%Z
       end.
Proof.
  assert (settled (no_params shader)) as St0.
  { split; [reflexivity|]. split; [constructor|exact I]. }
  destruct (@run_settled l _ St0) as (m & E & St & Sh & Cn & P).
  exists m. pose proof St as (OK & Names & Cap).
  split; [exact E|]. split; [exact OK|]. split; [exact Sh|].
  split; [now apply material_ok_countZ|].
  split; [simpl in Cn; lia|]. split; [exact Names|].
  destruct l as [|s l'].
  - simpl in E. inversion E; subst. reflexivity.
  - assert (R3D_Material.params m <> None) as P' by (apply P; discriminate).
    split; [exact P'|].
    unfold material_ok in OK.
    destruct (R3D_Material.params m) as [ps|]; [|congruence].
    destruct Cap as (K & B & O). split; [lia|]. split; [exact K|lia].
Qed.

End Histories.

(* ===================================================================== *)
(** * Setters and the bind path together *)
(* ===================================================================== *)

Section SetThenBind.

Import Params Lookup Bind.

(** Rewriting a parameter in place does not change what is found under
    another name. *)
Lemma first_named_other_array_set (other : cstring)
    (ps : list R3D_MaterialParam.t) :
  forall i k p p',
    nth_error ps i = Some p ->
    R3D_MaterialParam.name p' = R3D_MaterialParam.name p ->
    strcmp_eq (R3D_MaterialParam.name p) other = false ->
    first_named other (array_set i p' ps) k = first_named other ps k.
Proof.
  induction ps as [|a ps IH]; intros [|i] k p p' N Hn Ho; simpl in *;
    try discriminate.
  - inversion N; subst. now rewrite Hn, Ho.
  - destruct (strcmp_eq (R3D_MaterialParam.name a) other); [reflexivity|].
    now apply IH with (p := p).
Qed.

Lemma first_named_app_found (other : cstring)
    (ps more : list R3D_MaterialParam.t) :
  forall k r,
    first_named other ps k = Some r ->
    first_named other (ps ++ more) k = Some r.
Proof.
  induction ps as [|a ps IH]; intros k r G; simpl in *; [discriminate|].
  destruct (strcmp_eq (R3D_MaterialParam.name a) other);
    [exact G|now apply IH].
Qed.

(** A setter called with [name] leaves the lookup of every other name as
    it was, unless that name is the cut of [name] to 63 characters. *)
Lemma first_named_other_after_set (name other : cstring)
    (type : R3D_ParamType) (assign : Value.t -> Value.t)
    (ps : list R3D_MaterialParam.t) :
  other <> name -> other <> firstn 63 name ->
  first_named other (after_set name type assign ps) 0
  = first_named other ps 0.
Proof.
  intros N1 N2. unfold after_set.
  destruct (first_named name ps 0) as [[i p]|] eqn:F.
  - apply first_named_sound in F. destruct F as [_ [N Hn]].
    rewrite Nat.sub_0_r in N.
    apply first_named_other_array_set with (p := p); [exact N|reflexivity|].
    apply strcmp_eq_false. congruence.
  - destruct (first_named other ps 0) as [[j q]|] eqn:G.
    + now apply first_named_app_found.
    + rewrite first_named_app_new by exact G.
      cbn [R3D_MaterialParam.name].
      rewrite strcmp_eq_false; [reflexivity|congruence].
Qed.

(** X2. A setter called with one name does not disturb the parameters
    stored under other names: for every name other than the one given and
    other than its first 63 characters, the lookup finds the same
    parameter at the same index as before, and the bind path sends for a
    uniform of that name exactly what it sent before. *)
Theorem setter_leaves_other_names_alone
    (m : R3D_Material.t) (name other : cstring)
    (type : R3D_ParamType) (assign : Value.t -> Value.t) :
  material_ok m ->
  other <> name ->
  other <> firstn 63 name ->
  exists m',
    set_material (Some m) (Some name) type assign = Ok (Some m')
    /\ first_named other (R3D_Material.slots m') 0
       = first_named other (R3D_Material.slots m) 0
    /\ forall info,
         R3D_UniformInfo.name info = other ->
         bind_uniform m' info = bind_uniform m info.
Proof.
  intros OK N1 N2.
  destruct (@set_material_ok m name type assign OK)
    as (m' & E & Sl & _ & _ & OK').
  exists m'. split; [exact E|].
  assert (first_named other (R3D_Material.slots m') 0
          = first_named other (R3D_Material.slots m) 0) as F
    by (rewrite Sl; now apply first_named_other_after_set).
  split; [exact F|].
  intros info Hn.
  rewrite (@bind_uniform_ok m' info OK'), (@bind_uniform_ok m info OK).
  unfold calls_for. now rewrite Hn, F.
Qed.

Lemma setter_leaves_other_names_alone_witness :
  material_ok Samples.tinted
  /\ exists m',
       set_material (Some Samples.tinted) (Some (lit "uGain"))
         R3D_PARAM_FLOAT (Value.set_f Samples.two) = Ok (Some m')
       /\ first_named (lit "uTint") (R3D_Material.slots m') 0
          = first_named (lit "uTint") (R3D_Material.slots Samples.tinted) 0
       /\ forall info,
            R3D_UniformInfo.name info = lit "uTint" ->
            bind_uniform m' info = bind_uniform Samples.tinted info.
Proof.
  assert (material_ok Samples.tinted) as OK
    by (unfold material_ok; simpl; lia).
  split; [exact OK|].
  apply (@setter_leaves_other_names_alone Samples.tinted (lit "uGain")
           (lit "uTint") R3D_PARAM_FLOAT (Value.set_f Samples.two) OK);
    discriminate.
Defined.

(** What the bind path owes to a uniform after a setter was called with
    the uniform's name. *)
Lemma calls_for_after_set (m : R3D_Material.t) (name : cstring)
    (type : R3D_ParamType) (assign : Value.t -> Value.t)
    (info : R3D_UniformInfo.t) :
  material_ok m ->
  length name <= 63 ->
  R3D_UniformInfo.name info = name ->
  exists m' p old,
    set_material (Some m) (Some name) type assign = Ok (Some m')
    /\ R3D_MaterialParam.value p = assign old
    /\ bind_uniform m' info = Ok (bind_calls info p).
Proof.
  intros OK L Hn.
  destruct (@set_material_ok m name type assign OK)
    as (m' & E & Sl & _ & _ & OK').
  destruct (@after_set_finds name type assign (R3D_Material.slots m) L)
    as (i & p & old & F & V & _).
  exists m', p, old. split; [exact E|]. split; [exact V|].
  rewrite (@bind_uniform_ok m' info OK'). unfold calls_for.
  now rewrite Hn, Sl, F.
Qed.

(** X3. For a material in good state and a name of at most 63
    characters, a value set with [R3D_SetMaterialFloat],
    [R3D_SetMaterialVec2], [R3D_SetMaterialVec4] or
    [R3D_SetMaterialTexture] comes back from the bind path as it was given,
    for a uniform of that name and of the setter's type: one
    [glUniform1f], [glUniform2fv] or [glUniform4fv] with count 1 and the
    components in order, or, for a texture, the activation of the uniform's
    texture unit followed by the binding of the texture's id as a 2D
    texture. *)
Theorem values_set_come_back_at_bind
    (m : R3D_Material.t) (name : cstring) (info : R3D_UniformInfo.t)
    (f : float32) (a : Vector2.t) (b : Vector4.t) (t : Texture2D.t) :
  material_ok m ->
  length name <= 63 ->
  R3D_UniformInfo.name info = name ->
  (R3D_UniformInfo.type info = R3D_PARAM_FLOAT ->
   exists m',
     R3D_SetMaterialFloat (Some m) (Some name) f = Ok (Some m')
     /\ bind_uniform m' info
        = Ok [GL.glUniform1f (R3D_UniformInfo.location info) f])
  /\ (R3D_UniformInfo.type info = R3D_PARAM_VEC2 ->
      exists m',
        R3D_SetMaterialVec2 (Some m) (Some name) a = Ok (Some m')
        /\ bind_uniform m' info
           = Ok [GL.glUniform2fv (R3D_UniformInfo.location info) 1
                   [Vector2.x a; Vector2.y a]])
  /\ (R3D_UniformInfo.type info = R3D_PARAM_VEC4 ->
      exists m',
        R3D_SetMaterialVec4 (Some m) (Some name) b = Ok (Some m')
        /\ bind_uniform m' info
           = Ok [GL.glUniform4fv (R3D_UniformInfo.location info) 1
                   [Vector4.x b; Vector4.y b; Vector4.z b; Vector4.w b]])
  /\ (R3D_UniformInfo.type info = R3D_PARAM_TEX2D ->
      exists m',
        R3D_SetMaterialTexture (Some m) (Some name) t = Ok (Some m')
        /\ bind_uniform m' info
           = Ok [GL.glActiveTexture
                   (GL.GL_TEXTURE0 + R3D_UniformInfo.texSlot info)%Z;
                 GL.glBindTexture GL.GL_TEXTURE_2D (Texture2D.id t)]).
Proof.
  intros OK L Hn.
  split; [|split; [|split]]; intro Ht.
  - destruct (@calls_for_after_set m name R3D_PARAM_FLOAT (Value.set_f f)
                info OK L Hn) as (m' & p & old & E & V & B).
    exists m'. split; [exact E|]. rewrite B. unfold bind_calls.
    now rewrite Ht, V.
  - destruct (@calls_for_after_set m name R3D_PARAM_VEC2
                (Value.set_v2 (Vector2.x a) (Vector2.y a))
                info OK L Hn) as (m' & p & old & E & V & B).
    exists m'. split; [exact E|]. rewrite B. unfold bind_calls.
    now rewrite Ht, V.
  - destruct (@calls_for_after_set m name R3D_PARAM_VEC4
                (Value.set_v4 (Vector4.x b) (Vector4.y b) (Vector4.z b)
                   (Vector4.w b))
                info OK L Hn) as (m' & p & old & E & V & B).
    exists m'. split; [exact E|]. rewrite B. unfold bind_calls.
    now rewrite Ht, V.
  - destruct (@calls_for_after_set m name R3D_PARAM_TEX2D (Value.set_tex t)
                info OK L Hn) as (m' & p & old & E & V & B).
    exists m'. split; [exact E|]. rewrite B. unfold bind_calls.
    now rewrite Ht, V.
Qed.

End SetThenBind.

(* ===================================================================== *)
(** * Discovery and the bind path together *)
(* ===================================================================== *)

Section DiscoverThenBind.

Import Discover Protocol Params Lookup Bind.

Variable glGetUniformLocation : cstring -> Z.

(** What discovery registers on a freshly created shader. *)
Lemma discover_fresh_registered (program : Z)
    (active : list GL.active_uniform) :
  R3D_Shader.registered
    (fst (discover_custom_uniforms glGetUniformLocation active
            (R3D_Shader.fresh program)))
  = describe glGetUniformLocation 5 (firstn 16 (eligible active)).
Proof.
  assert (discovering
            {| R3D_Shader.program := program;
               R3D_Shader.customUniforms :=
                 repeat R3D_UniformInfo.zero R3D_MAX_CUSTOM_UNIFORMS;
               R3D_Shader.customUniformCount := 0;
               R3D_Shader.nextTexSlot := FIRST_CUSTOM_TEX_SLOT |}) as D.
  { split; [reflexivity|simpl; lia]. }
  pose proof (@discover_loop_spec glGetUniformLocation active _ [] D) as H.
  cbv zeta in H. destruct H as (R & _ & _). exact R.
Qed.

(** A described sampler has its slot among the next [length l] ones. *)
Lemma describe_slot_range (l : list GL.active_uniform) :
  forall (slot : Z) (info : R3D_UniformInfo.t),
    In info (describe glGetUniformLocation slot l) ->
    R3D_UniformInfo.type info = R3D_PARAM_TEX2D ->
    (slot <= R3D_UniformInfo.texSlot info < slot + Z.of_nat (length l))%Z.
Proof.
  induction l as [|u l IH]; intros slot info H T; [contradiction|].
  cbn [describe] in H. cbn [length]. rewrite Nat2Z.inj_succ.
  destruct (map_gl_type (GL.au_type u)) as [[]|];
    try (destruct H as [<-|H]; [discriminate T|]);
    try (specialize (IH _ _ H T); lia).
  destruct H as [<-|H]; [cbn [R3D_UniformInfo.texSlot]; lia|].
  specialize (IH _ _ H T). lia.
Qed.

Lemma describe_is_short (l : list GL.active_uniform) :
  forall slot, length (describe glGetUniformLocation slot l) <= length l.
Proof.
  induction l as [|u l IH]; intro slot; cbn [describe length]; [lia|].
  destruct (map_gl_type (GL.au_type u)) as [[]|]; cbn [length];
    try (specialize (IH slot); lia).
  specialize (IH (slot + 1)%Z). lia.
Qed.

(** The calls owed to one uniform whose sampler sits on a custom unit. *)
Lemma calls_for_custom_units (ps : list R3D_MaterialParam.t)
    (info : R3D_UniformInfo.t) :
  (R3D_UniformInfo.type info = R3D_PARAM_TEX2D ->
   (5 <= R3D_UniformInfo.texSlot info < 21)%Z) ->
  forallb Units.custom_unit (calls_for ps info) = true
  /\ length (calls_for ps info) <= 2.
Proof.
  intro Hi. unfold calls_for.
  destruct (first_named (R3D_UniformInfo.name info) ps 0) as [[j p]|];
    [|split; [reflexivity|simpl; lia]].
  unfold typed_calls.
  destruct (R3D_UniformInfo.type info);
    try (split; [reflexivity|simpl; lia]).
  specialize (Hi eq_refl).
  split; [|simpl; lia].
  cbn [forallb Units.custom_unit andb].
  unfold GL.GL_TEXTURE0, FIRST_CUSTOM_TEX_SLOT, R3D_MAX_CUSTOM_UNIFORMS.
  rewrite !andb_true_r. apply andb_true_iff. split.
  - apply Z.leb_le. lia.
  - apply Z.ltb_lt. lia.
Qed.

Lemma calls_on_custom_units (ps : list R3D_MaterialParam.t)
    (infos : list R3D_UniformInfo.t) :
  Forall (fun i => R3D_UniformInfo.type i = R3D_PARAM_TEX2D ->
                   (5 <= R3D_UniformInfo.texSlot i < 21)%Z) infos ->
  forallb Units.custom_unit (flat_map (calls_for ps) infos) = true
  /\ length (flat_map (calls_for ps) infos) <= 2 * length infos.
Proof.
  induction 1 as [|info infos Hi _ [IH1 IH2]]; [split; [reflexivity|simpl; lia]|].
  destruct (@calls_for_custom_units ps info Hi) as [U N].
  cbn [flat_map]. rewrite forallb_app, length_app, IH1, U. cbn [length].
  split; [reflexivity|lia].
Qed.

(** X4. For a shader whose uniforms were discovered at creation and a
    material in good state, the bind path never fails, issues at most two
    calls for each of the at most sixteen registered uniforms, never
    changes the program in use nor a sampler's unit, and activates only
    texture units 5 to 20: the units 0 to 4 of the built-in samplers are
    never touched by custom parameters. *)
Theorem bind_stays_on_the_custom_texture_units
    (program : Z) (active : list GL.active_uniform) (m : R3D_Material.t) :
  material_ok m ->
  exists calls,
    R3D_BindCustomUniforms
      (Some (fst (discover_custom_uniforms glGetUniformLocation active
                    (R3D_Shader.fresh program))))
      (Some m) = Ok calls
    /\ forallb Units.custom_unit calls = true
    /\ length calls <= 2 * R3D_MAX_CUSTOM_UNIFORMS.
Proof.
  intro OK. eexists. split.
  - unfold R3D_BindCustomUniforms. now apply bind_loop_ok.
  - rewrite discover_fresh_registered.
    set (found := firstn 16 (eligible active)).
    assert (length found <= 16) as L by (apply firstn_le_length).
    assert (Forall (fun i => R3D_UniformInfo.type i = R3D_PARAM_TEX2D ->
                             (5 <= R3D_UniformInfo.texSlot i < 21)%Z)
              (describe glGetUniformLocation 5 found)) as F.
    { apply Forall_forall. intros info Hin T.
      pose proof (@describe_slot_range found 5%Z info Hin T). lia. }
    destruct (@calls_on_custom_units (R3D_Material.slots m) _ F) as [U N].
    split; [exact U|].
    pose proof (describe_is_short found 5%Z).
    unfold R3D_MAX_CUSTOM_UNIFORMS. lia.
Qed.

Lemma starts_with_cut (pat : cstring) :
  forall (n : nat) (s : cstring),
    starts_with pat (firstn n s) = true -> starts_with pat s = true.
Proof.
  induction pat as [|y pat IH]; intros n s H; [reflexivity|].
  destruct n as [|n]; [rewrite firstn_O in H; discriminate|].
  destruct s as [|x s]; [discriminate|].
  rewrite firstn_cons in H. simpl in *.
  apply andb_true_iff in H. destruct H as [H1 H2].
  rewrite H1. simpl. now apply IH with (n := n).
Qed.

Lemma cut_holds_less {A : Type} (x : A) (n : nat) (s : list A) :
  In x (firstn n s) -> In x s.
Proof.
  intro H. rewrite <- (firstn_skipn n s). apply in_or_app. now left.
Qed.

Lemma builtin_names_are_short :
  Forall (fun b => length b < 63) builtinUniforms.
Proof. repeat constructor. Qed.

(** The name registered for a uniform that discovery lets through is not
    one it passes over. *)
Lemma registered_name_is_not_passed_over (u : GL.active_uniform)
    (name : cstring) :
  custom u = true -> Units.passed_over name = true ->
  firstn 63 (GL.au_name u) <> name.
Proof.
  unfold Units.passed_over, custom. cbn [GL.au_name].
  intros C P E.
  apply andb_true_iff in C. destruct C as [C C3].
  apply andb_true_iff in C. destruct C as [C1 C2].
  apply negb_true_iff in C1, C2, C3, P.
  apply andb_false_iff in P. destruct P as [P|P].
  apply andb_false_iff in P. destruct P as [P|P].
  - apply negb_false_iff in P. apply existsb_exists in P.
    destruct P as (b & Hb & Hs). apply strcmp_eq_true in Hs. subst name.
    pose proof (proj1 (Forall_forall _ _) builtin_names_are_short b Hb) as Lb.
    cbv beta in Lb. rewrite <- E in Lb. rewrite length_firstn in Lb.
    assert (firstn 63 (GL.au_name u) = GL.au_name u) as K
      by (apply firstn_all2; lia).
    rewrite K in E.
    assert (existsb (strcmp_eq (GL.au_name u)) builtinUniforms = true) as X.
    { apply existsb_exists. exists b. split; [exact Hb|].
      rewrite E. apply strcmp_eq_refl. }
    congruence.
  - apply negb_false_iff in P. rewrite <- E in P.
    apply starts_with_cut in P. congruence.
  - apply negb_false_iff in P. apply existsb_exists in P.
    destruct P as (c & Hc & Hq). rewrite <- E in Hc.
    apply cut_holds_less in Hc.
    assert (existsb (Ascii.eqb "["%char) (GL.au_name u) = true) as X
      by (apply existsb_exists; eauto).
    congruence.
Qed.

(** X5. A parameter stored under a name that discovery passes over (a
    built-in uniform such as [uRoughness], a name starting with [gl_], a
    name holding a bracket) never reaches a custom shader: for a name of at
    most 63 characters the setter stores it, and the bind path then issues
    for every discovered shader exactly the calls it issued before. *)
Theorem parameters_under_passed_over_names_are_never_sent
    (program : Z) (active : list GL.active_uniform) (m : R3D_Material.t)
    (name : cstring) (type : R3D_ParamType) (assign : Value.t -> Value.t) :
  material_ok m ->
  Units.passed_over name = true ->
  length name <= 63 ->
  exists m',
    set_material (Some m) (Some name) type assign = Ok (Some m')
    /\ R3D_BindCustomUniforms
         (Some (fst (discover_custom_uniforms glGetUniformLocation active
                       (R3D_Shader.fresh program))))
         (Some m')
       = R3D_BindCustomUniforms
           (Some (fst (discover_custom_uniforms glGetUniformLocation active
                         (R3D_Shader.fresh program))))
           (Some m).
Proof.
  intros OK P L.
  destruct (@set_material_ok m name type assign OK)
    as (m' & E & Sl & _ & _ & OK').
  exists m'. split; [exact E|].
  unfold R3D_BindCustomUniforms.
  rewrite (@bind_loop_ok m' _ OK'), (@bind_loop_ok m _ OK).
  rewrite discover_fresh_registered.
  set (found := firstn 16 (eligible active)).
  assert (Forall (fun u => custom u = true /\ supported u = true) found) as F.
  { apply first_ones_all. apply Forall_forall. intros u H.
    unfold eligible in H. apply filter_In in H. destruct H as [_ H].
    now apply andb_true_iff in H. }
  assert (Forall (fun u => supported u = true) found) as Fs
    by (eapply Forall_impl; [|exact F]; now intros u [_ S]).
  f_equal. rewrite !flat_map_concat_map. f_equal.
  apply map_ext_in. intros info Hin.
  assert (In (R3D_UniformInfo.name info)
            (map (fun u => firstn 63 (GL.au_name u)) found)) as Hn.
  { rewrite <- (@describe_names glGetUniformLocation 5 found Fs).
    now apply in_map. }
  apply in_map_iff in Hn. destruct Hn as (u & Hu & Hf).
  pose proof (proj1 (Forall_forall _ _) F u Hf) as [Cu _].
  pose proof (@registered_name_is_not_passed_over u name Cu P) as Ne.
  unfold calls_for. rewrite Sl.
  rewrite first_named_other_after_set; [reflexivity| |].
  - rewrite <- Hu. congruence.
  - rewrite (@short_name_kept name L), <- Hu. congruence.
Qed.

End DiscoverThenBind.

(* ===================================================================== *)
(** * The split of the user source, on every source *)
(* ===================================================================== *)

Section Splitting.

Import Compose Protocol.

(** The two writes of one turn, when the buffers were within bounds: they
    happen if they fit, and go out of bounds otherwise. *)
Lemma turn_exact (cap : nat) (l u b : cstring) (eol : option nat) :
  length u <= cap -> length b <= cap ->
  (if keyword_and_space l then
     u' <- put_line cap u l ;; Ok (u', b, eol)
   else if 0 <? length l then
     b' <- put_line cap b l ;; Ok (u, b', eol)
   else Ok (u, b, eol))
  = if (length (u ++ to_declarations l) <=? cap)
       && (length (b ++ to_body l) <=? cap)
    then Ok (u ++ to_declarations l, b ++ to_body l, eol)
    else Fault.
Proof.
  intros Hu Hb.
  destruct ((length (u ++ to_declarations l) <=? cap)
            && (length (b ++ to_body l) <=? cap)) eqn:E.
  - apply andb_true_iff in E. destruct E as [E1 E2].
    apply Nat.leb_le in E1, E2. now apply turn_writes.
  - revert E. unfold to_declarations, to_body, put_line.
    destruct (keyword_and_space l); cbn [negb andb].
    + rewrite app_nil_r, !length_app. cbn [length].
      replace (length b <=? cap) with true
        by (symmetry; now apply Nat.leb_le).
      rewrite andb_true_r.
      replace (length u + (length l + 1)) with (length u + length l + 1) by lia.
      now intros ->.
    + destruct (length l) as [|n] eqn:Ln.
      * cbn [Nat.eqb negb Nat.ltb Nat.leb]. rewrite !app_nil_r.
        replace (length u <=? cap) with true
          by (symmetry; now apply Nat.leb_le).
        replace (length b <=? cap) with true
          by (symmetry; now apply Nat.leb_le).
        discriminate.
      * cbn [Nat.eqb negb]. rewrite app_nil_r, !length_app. cbn [length].
        replace (length u <=? cap) with true
          by (symmetry; now apply Nat.leb_le).
        rewrite andb_true_l, Ln.
        replace (0 <? S n) with true by (symmetry; apply Nat.ltb_lt; lia).
        replace (length b + (S n + 1)) with (length b + S n + 1) by lia.
        now intros ->.
Qed.

Lemma split_turn_line_exact (cap : nat) (l rest u b : cstring) :
  ~ In nl l -> length u <= cap -> length b <= cap ->
  split_turn cap (l ++ nl :: rest) u b
  = if (length (u ++ to_declarations l) <=? cap)
       && (length (b ++ to_body l) <=? cap)
    then Ok (u ++ to_declarations l, b ++ to_body l, Some (length l))
    else Fault.
Proof.
  intros N Hu Hb. unfold split_turn.
  rewrite strchr_line, uniform_test_line by assumption.
  rewrite firstn_app, Nat.sub_diag, firstn_all, firstn_O, app_nil_r.
  now apply turn_exact.
Qed.

Lemma split_turn_last_exact (cap : nat) (l u b : cstring) :
  ~ In nl l -> length u <= cap -> length b <= cap ->
  split_turn cap l u b
  = if (length (u ++ to_declarations l) <=? cap)
       && (length (b ++ to_body l) <=? cap)
    then Ok (u ++ to_declarations l, b ++ to_body l, None)
    else Fault.
Proof.
  intros N Hu Hb. unfold split_turn.
  assert (strchr l nl = None) as ->.
  { destruct (strchr l nl) as [e|] eqn:E; [|reflexivity].
    apply strchr_found in E. destruct E as [E _].
    exfalso. apply N. rewrite E. apply in_or_app. right. now left. }
  rewrite uniform_test_last. unfold strlen. rewrite firstn_all.
  now apply turn_exact.
Qed.

(** Once a buffer is over its bounds, more text does not bring it back. *)
Lemma over_stays_over (cap : nat) (u du du' b db db' : cstring) :
  (length (u ++ du) <=? cap) && (length (b ++ db) <=? cap) = false ->
  (length (u ++ du ++ du') <=? cap) && (length (b ++ db ++ db') <=? cap)
  = false.
Proof.
  intro H. apply andb_false_iff in H. apply andb_false_iff.
  rewrite !Nat.leb_gt in *. rewrite !length_app in *. lia.
Qed.

(** The loop from buffers within bounds: it writes both parts if they
    fit, and goes out of bounds otherwise. *)
Lemma split_loop_exact (cap : nat) :
  forall (n : nat) (line u b : cstring),
    length line <= n -> length u <= cap -> length b <= cap ->
    split_loop cap line u b
    = if (length (u ++ declarations line) <=? cap)
         && (length (b ++ body line) <=? cap)
      then Ok (u ++ declarations line, b ++ body line)
      else Fault.
Proof.
  assert (forall u b : cstring, length u <= cap -> length b <= cap ->
            split_loop cap [] u b
            = if (length (u ++ declarations []) <=? cap)
                 && (length (b ++ body []) <=? cap)
              then Ok (u ++ declarations [], b ++ body [])
              else Fault) as Empty.
  { intros u b Hu Hb. simp split_loop. unfold declarations, body. simpl.
    rewrite !app_nil_r.
    replace (length u <=? cap) with true by (symmetry; now apply Nat.leb_le).
    replace (length b <=? cap) with true by (symmetry; now apply Nat.leb_le).
    reflexivity. }
  induction n as [|n IH]; intros line u b Ln Hu Hb.
  - destruct line; [|simpl in Ln; lia]. now apply Empty.
  - destruct line as [|c line']; [now apply Empty|].
    destruct (first_line (c :: line')) as [(l & rest & E & N)|N].
    + rewrite E. rewrite declarations_line, body_line by assumption.
      pose proof (@split_turn_line_exact cap l rest u b N Hu Hb) as T.
      rewrite <- E in T |- *. simp split_loop. rewrite T.
      assert (skipn (length l) line' = rest) as Sk.
      { change (skipn (S (length l)) (c :: line') = rest). rewrite E.
        change (nl :: rest) with ([nl] ++ rest). rewrite app_assoc.
        rewrite skipn_app.
        replace (S (length l)) with (length (l ++ [nl]))
          by (rewrite length_app; simpl; lia).
        rewrite skipn_all, Nat.sub_diag. reflexivity. }
      destruct ((length (u ++ to_declarations l) <=? cap)
                && (length (b ++ to_body l) <=? cap)) eqn:Fit.
      * simpl. rewrite Sk.
        apply andb_true_iff in Fit. destruct Fit as [F1 F2].
        apply Nat.leb_le in F1, F2.
        rewrite IH, <- !app_assoc; try assumption; try reflexivity.
        rewrite E, length_app in Ln. simpl in Ln. lia.
      * simpl.
        now rewrite (@over_stays_over cap u _ (declarations rest) b _
                       (body rest) Fit).
    + rewrite declarations_last, body_last by (assumption || discriminate).
      pose proof (@split_turn_last_exact cap (c :: line') u b N Hu Hb) as T.
      simp split_loop. rewrite T.
      destruct ((length (u ++ to_declarations (c :: line')) <=? cap)
                && (length (b ++ to_body (c :: line')) <=? cap));
        reflexivity.
Qed.

(** Dropping a line makes the text shorter. *)
Lemma unlines_filter_shorter (f : cstring -> bool) (ls : list cstring) :
  forallb f ls = false ->
  length (unlines (filter f ls)) < length (unlines ls).
Proof.
  induction ls as [|l ls IH]; intro H; simpl in *; [discriminate|].
  destruct (f l); simpl in *.
  - specialize (IH H). rewrite !length_app. simpl. lia.
  - pose proof (unlines_filter_length f ls). rewrite length_app. simpl. lia.
Qed.

Lemma filter_keeps_all {A : Type} (f : A -> bool) (ls : list A) :
  forallb f ls = true -> filter f ls = ls.
Proof.
  induction ls as [|l ls IH]; intro H; simpl in *; [reflexivity|].
  apply andb_true_iff in H. destruct H as [H1 H2].
  now rewrite H1, IH.
Qed.

(** A text whose last character is no newline, read as lines and written
    back, has gained the newline. *)
Lemma unlines_lines_open (c : ascii) (s : cstring) :
  c <> nl -> unlines (lines (s ++ [c])) = s ++ [c; nl].
Proof.
  intro Ne. apply Ascii.eqb_neq in Ne.
  induction s as [|x s IH]; simpl.
  - rewrite Ne. reflexivity.
  - destruct (Ascii.eqb x nl) eqn:E.
    + apply Ascii.eqb_eq in E. subst. simpl. now rewrite IH.
    + destruct (lines (s ++ [c])) as [|l ls] eqn:L; simpl in *.
      * destruct s; discriminate.
      * now rewrite IH.
Qed.

(** [split_user_code] from its two results. *)
Lemma split_user_code_exact (code : cstring) :
  split_user_code code
  = if (length (declarations code) <=? length code)
       && (length (body code) <=? length code)
    then Ok (declarations code, body code)
    else Fault.
Proof.
  unfold split_user_code, strlen.
  rewrite (@split_loop_exact (length code + 1) (length code) code [] []);
    simpl; try lia.
  unfold terminate.
  destruct (length (declarations code) <=? length code) eqn:D;
    destruct (length (body code) <=? length code) eqn:B;
    try apply Nat.leb_le in D; try apply Nat.leb_gt in D;
    try apply Nat.leb_le in B; try apply Nat.leb_gt in B; cbn [andb].
  + replace (length (declarations code) <=? length code + 1) with true
      by (symmetry; apply Nat.leb_le; lia).
    replace (length (body code) <=? length code + 1) with true
      by (symmetry; apply Nat.leb_le; lia).
    cbn [obind andb].
    replace (length (declarations code) <? length code + 1) with true
      by (symmetry; apply Nat.ltb_lt; lia).
    replace (length (body code) <? length code + 1) with true
      by (symmetry; apply Nat.ltb_lt; lia).
    reflexivity.
  + destruct ((length (declarations code) <=? length code + 1)
              && (length (body code) <=? length code + 1));
      [|reflexivity].
    cbn [obind andb].
    replace (length (body code) <? length code + 1) with false
      by (symmetry; apply Nat.ltb_ge; lia).
    destruct (length (declarations code) <? length code + 1); reflexivity.
  + destruct ((length (declarations code) <=? length code + 1)
              && (length (body code) <=? length code + 1));
      [|reflexivity].
    cbn [obind andb].
    replace (length (declarations code) <? length code + 1) with false
      by (symmetry; apply Nat.ltb_ge; lia).
    reflexivity.
  + destruct ((length (declarations code) <=? length code + 1)
              && (length (body code) <=? length code + 1));
      [|reflexivity].
    cbn [obind andb].
    replace (length (declarations code) <? length code + 1) with false
      by (symmetry; apply Nat.ltb_ge; lia).
    reflexivity.
Qed.

(** X6. [split_user_code] on every source: it returns the two parts (the
    lines starting with the keyword and a space, and the other non-empty
    lines) exactly when each part is no longer than the source, and writes
    past a buffer of [len + 1] bytes otherwise. Every source that ends in
    a newline is of the first kind; a source of one line that no newline
    closes is of the second. *)
Theorem split_succeeds_exactly_when_both_parts_fit (code : cstring) :
  split_user_code code
  = (if (length (declarations code) <=? length code)
        && (length (body code) <=? length code)
     then Ok (declarations code, body code)
     else Fault)
  /\ (forall s,
        code = s ++ [nl] ->
        split_user_code code = Ok (declarations code, body code))
  /\ (code <> [] -> ~ In nl code -> split_user_code code = Fault).
Proof.
  split; [|split].
  - apply split_user_code_exact.
  - intros s ->. destruct (closed_source_fits s) as [Hd Hb].
    now apply split_user_code_fits.
  - intros Ne N. now apply split_user_code_unterminated_line.
Qed.

(** X7. A source whose last character is no newline overruns a buffer
    exactly when all its lines land in the same buffer and none is
    dropped: when every line is a declaration, or when no line is a
    declaration and none is empty. In every other case the parts are
    returned. *)
Theorem open_source_overruns_when_one_buffer_takes_all
    (s : cstring) (c : ascii) :
  c <> nl ->
  split_user_code (s ++ [c])
  = if forallb keyword_and_space (lines (s ++ [c]))
       || forallb (fun l => negb (keyword_and_space l)
                            && negb (Nat.eqb (length l) 0))
            (lines (s ++ [c]))
    then Fault
    else Ok (declarations (s ++ [c]), body (s ++ [c])).
Proof.
  intro Ne.
  rewrite (split_user_code_exact (s ++ [c])).
  pose proof (unlines_lines_open s Ne) as U.
  assert (length (unlines (lines (s ++ [c]))) = S (length (s ++ [c]))) as LU
    by (rewrite U, !length_app; simpl; lia).
  unfold declarations, body.
  set (L := lines (s ++ [c])) in *.
  set (bodyp := fun l : cstring =>
                  negb (keyword_and_space l) && negb (Nat.eqb (length l) 0)).
  destruct (forallb keyword_and_space L) eqn:K.
  - rewrite (filter_keeps_all _ _ K). cbn [orb].
    replace (length (unlines L) <=? length (s ++ [c])) with false
      by (symmetry; apply Nat.leb_gt; lia).
    reflexivity.
  - pose proof (unlines_filter_shorter _ _ K) as Kd.
    replace (length (unlines (filter keyword_and_space L))
             <=? length (s ++ [c])) with true
      by (symmetry; apply Nat.leb_le; lia).
    cbn [orb andb].
    destruct (forallb bodyp L) eqn:B.
    + rewrite (filter_keeps_all _ _ B).
      replace (length (unlines L) <=? length (s ++ [c])) with false
        by (symmetry; apply Nat.leb_gt; lia).
      reflexivity.
    + pose proof (unlines_filter_shorter _ _ B) as Bd.
      replace (length (unlines (filter bodyp L)) <=? length (s ++ [c]))
        with true
        by (symmetry; apply Nat.leb_le; lia).
      reflexivity.
Qed.

Lemma lines_without_newline (s : cstring) :
  Forall (fun l => ~ In nl l) (lines s).
Proof.
  induction s as [|x s IH]; simpl; [constructor|].
  destruct (Ascii.eqb x nl) eqn:E.
  - constructor; [intros []|exact IH].
  - apply Ascii.eqb_neq in E.
    destruct (lines s) as [|l ls].
    + constructor; [|constructor]. intros [H|[]]. congruence.
    + inversion IH as [|? ? Hl Hls]; subst. constructor; [|exact Hls].
      intros [H|H]; [congruence|contradiction].
Qed.

(** Lines written one after the other are read back as they were. *)
Lemma lines_unlines (ls : list cstring) :
  Forall (fun l => ~ In nl l) ls -> lines (unlines ls) = ls.
Proof.
  induction 1 as [|l ls Hl _ IH]; simpl; [reflexivity|].
  now rewrite lines_line, IH.
Qed.

Lemma filter_without_newline (f : cstring -> bool) (ls : list cstring) :
  Forall (fun l => ~ In nl l) ls -> Forall (fun l => ~ In nl l) (filter f ls).
Proof.
  induction 1 as [|l ls Hl _ IH]; simpl; [constructor|].
  destruct (f l); [constructor|]; assumption.
Qed.

Lemma filter_twice {A : Type} (f : A -> bool) (ls : list A) :
  filter f (filter f ls) = filter f ls.
Proof.
  induction ls as [|l ls IH]; simpl; [reflexivity|].
  destruct (f l) eqn:E; simpl; [rewrite E|]; now rewrite ?IH.
Qed.

Lemma filter_apart {A : Type} (f g : A -> bool) (ls : list A) :
  (forall x, f x = true -> g x = false) -> filter g (filter f ls) = [].
Proof.
  intro H. induction ls as [|l ls IH]; simpl; [reflexivity|].
  destruct (f l) eqn:E; simpl; [rewrite (H l E)|]; exact IH.
Qed.

(** X8. The split is stable: the declarations it returns, split again,
    are all declarations and leave an empty body; the body it returns,
    split again, is all body and leaves no declaration. Neither of these
    second splits can overrun a buffer. *)
Theorem split_parts_split_to_themselves (code : cstring) :
  split_user_code (declarations code) = Ok (declarations code, [])
  /\ split_user_code (body code) = Ok ([], body code).
Proof.
  pose proof (lines_without_newline code) as N.
  assert (declarations (declarations code) = declarations code) as DD.
  { unfold declarations.
    rewrite lines_unlines by (now apply filter_without_newline).
    now rewrite filter_twice. }
  assert (body (declarations code) = []) as BD.
  { unfold declarations, body.
    rewrite lines_unlines by (now apply filter_without_newline).
    rewrite filter_apart; [reflexivity|].
    intros l K. now rewrite K. }
  assert (body (body code) = body code) as BB.
  { unfold body.
    rewrite lines_unlines by (now apply filter_without_newline).
    now rewrite filter_twice. }
  assert (declarations (body code) = []) as DB.
  { unfold declarations, body.
    rewrite lines_unlines by (now apply filter_without_newline).
    rewrite filter_apart; [reflexivity|].
    intros l K. apply andb_true_iff in K. destruct K as [K _].
    now apply negb_true_iff in K. }
  split.
  - rewrite (split_user_code_exact (declarations code)).
    rewrite DD, BD, Nat.leb_refl. reflexivity.
  - rewrite (split_user_code_exact (body code)).
    rewrite BB, DB, Nat.leb_refl. reflexivity.
Qed.

End Splitting.

(* ===================================================================== *)
(** * The composition, on every template *)
(* ===================================================================== *)

Section Composing.

Import Compose Protocol.

(** Where [strstr] finds the needle, the needle is, within the text. *)
Lemma strstr_sound (needle : cstring) :
  forall (hay : cstring) (i : nat),
    strstr hay needle = Some i ->
    starts_with needle (skipn i hay) = true
    /\ i <= length hay.
Proof.
  induction hay as [|x hay IH]; intros i H; simpl in H.
  - destruct (starts_with needle []) eqn:E; [|discriminate].
    inversion H; subst. simpl. auto.
  - destruct (starts_with needle (x :: hay)) eqn:E.
    + inversion H; subst. simpl. split; [exact E|lia].
    + destruct (strstr hay needle) as [j|] eqn:F; [|discriminate].
      inversion H; subst. destruct (IH j eq_refl) as [S L].
      simpl. split; [exact S|lia].
Qed.

(** Where [strstr] finds nothing, the needle is nowhere. *)
Lemma strstr_nowhere (needle : cstring) :
  forall hay : cstring,
    strstr hay needle = None ->
    forall i, starts_with needle (skipn i hay) = false.
Proof.
  induction hay as [|x hay IH]; intros H i; simpl in H.
  - destruct (starts_with needle []) eqn:E; [discriminate|].
    now rewrite skipn_nil.
  - destruct (starts_with needle (x :: hay)) eqn:E; [discriminate|].
    destruct (strstr hay needle) as [j|] eqn:F; [discriminate|].
    destruct i as [|i]; [exact E|]. simpl. now apply IH.
Qed.

Lemma starts_with_length (needle : cstring) :
  forall s, starts_with needle s = true -> length needle <= length s.
Proof.
  induction needle as [|y needle IH]; intros [|x s] H; simpl in *;
    try lia; try discriminate.
  apply andb_true_iff in H. destruct H as [_ H]. apply IH in H. lia.
Qed.

(** X9. [compose_fragment_shader] returns NULL exactly when the template
    has no [#version] anywhere, or no marker anywhere, or the allocation
    of the buffer fails, whatever the user's parts are; the buffer it asks
    for has the length of the template and of the two parts, less the
    marker, and one byte for the terminator. When it returns a text, the
    marker is what went away and the user's parts are what came in: the
    text fills the buffer but for the terminator. *)
Theorem composition_fails_for_want_of_a_landmark_or_of_memory
    (RL_MALLOC : nat -> bool) (baseShader userUniforms userBody : cstring) :
  let totalLen := length baseShader + length userUniforms + length userBody
                  + 1 - length USER_FRAGMENT_MARKER in
  (compose_fragment_shader RL_MALLOC baseShader userUniforms userBody = Ok None
   <-> (forall i, starts_with (lit "#version") (skipn i baseShader) = false)
       \/ (forall i,
             starts_with USER_FRAGMENT_MARKER (skipn i baseShader) = false)
       \/ RL_MALLOC totalLen = false)
  /\ (forall composed,
        compose_fragment_shader RL_MALLOC baseShader userUniforms userBody
        = Ok (Some composed) ->
        RL_MALLOC totalLen = true
        /\ length composed + 1 = totalLen
        /\ length composed + length USER_FRAGMENT_MARKER
           = length baseShader + length userUniforms + length userBody).
Proof.
  intro totalLen. unfold compose_fragment_shader.
  destruct (strstr baseShader (lit "#version")) as [v|] eqn:V.
  2:{ split.
      - split; [intros _; left; now apply strstr_nowhere|reflexivity].
      - intros composed H. discriminate. }
  destruct (strstr baseShader USER_FRAGMENT_MARKER) as [k|] eqn:K.
  2:{ split.
      - split; [intros _; right; left; now apply strstr_nowhere|reflexivity].
      - intros composed H. discriminate. }
  set (versionEnd := match strchr (skipn v baseShader) nl with
                     | Some e => v + e + 1
                     | None => v + strlen (skipn v baseShader)
                     end).
  pose proof (strstr_sound _ _ V) as [Vs _].
  pose proof (strstr_sound _ _ K) as [Ks Lk].
  pose proof (starts_with_length _ _ Ks) as Km.
  rewrite length_skipn in Km.
  cbv zeta. unfold strlen. rewrite length_skipn.
  match goal with
  | |- context [RL_MALLOC ?n] =>
      replace n with totalLen by (unfold totalLen; lia)
  end.
  clearbody versionEnd.
  destruct (RL_MALLOC totalLen) eqn:M; cbn [negb].
  - destruct (Z.of_nat k - Z.of_nat versionEnd <? 0)%Z eqn:Lt.
    + split.
      * split; [discriminate|].
        intros [H|[H|H]]; [now rewrite H in Vs|now rewrite H in Ks|discriminate].
      * intros composed H. discriminate.
    + apply Z.ltb_ge in Lt. split.
      * split; [discriminate|].
        intros [H|[H|H]]; [now rewrite H in Vs|now rewrite H in Ks|discriminate].
      * intros composed H. inversion H; subst composed. clear H.
        split; [reflexivity|].
        rewrite !length_app, !length_firstn, !length_skipn.
        unfold totalLen.
        change (length USER_FRAGMENT_MARKER) with 34 in *. lia.
  - split.
    + split; [intros _; right; right; reflexivity|reflexivity].
    + intros composed H. discriminate.
Qed.

End Composing.

(* ===================================================================== *)
(** * Creating and destroying a shader *)
(* ===================================================================== *)

Section Creation.

Import Discover Protocol Create Resources.

Local Open Scope Z_scope.

Variable d : driver.
Variables GEOMETRY_VERT GEOMETRY_FRAG : cstring.

Lemma accounts_app (t1 t2 : list call) :
  forall s,
    accounts (t1 ++ t2) s
    = match accounts t1 s with
      | Some s' => accounts t2 s'
      | None => None
      end.
Proof.
  induction t1 as [|c t1 IH]; intro s; simpl; [reflexivity|].
  destruct (account c s); [apply IH|reflexivity].
Qed.

(** The discovery loop leaves the program of the shader alone. *)
Lemma discover_loop_program (location : cstring -> Z)
    (active : list GL.active_uniform) :
  forall sh gl,
    R3D_Shader.program (fst (discover_loop location active sh gl))
    = R3D_Shader.program sh.
Proof.
  induction active as [|u rest IH]; intros sh g; cbn [discover_loop];
    [reflexivity|].
  destruct (R3D_Shader.customUniformCount sh <? Z.of_nat R3D_MAX_CUSTOM_UNIFORMS);
    [|reflexivity].
  destruct (isBuiltin (GL.au_name u) builtinUniforms); [apply IH|].
  destruct (strncmp_eq (GL.au_name u) (lit "gl_") 3); [apply IH|].
  destruct (strchr (GL.au_name u) "["%char); [apply IH|].
  destruct (register location u sh) as [sh' calls] eqn:R.
  rewrite IH.
  unfold register in R.
  destruct (map_gl_type (GL.au_type u)) as [[]|]; inversion R; reflexivity.
Qed.

(** What discovery sends on a freshly created shader. *)
Lemma discover_fresh_calls (location : cstring -> Z) (program : Z)
    (active : list GL.active_uniform) :
  snd (discover_custom_uniforms location active (R3D_Shader.fresh program))
  = sampler_bindings program
      (describe location 5 (firstn 16 (eligible active))).
Proof.
  assert (discovering
            {| R3D_Shader.program := program;
               R3D_Shader.customUniforms :=
                 repeat R3D_UniformInfo.zero R3D_MAX_CUSTOM_UNIFORMS;
               R3D_Shader.customUniformCount := 0;
               R3D_Shader.nextTexSlot := FIRST_CUSTOM_TEX_SLOT |}) as D.
  { split; [reflexivity|simpl; lia]. }
  pose proof (@discover_loop_spec location active _ [] D) as H.
  cbv zeta in H. destruct H as (_ & _ & G). exact G.
Qed.

(** The bindings of discovery use the program, which is alive. *)
Lemma accounts_sampler_bindings (program : Z) (l : list R3D_UniformInfo.t)
    (s : live) :
  alive Z.eqb program (programs s) = true ->
  accounts (map gl (sampler_bindings program l)) s = Some s.
Proof.
  intro A. unfold sampler_bindings.
  induction (filter is_sampler l) as [|i rest IH]; [reflexivity|].
  cbn [flat_map app map accounts account].
  rewrite A, orb_true_r. cbn [provided]. exact IH.
Qed.

Lemma accounts_sampler_unit (location unit : Z) (s : live) :
  accounts (sampler_unit location unit) s = Some s.
Proof. unfold sampler_unit. destruct (0 <=? location); reflexivity. Qed.

(** Filling the structure uses the program and leaves everything alive. *)
Lemma accounts_fill (program : Z) (s : live) :
  alive Z.eqb program (programs s) = true ->
  accounts (snd (fill d program)) s = Some s
  /\ R3D_Shader.program (custom (fst (fill d program))) = program.
Proof.
  intro A. unfold fill.
  pose proof (discover_fresh_calls (uniform_location d program) program
                (active_uniforms d program)) as G.
  pose proof (discover_loop_program (uniform_location d program)
                (active_uniforms d program)
                {| R3D_Shader.program := program;
                   R3D_Shader.customUniforms :=
                     repeat R3D_UniformInfo.zero R3D_MAX_CUSTOM_UNIFORMS;
                   R3D_Shader.customUniformCount := 0;
                   R3D_Shader.nextTexSlot := FIRST_CUSTOM_TEX_SLOT |} [])
    as P.
  change (R3D_Shader.program
            (fst (discover_custom_uniforms (uniform_location d program)
                    (active_uniforms d program) (R3D_Shader.fresh program)))
          = program) in P.
  destruct (discover_custom_uniforms (uniform_location d program)
              (active_uniforms d program) (R3D_Shader.fresh program))
    as [sh found].
  cbn [fst snd] in *. subst found. split; [|exact P].
  rewrite accounts_app, accounts_sampler_bindings by exact A.
  rewrite accounts_app.
  assert (accounts
            (if uniform_block_index d program (lit "ViewBlock")
                =? GL_INVALID_INDEX
             then []
             else [glUniformBlockBinding program
                     (uniform_block_index d program (lit "ViewBlock")) 0]) s
          = Some s) as ->.
  { destruct (_ =? GL_INVALID_INDEX); [reflexivity|].
    cbn [accounts account]. rewrite A. reflexivity. }
  cbn [app accounts account]. rewrite A, orb_true_r. cbn [provided].
  repeat (rewrite accounts_app, accounts_sampler_unit).
  cbn [accounts account orb provided]. rewrite Z.eqb_refl. reflexivity.
Qed.

Ltac reckon :=
  repeat match goal with
         | H : (_ =? _) = _ |- _ => rewrite H
         | |- _ => rewrite Z.eqb_refl
         | |- _ => progress unfold on_blocks, on_shaders, on_programs,
                     provided, alive
         | |- _ => progress cbn [accounts account app fst snd take existsb
                                block_eqb blocks shaders programs orb andb negb]
         end.

(** The part of creation that follows the composition: what it leaves
    alive, and the program of the shader it returns. *)
Lemma accounts_build (composed : cstring) :
  accounts (snd (build d GEOMETRY_VERT composed))
    {| blocks := [composedFrag]; shaders := []; programs := [] |}
  = Some (left_by (fst (build d GEOMETRY_VERT composed)))
  /\ (forall sh,
        fst (build d GEOMETRY_VERT composed) = Some sh ->
        R3D_Shader.program (custom sh) = created_program d
        /\ created_program d <> 0).
Proof.
  unfold build, compile_shader_source, link_shader_program.
  set (vs := created_shader d GL_VERTEX_SHADER).
  set (fs := created_shader d GL_FRAGMENT_SHADER).
  set (p := created_program d).
  destruct (vs =? 0) eqn:Ev.
  { reckon. split; [reflexivity|discriminate]. }
  destruct (compiled d vs GEOMETRY_VERT).
  2:{ reckon. split; [reflexivity|discriminate]. }
  rewrite Ev.
  destruct (fs =? 0) eqn:Ef.
  { reckon. split; [reflexivity|discriminate]. }
  destruct (compiled d fs composed).
  2:{ reckon. split; [reflexivity|discriminate]. }
  rewrite Ef.
  assert ((vs =? fs) = (fs =? vs)) as Sym by apply Z.eqb_sym.
  destruct (fs =? vs) eqn:Efv.
  - destruct (p =? 0) eqn:Ep.
    { reckon. split; [reflexivity|discriminate]. }
    destruct (linked d p vs fs).
    2:{ reckon. split; [reflexivity|discriminate]. }
    rewrite Ep.
    destruct (allocated d).
    2:{ reckon. split; [reflexivity|discriminate]. }
    cbn [negb].
    destruct (@accounts_fill p
                {| blocks := [shaderStruct]; shaders := []; programs := [p] |})
      as [Fa Fp].
    { cbn [alive existsb programs]. now rewrite Z.eqb_refl. }
    destruct (fill d p) as [sh t5]. cbn [fst snd] in Fa, Fp |- *.
    reckon. rewrite Fa. unfold left_by. rewrite Fp.
    split; [reflexivity|].
    intros sh' E. inversion E; subst sh'.
    split; [exact Fp|]. now apply Z.eqb_neq.
  - destruct (p =? 0) eqn:Ep.
    { reckon. split; [reflexivity|discriminate]. }
    destruct (linked d p vs fs).
    2:{ reckon. split; [reflexivity|discriminate]. }
    rewrite Ep.
    destruct (allocated d).
    2:{ reckon. split; [reflexivity|discriminate]. }
    cbn [negb].
    destruct (@accounts_fill p
                {| blocks := [shaderStruct]; shaders := []; programs := [p] |})
      as [Fa Fp].
    { cbn [alive existsb programs]. now rewrite Z.eqb_refl. }
    destruct (fill d p) as [sh t5]. cbn [fst snd] in Fa, Fp |- *.
    reckon. rewrite Fa. unfold left_by. rewrite Fp.
    split; [reflexivity|].
    intros sh' E. inversion E; subst sh'.
    split; [exact Fp|]. now apply Z.eqb_neq.
Qed.

(** The whole of creation, for a source that the split and the
    composition handle without fault. *)
Lemma create_accounts (code : cstring) (c : option cstring) :
  Compose.compose_user_fragment (text_allocated d) GEOMETRY_FRAG (Some code)
  = Ok c ->
  exists r t,
    R3D_CreateCustomShader d GEOMETRY_VERT GEOMETRY_FRAG (Some code) = Ok (r, t)
    /\ accounts t nothing = Some (left_by r)
    /\ (c = None ->
        r = None /\ forallb (fun x => negb (asks_gl x)) t = true)
    /\ (forall sh,
          r = Some sh ->
          R3D_Shader.program (custom sh) = created_program d
          /\ created_program d <> 0).
Proof.
  intro H. destruct code as [|a code'].
  - exists None, []. simpl in H. inversion H; subst.
    repeat split; try reflexivity; discriminate.
  - unfold Compose.compose_user_fragment in H. unfold R3D_CreateCustomShader.
    destruct (Compose.split_user_code (a :: code')) as [[u b]|];
      [|discriminate].
    cbn [obind] in *. rewrite H. cbn [obind].
    destruct c as [text|].
    + destruct (accounts_build text) as [Ab Pb].
      destruct (build d GEOMETRY_VERT text) as [r t].
      cbn [fst snd] in Ab, Pb.
      exists r. eexists. split; [reflexivity|].
      split; [reckon; exact Ab|].
      split; [discriminate|exact Pb].
    + eexists. eexists. split; [reflexivity|].
      split; [reflexivity|]. split; [split; reflexivity|discriminate].
Qed.


(** X11. A shader that was created and is then destroyed leaves nothing
    behind: after the calls of [R3D_CreateCustomShader] followed by those
    of [R3D_DestroyCustomShader] on its result no heap block, shader
    object or program is alive, and none was released twice. For a shader
    that was returned, the program that is deleted is the one
    [R3D_GetCustomShaderProgram] reports, which is not 0; destroying NULL
    makes no call. *)
Theorem destroying_a_created_shader_leaves_nothing
    (code : cstring) (c : option cstring) :
  Compose.compose_user_fragment (text_allocated d) GEOMETRY_FRAG (Some code)
  = Ok c ->
  (exists r t,
     R3D_CreateCustomShader d GEOMETRY_VERT GEOMETRY_FRAG (Some code)
     = Ok (r, t)
     /\ accounts (t ++ R3D_DestroyCustomShader r) nothing = Some nothing
     /\ (r <> None ->
         R3D_GetCustomShaderProgram r <> 0
         /\ R3D_DestroyCustomShader r
            = [glDeleteProgram (R3D_GetCustomShaderProgram r);
               RL_FREE shaderStruct]))
  /\ R3D_DestroyCustomShader None = []
  /\ R3D_GetCustomShaderProgram None = 0.
Proof.
  intro H. split; [|split; reflexivity].
  destruct (create_accounts code H) as (r & t & E & A & _ & P).
  exists r, t. split; [exact E|].
  rewrite accounts_app, A.
  destruct r as [sh|].
  - destruct (P sh eq_refl) as [Pp Pn].
    assert ((R3D_Shader.program (custom sh) =? 0) = false) as Z0
      by (apply Z.eqb_neq; congruence).
    unfold R3D_DestroyCustomShader, R3D_GetCustomShaderProgram, left_by.
    rewrite Z0. split.
    + reckon. reflexivity.
    + intros _. split; [congruence|reflexivity].
  - split; [reflexivity|]. intro N. now elim N.
Qed.

Lemma units_app (t1 t2 : list call) : units (t1 ++ t2) = units t1 ++ units t2.
Proof.
  induction t1 as [|c t1 IH]; simpl; [reflexivity|].
  destruct c as [| | | | | | | | | | | |g]; try exact IH.
  destruct g; simpl; now rewrite ?IH.
Qed.

Lemma units_sampler_bindings (program : Z) (l : list R3D_UniformInfo.t) :
  units (map gl (sampler_bindings program l))
  = map R3D_UniformInfo.texSlot (filter is_sampler l).
Proof.
  unfold sampler_bindings.
  induction (filter is_sampler l) as [|i rest IH]; simpl; [reflexivity|].
  now rewrite IH.
Qed.

Lemma units_sampler_unit (location unit : Z) :
  units (sampler_unit location unit) = unit_of location unit.
Proof.
  unfold sampler_unit, unit_of. destruct (0 <=? location); reflexivity.
Qed.

Lemma sampler_unit_in (location unit : Z) :
  0 <= location ->
  In (gl (GL.glUniform1i location unit)) (sampler_unit location unit).
Proof.
  intro L. unfold sampler_unit.
  replace (0 <=? location) with true by (symmetry; now apply Z.leb_le).
  now left.
Qed.

(** What a successful creation ends with. *)
Lemma build_success (composed : cstring) (sh : shader_object) :
  fst (build d GEOMETRY_VERT composed) = Some sh ->
  exists pre,
    snd (build d GEOMETRY_VERT composed)
    = pre ++ snd (fill d (created_program d))
    /\ units pre = []
    /\ sh = fst (fill d (created_program d)).
Proof.
  unfold build, compile_shader_source, link_shader_program.
  set (vs := created_shader d GL_VERTEX_SHADER).
  set (fs := created_shader d GL_FRAGMENT_SHADER).
  set (p := created_program d).
  destruct (vs =? 0) eqn:Ev; [discriminate|].
  destruct (compiled d vs GEOMETRY_VERT); [|discriminate]. rewrite Ev.
  destruct (fs =? 0) eqn:Ef; [discriminate|].
  destruct (compiled d fs composed); [|discriminate]. rewrite Ef.
  destruct (p =? 0) eqn:Ep; [discriminate|].
  destruct (linked d p vs fs); [|discriminate]. rewrite Ep.
  destruct (allocated d); [|discriminate]. cbn [negb].
  destruct (fill d p) as [sh' t5]. cbn [fst snd].
  intro E. inversion E; subst sh'.
  eexists. split; [|split; [|reflexivity]].
  - rewrite app_assoc. reflexivity.
  - reflexivity.
Qed.

Lemma slots_from_range (n : nat) :
  forall first x, In x (slots_from first n) -> first <= x < first + Z.of_nat n.
Proof.
  induction n as [|n IH]; intros first x H; [contradiction|].
  cbn [slots_from] in H. destruct H as [<-|H]; [lia|].
  apply IH in H. lia.
Qed.

Lemma slots_from_apart (n : nat) : forall first, NoDup (slots_from first n).
Proof.
  induction n as [|n IH]; intro first; cbn [slots_from]; constructor.
  - intro H. apply slots_from_range in H. lia.
  - apply IH.
Qed.

Lemma unit_of_range (location unit : Z) :
  forall x, In x (unit_of location unit) -> x = unit.
Proof.
  unfold unit_of. destruct (0 <=? location); intros x H;
    [destruct H as [<-|[]]; reflexivity|contradiction].
Qed.

Lemma builtin_units_apart (sh : option shader_object) :
  NoDup (builtin_units sh) /\ forall x, In x (builtin_units sh) -> 0 <= x < 5.
Proof.
  unfold builtin_units, unit_of.
  destruct (0 <=? R3D_CustomShaderGetTexBoneMatricesLoc sh);
    destruct (0 <=? R3D_CustomShaderGetTexAlbedoLoc sh);
    destruct (0 <=? R3D_CustomShaderGetTexNormalLoc sh);
    destruct (0 <=? R3D_CustomShaderGetTexEmissionLoc sh);
    destruct (0 <=? R3D_CustomShaderGetTexORMLoc sh);
    (split;
     [repeat constructor; simpl; intuition discriminate
     |intros x H; simpl in H;
      repeat (destruct H as [<-|H]; [lia|]); contradiction]).
Qed.

(** The units bound while the structure is filled: those of the
    discovered samplers, then those of the built-in samplers. *)
Lemma units_fill (program : Z) :
  let sh := fst (fill d program) in
  let n := length (filter is_sampler (R3D_Shader.registered (custom sh))) in
  units (snd (fill d program)) = slots_from 5 n ++ builtin_units (Some sh)
  /\ (n <= 16)%nat
  /\ builtin sh = cache_builtin_uniforms (uniform_location d program).
Proof.
  unfold fill.
  pose proof (discover_fresh_calls (uniform_location d program) program
                (active_uniforms d program)) as G.
  pose proof (@discover_fresh_registered (uniform_location d program) program
                (active_uniforms d program)) as R.
  destruct (discover_custom_uniforms (uniform_location d program)
              (active_uniforms d program) (R3D_Shader.fresh program))
    as [sh found].
  cbn [fst snd custom builtin] in *. subst found. rewrite R.
  set (found := firstn 16 (eligible (active_uniforms d program))).
  split; [|split; [|reflexivity]].
  - rewrite units_app, units_sampler_bindings, describe_slots.
    f_equal. rewrite units_app.
    assert (units
              (if uniform_block_index d program (lit "ViewBlock")
                  =? GL_INVALID_INDEX
               then []
               else [glUniformBlockBinding program
                       (uniform_block_index d program (lit "ViewBlock")) 0])
            = []) as ->
      by (destruct (_ =? GL_INVALID_INDEX); reflexivity).
    cbn [app units].
    rewrite !units_app, !units_sampler_unit. cbn [units].
    unfold builtin_units. cbn. now rewrite app_nil_r.
  - pose proof (filter_length_le is_sampler
                  (describe (uniform_location d program) 5 found)).
    pose proof (@describe_is_short (uniform_location d program) found 5).
    assert (length found <= 16)%nat by apply firstn_le_length.
    lia.
Qed.

(** X12. In a shader that creation returns every sampler has a texture
    unit of its own: the units bound during creation are 5, 6, ... for the
    discovered samplers followed by 0 for the bone matrices, 1 for albedo,
    2 for normal, 3 for emission and 4 for ORM, each of these five only if
    the program has the uniform; no unit is bound twice, all lie below 21;
    and a built-in sampler whose location the getter reports as
    non-negative was bound to its unit. *)
Theorem created_samplers_have_units_of_their_own
    (code : cstring) (sh : shader_object) (t : list call) :
  R3D_CreateCustomShader d GEOMETRY_VERT GEOMETRY_FRAG (Some code)
  = Ok (Some sh, t) ->
  units t
  = slots_from 5
      (length (filter is_sampler (R3D_Shader.registered (custom sh))))
    ++ builtin_units (Some sh)
  /\ NoDup (units t)
  /\ Forall (fun u => 0 <= u < 21) (units t)
  /\ (0 <= R3D_CustomShaderGetTexBoneMatricesLoc (Some sh) ->
      In (gl (GL.glUniform1i
                (R3D_CustomShaderGetTexBoneMatricesLoc (Some sh)) 0)) t)
  /\ (0 <= R3D_CustomShaderGetTexAlbedoLoc (Some sh) ->
      In (gl (GL.glUniform1i (R3D_CustomShaderGetTexAlbedoLoc (Some sh)) 1)) t)
  /\ (0 <= R3D_CustomShaderGetTexNormalLoc (Some sh) ->
      In (gl (GL.glUniform1i (R3D_CustomShaderGetTexNormalLoc (Some sh)) 2)) t)
  /\ (0 <= R3D_CustomShaderGetTexEmissionLoc (Some sh) ->
      In (gl (GL.glUniform1i (R3D_CustomShaderGetTexEmissionLoc (Some sh)) 3)) t)
  /\ (0 <= R3D_CustomShaderGetTexORMLoc (Some sh) ->
      In (gl (GL.glUniform1i (R3D_CustomShaderGetTexORMLoc (Some sh)) 4)) t).
Proof.
  intro H. unfold R3D_CreateCustomShader in H.
  destruct code as [|a code']; [discriminate|].
  destruct (Compose.split_user_code (a :: code')) as [[u b]|];
    [|discriminate].
  cbn [obind] in H.
  destruct (Compose.compose_fragment_shader (text_allocated d) GEOMETRY_FRAG
              u b) as [[text|]|];
    try discriminate.
  cbn [obind] in H.
  destruct (build d GEOMETRY_VERT text) as [r t'] eqn:B.
  inversion H; subst r t. clear H.
  assert (fst (build d GEOMETRY_VERT text) = Some sh) as B1 by now rewrite B.
  destruct (build_success text B1) as (pre & Bt & Up & Bs).
  rewrite B in Bt. cbn [snd] in Bt. subst t'.
  destruct (units_fill (created_program d)) as (U & N16 & Bl).
  rewrite <- Bs in U, N16, Bl.
  set (n := length (filter is_sampler (R3D_Shader.registered (custom sh))))
    in *.
  match goal with
  | |- units ?T = _ /\ _ =>
      assert (units T = slots_from 5 n ++ builtin_units (Some sh)) as Ut
  end.
  { cbn [app units]. rewrite !units_app, Up, U. reflexivity. }
  destruct (builtin_units_apart (Some sh)) as [Nb Rb].
  split; [exact Ut|]. rewrite Ut.
  split.
  { apply NoDup_app; [apply slots_from_apart|exact Nb|].
    intros x Hx Hb. apply slots_from_range in Hx. apply Rb in Hb. lia. }
  split.
  { apply Forall_app. split; apply Forall_forall; intros x Hx.
    - apply slots_from_range in Hx. lia.
    - apply Rb in Hx. lia. }
  unfold R3D_CustomShaderGetTexBoneMatricesLoc, R3D_CustomShaderGetTexAlbedoLoc,
    R3D_CustomShaderGetTexNormalLoc, R3D_CustomShaderGetTexEmissionLoc,
    R3D_CustomShaderGetTexORMLoc.
  rewrite Bl.
  repeat split; intro L;
    do 5 right; apply in_or_app; right; unfold fill;
    destruct (discover_custom_uniforms
                (uniform_location d (created_program d))
                (active_uniforms d (created_program d))
                (R3D_Shader.fresh (created_program d))) as [sh0 found];
    cbn [snd]; rewrite !in_app_iff;
    match goal with
    | |- context [In (gl (GL.glUniform1i ?l ?k)) (sampler_unit ?l ?k)] =>
        pose proof (@sampler_unit_in l k L)
    end; tauto.
Qed.

End Creation.

(* ===================================================================== *)
(** * Decals, particle systems and whole models *)
(* ===================================================================== *)

Section MoreSubmissions.

Import Draw Submission Scattered Whole.

Variable layers_has : Z -> bool.
Variable R3D_GetDefaultMaterial : R3D_Material.t.
Variable unit_box_without_shadow : Z.
Variable R3D_MATRIX_IDENTITY : Matrix.
Variables sizeof_R3D_Particle offsetof_transform offsetof_color : Z.

Lemma pushed_call_index (g : r3d_draw_group_t.t) (c : r3d_draw_call_t.t)
    (decal : bool) (st : draw_lists) :
  r3d_draw_call_push c decal (r3d_draw_group_push g st)
  = {| groups := groups st ++ [g];
       calls := calls st ++ [(length (groups st), c, decal)] |}.
Proof.
  unfold r3d_draw_call_push, r3d_draw_group_push. simpl.
  rewrite length_app. simpl.
  replace (length (groups st) + 1 - 1) with (length (groups st)) by lia.
  reflexivity.
Qed.

(** X13. A decal is enqueued whatever the circumstances: [R3D_DrawDecal]
    and [R3D_DrawDecalInstanced] consult neither the visible layers nor,
    for the instanced one, the instance count or the transforms pointer;
    each adds exactly one group and one call, flagged as decal, with the
    decal's material and the unit box, the instanced group carrying the
    count and the pointer as given, be they 0 or NULL. Only a NULL decal
    is not enqueued: it is dereferenced. *)
Theorem decals_are_enqueued_unconditionally
    (dc : R3D_Decal.t) (transform : Matrix)
    (instanceTransforms : option Z) (instanceCount : Z) (st : draw_lists) :
  let drawCall :=
    {| r3d_draw_call_t.material := R3D_Decal.material dc;
       r3d_draw_call_t.mesh :=
         {| R3D_Mesh.layerMask := 0;
            R3D_Mesh.geometry := unit_box_without_shadow |} |} in
  (exists g,
     R3D_DrawDecal unit_box_without_shadow (Some dc) transform st
     = Ok {| groups := groups st ++ [g];
             calls := calls st ++ [(length (groups st), drawCall, true)] |}
     /\ r3d_draw_group_t.transform g = transform
     /\ r3d_draw_group_t.instanced g = instanced_t.zero)
  /\ (exists g,
        R3D_DrawDecalInstanced unit_box_without_shadow R3D_MATRIX_IDENTITY
          (Some dc) instanceTransforms instanceCount st
        = Ok {| groups := groups st ++ [g];
                calls := calls st ++ [(length (groups st), drawCall, true)] |}
        /\ r3d_draw_group_t.transform g = R3D_MATRIX_IDENTITY
        /\ instanced_t.count (r3d_draw_group_t.instanced g) = instanceCount
        /\ instanced_t.transforms (r3d_draw_group_t.instanced g)
           = instanceTransforms)
  /\ R3D_DrawDecal unit_box_without_shadow None transform st = Fault
  /\ R3D_DrawDecalInstanced unit_box_without_shadow R3D_MATRIX_IDENTITY
       None instanceTransforms instanceCount st = Fault.
Proof.
  intro drawCall. split; [|split; [|split; reflexivity]].
  - eexists. unfold R3D_DrawDecal. rewrite pushed_call_index.
    split; [reflexivity|]. split; reflexivity.
  - eexists. unfold R3D_DrawDecalInstanced. rewrite pushed_call_index.
    split; [reflexivity|]. repeat split; reflexivity.
Qed.

(** X14. [R3D_DrawParticleSystemEx] returns at once, leaving the draw
    lists as they are, when the system or the mesh is NULL (the mesh
    submission it relies on would dereference a NULL mesh). With both at
    hand and the array of particles in place it adds one group and one
    call if the mesh is on a visible layer and the system counts at least
    one particle, and nothing otherwise; the group then has the box of the
    system, the addresses of the first particle's transform and colour,
    the size of a particle as both strides and the count of the system;
    the call has the material given, or the default one for NULL. *)
Theorem particle_systems_are_guarded
    (material : option R3D_Material.t) (transform : Matrix) (st : draw_lists) :
  (forall mesh,
     R3D_DrawParticleSystemEx layers_has R3D_GetDefaultMaterial
       sizeof_R3D_Particle offsetof_transform offsetof_color
       None mesh material transform st = Ok st)
  /\ (forall system,
        R3D_DrawParticleSystemEx layers_has R3D_GetDefaultMaterial
          sizeof_R3D_Particle offsetof_transform offsetof_color
          system None material transform st = Ok st)
  /\ R3D_DrawMeshInstancedPro layers_has R3D_GetDefaultMaterial
       None material None transform None 0 None 0 1 st = Fault
  /\ (forall sy me first,
        R3D_ParticleSystem.particles sy = Some first ->
        R3D_DrawParticleSystemEx layers_has R3D_GetDefaultMaterial
          sizeof_R3D_Particle offsetof_transform offsetof_color
          (Some sy) (Some me) material transform st
        = if layers_has (R3D_Mesh.layerMask me)
             && negb (R3D_ParticleSystem.count sy =? 0)%Z
          then
            Ok {| groups :=
                    groups st
                    ++ [{| r3d_draw_group_t.aabb := BoundingBox.zero;
                           r3d_draw_group_t.transform := transform;
                           r3d_draw_group_t.skeleton := 0;
                           r3d_draw_group_t.player := None;
                           r3d_draw_group_t.instanced :=
                             {| instanced_t.allAabb := R3D_ParticleSystem.aabb sy;
                                instanced_t.transforms :=
                                  Some (first + offsetof_transform)%Z;
                                instanced_t.transStride := sizeof_R3D_Particle;
                                instanced_t.colStride := sizeof_R3D_Particle;
                                instanced_t.colors :=
                                  Some (first + offsetof_color)%Z;
                                instanced_t.count :=
                                  R3D_ParticleSystem.count sy |} |}];
                  calls :=
                    calls st
                    ++ [(length (groups st),
                         {| r3d_draw_call_t.material :=
                              match material with
                              | Some m => m
                              | None => R3D_GetDefaultMaterial
                              end;
                            r3d_draw_call_t.mesh := me |},
                         false)] |}
          else Ok st).
Proof.
  split; [reflexivity|]. split; [intros [sy|]; reflexivity|].
  split; [reflexivity|].
  intros sy me first P. unfold R3D_DrawParticleSystemEx. rewrite P.
  unfold R3D_DrawMeshInstancedPro.
  destruct (layers_has (R3D_Mesh.layerMask me)); [|reflexivity].
  cbn [negb andb].
  destruct (R3D_ParticleSystem.count sy =? 0)%Z; [reflexivity|].
  cbn [negb]. rewrite pushed_call_index. reflexivity.
Qed.




End MoreSubmissions.

(* ===================================================================== *)
(** * The lights of a forward draw call *)
(* ===================================================================== *)

Section Lights.

Import ForwardLights.

Variable N : nat.
Variable CheckCollisionBoxes : r3d_light_t -> bool.

Lemma enabled_writes_app (t1 t2 : list call) :
  enabled_writes (t1 ++ t2) = enabled_writes t1 ++ enabled_writes t2.
Proof.
  induction t1 as [|c t1 IH]; simpl; [reflexivity|].
  destruct c as [i m v| | | | |]; try exact IH.
  destruct m; try exact IH. destruct v; [|exact IH].
  simpl. now rewrite IH.
Qed.

Lemma lights_sent_app (t1 t2 : list call) :
  lights_sent (t1 ++ t2) = lights_sent t1 ++ lights_sent t2.
Proof.
  induction t1 as [|c t1 IH]; simpl; [reflexivity|].
  destruct c as [i m v| | | | |]; try exact IH.
  destruct m; try exact IH. destruct v; [exact IH|].
  simpl. now rewrite IH.
Qed.

(** What is sent for one light. *)
Lemma send_one (i : nat) (light : r3d_light_t) :
  enabled_writes (send i light) = [(i, true)]
  /\ lights_sent (send i light) = [(i, light)]
  /\ Forall (fun c => index_of c = i) (send i light).
Proof.
  unfold send. destruct (type light); destruct (shadow light);
    (split; [reflexivity|]; split; [reflexivity|]; repeat constructor).
Qed.

(** The loop from an index below the number of slots. *)
Lemma send_loop_spec (visible : list r3d_light_t) :
  forall k,
    k < N ->
    let sel := firstn (N - k) (filter (reaches CheckCollisionBoxes) visible) in
    let r := send_loop N CheckCollisionBoxes visible k in
    fst r = k + length sel
    /\ enabled_writes (snd r) = map (fun i => (i, true)) (seq k (length sel))
    /\ lights_sent (snd r) = combine (seq k (length sel)) sel
    /\ Forall (fun c => index_of c < N) (snd r).
Proof.
  induction visible as [|light rest IH]; intros k Hk; cbv zeta.
  - cbn [filter send_loop fst snd]. rewrite firstn_nil. cbn [length seq map combine].
    split; [lia|]. split; [reflexivity|]. split; [reflexivity|constructor].
  - cbn [filter send_loop].
    destruct (reaches CheckCollisionBoxes light) eqn:R; unfold reaches in R.
    + replace (negb (is_dir light) && negb (CheckCollisionBoxes light))
        with false
        by (destruct (is_dir light), (CheckCollisionBoxes light);
            simpl in *; congruence).
      destruct (send_one k light) as (E1 & L1 & I1).
      assert (Forall (fun c => index_of c < N) (send k light)) as I1'
        by (eapply Forall_impl; [|exact I1]; cbv beta; intros c ->; exact Hk).
      replace (N - k) with (S (N - S k)) by lia. rewrite firstn_cons.
      cbn [length seq map combine].
      destruct (Nat.eqb (S k) N) eqn:Last.
      * apply Nat.eqb_eq in Last. cbn [fst snd].
        replace (N - S k) with 0 by lia. rewrite firstn_O.
        cbn [length seq map combine].
        split; [lia|]. split; [exact E1|]. split; [exact L1|exact I1'].
      * apply Nat.eqb_neq in Last.
        assert (S k < N) as Hk' by lia.
        specialize (IH (S k) Hk'). cbv zeta in IH.
        destruct (send_loop N CheckCollisionBoxes rest (S k)) as [last more].
        cbn [fst snd] in *. destruct IH as (F & E & L & I).
        rewrite enabled_writes_app, lights_sent_app, E1, L1, E, L.
        split; [lia|]. split; [reflexivity|]. split; [reflexivity|].
        apply Forall_app; split; assumption.
    + replace (negb (is_dir light) && negb (CheckCollisionBoxes light))
        with true
        by (destruct (is_dir light), (CheckCollisionBoxes light);
            simpl in *; congruence).
      apply IH. exact Hk.
Qed.

Lemma disable_from_spec (k : nat) :
  enabled_writes (disable_from N k)
  = map (fun i => (i, false)) (seq k (N - k))
  /\ lights_sent (disable_from N k) = []
  /\ Forall (fun c => index_of c < N) (disable_from N k).
Proof.
  unfold disable_from.
  assert (forall l,
            enabled_writes
              (map (fun i => R3D_SHADER_SET i enabled (flag false)) l)
            = map (fun i => (i, false)) l
            /\ lights_sent
                 (map (fun i => R3D_SHADER_SET i enabled (flag false)) l) = [])
    as G.
  { induction l as [|i l [IH1 IH2]]; simpl; [auto|]. now rewrite IH1, IH2. }
  destruct (G (seq k (N - k))) as [G1 G2].
  split; [exact G1|]. split; [exact G2|].
  apply Forall_forall. intros c Hc. apply in_map_iff in Hc.
  destruct Hc as (i & <- & Hi). apply in_seq in Hi. simpl. lia.
Qed.

(** X16. With at least one light slot, [pass_scene_forward_send_lights]
    fills the slots in order and leaves none undefined: the lights sent
    are the first [R3D_SHADER_FORWARD_NUM_LIGHTS] visible lights that are
    directional or whose box meets that of the mesh, in the order of the
    visible lights, at the indices 0, 1, 2, ...; every slot has its
    [enabled] flag written exactly once, true for the slots that received
    a light and false for all the others; no index reaches the number of
    slots; and every shadow map bound for a slot is among those the end of
    [pass_scene_forward] unbinds. *)
Theorem forward_lights_fill_the_slots_in_order
    (visible : list r3d_light_t) :
  1 <= N ->
  let t := pass_scene_forward_send_lights N CheckCollisionBoxes visible in
  let sel := firstn N (filter (reaches CheckCollisionBoxes) visible) in
  lights_sent t = combine (seq 0 (length sel)) sel
  /\ enabled_writes t
     = map (fun i => (i, Nat.ltb i (length sel))) (seq 0 N)
  /\ Forall (fun c => index_of c < N) t
  /\ (forall c u,
        In c t -> undone_by c = Some u -> In u (unbind_shadow_maps N)).
Proof.
  intros H1 t sel.
  pose proof (@send_loop_spec visible 0 H1) as S. cbv zeta in S.
  rewrite Nat.sub_0_r in S. fold sel in S.
  subst t. unfold pass_scene_forward_send_lights.
  destruct (send_loop N CheckCollisionBoxes visible 0) as [k sent].
  cbn [fst snd] in S. destruct S as (F & E & L & I).
  simpl in F. subst k.
  destruct (disable_from_spec (length sel)) as (DE & DL & DI).
  assert (length sel <= N) as Le by apply firstn_le_length.
  assert (Forall (fun c => index_of c < N)
            (sent ++ disable_from N (length sel))) as In_range
    by (apply Forall_app; split; assumption).
  split; [|split; [|split]].
  - rewrite lights_sent_app, L, DL. apply app_nil_r.
  - rewrite enabled_writes_app, E, DE.
    assert (seq 0 N
            = seq 0 (length sel) ++ seq (length sel) (N - length sel)) as Sq.
    { replace (seq 0 N) with (seq 0 (length sel + (N - length sel)))
        by (f_equal; lia).
      now rewrite seq_app. }
    rewrite Sq, map_app. f_equal.
    + apply map_ext_in. intros i Hi. apply in_seq in Hi.
      replace (Nat.ltb i (length sel)) with true
        by (symmetry; apply Nat.ltb_lt; lia).
      reflexivity.
    + apply map_ext_in. intros i Hi. apply in_seq in Hi.
      replace (Nat.ltb i (length sel)) with false
        by (symmetry; apply Nat.ltb_ge; lia).
      reflexivity.
  - exact In_range.
  - intros c u Hc Hu.
    pose proof (proj1 (Forall_forall _ _) In_range c Hc) as Hi.
    cbv beta in Hi. unfold unbind_shadow_maps. apply in_flat_map.
    exists (index_of c). split; [apply in_seq; lia|].
    destruct c; simpl in Hu; inversion Hu; subst; simpl; auto.
Qed.

End Lights.

(* ===================================================================== *)
(** * The mip chain of the bloom pass *)
(* ===================================================================== *)

Section BloomChain.

Import Bloom.

Local Open Scope Z_scope.

Lemma fed_down (rest : list draw) :
  forall (n : nat) (d : Z) (w : list Z),
    In (d - 1) w ->
    (forall w',
       (forall x, In x w \/ d <= x < d + Z.of_nat n -> In x w') ->
       fed w' rest = true) ->
    fed w (downsampling n d ++ rest) = true.
Proof.
  induction n as [|n IH]; intros d w Hin K.
  - apply K. intros x [H|H]; [exact H|lia].
  - cbn [downsampling app fed sampled target].
    assert (existsb (Z.eqb (d - 1)) w = true) as ->
      by (apply existsb_exists; exists (d - 1); split;
          [exact Hin|apply Z.eqb_refl]).
    replace (d - 1 =? d) with false by (symmetry; apply Z.eqb_neq; lia).
    cbn [negb andb]. apply IH.
    + left. lia.
    + intros w' Hw. apply K. intros x [H|H].
      * apply Hw. left. now right.
      * destruct (Z.eq_dec x d) as [->|Ne].
        -- apply Hw. left. now left.
        -- apply Hw. right. lia.
Qed.

Lemma fed_up :
  forall (n : nat) (d : Z) (w : list Z),
    (forall x, d + 1 - Z.of_nat n < x <= d + 1 -> In x w) ->
    fed w (upsampling n d) = true.
Proof.
  induction n as [|n IH]; intros d w H; [reflexivity|].
  cbn [upsampling fed sampled target].
  assert (existsb (Z.eqb (d + 1)) w = true) as ->
    by (apply existsb_exists; exists (d + 1); split;
        [apply H; lia|apply Z.eqb_refl]).
  replace (d + 1 =? d) with false by (symmetry; apply Z.eqb_neq; lia).
  cbn [negb andb]. apply IH.
  intros x Hx. right. apply H. lia.
Qed.

Lemma downsampling_targets (n : nat) :
  forall d, Forall (fun x => d <= target x < d + Z.of_nat n) (downsampling n d)
            /\ length (downsampling n d) = n.
Proof.
  induction n as [|n IH]; intro d; cbn [downsampling length];
    [split; [constructor|reflexivity]|].
  destruct (IH (d + 1)) as [F L]. split; [|now rewrite L].
  constructor; [cbn [target]; lia|].
  eapply Forall_impl; [|exact F]. cbv beta. intros x Hx. lia.
Qed.

Lemma upsampling_targets (n : nat) :
  forall d, Forall (fun x => d - Z.of_nat n < target x <= d) (upsampling n d)
            /\ length (upsampling n d) = n
            /\ (n <> O ->
                target (last (upsampling n d) (karis_average 0))
                = d - Z.of_nat n + 1).
Proof.
  induction n as [|n IH]; intro d; cbn [upsampling length].
  - split; [constructor|]. split; [reflexivity|]. intro H. now elim H.
  - destruct (IH (d - 1)) as (F & L & T). split; [|split; [now rewrite L|]].
    + constructor; [cbn [target]; lia|].
      eapply Forall_impl; [|exact F]. cbv beta. intros x Hx. lia.
    + intros _. destruct n as [|n'].
      * cbn [upsampling last target]. lia.
      * cbn [last]. cbn [upsampling] in T |- *.
        rewrite T by discriminate. lia.
Qed.

Lemma last_of_app {A : Type} (d : A) (l1 l2 : list A) :
  l2 <> [] -> last (l1 ++ l2) d = last l2 d.
Proof.
  intro Ne. induction l1 as [|x l1 IH]; [reflexivity|].
  cbn [app last]. destruct (l1 ++ l2) eqn:E; [|exact IH].
  destruct l1; [simpl in E; congruence|discriminate].
Qed.

(** X17. With a mip chain of at least one level, the bloom pass stays
    within it and never samples what it has not rendered: the adjusted
    level count lies between 1 and the number of mip levels; every draw
    into the bloom target renders to a level below that count; every
    down- or up-sampling draw samples a level that an earlier draw of the
    same pass rendered to, and which is not the level it renders to; there
    are twice the level count less one such draws, and the last one
    renders to level 0. *)
Theorem bloom_samples_only_what_it_rendered (mipCount converted : Z) :
  1 <= mipCount ->
  let maxLevel := adjust mipCount converted in
  let t := pass_post_bloom mipCount converted in
  1 <= maxLevel <= mipCount
  /\ Forall (fun x => 0 <= target x < maxLevel) t
  /\ fed [] t = true
  /\ Z.of_nat (length t) = 2 * maxLevel - 1
  /\ target (last t (karis_average 0)) = 0.
Proof.
  intros H1 maxLevel t.
  assert (1 <= maxLevel <= mipCount) as R.
  { subst maxLevel. unfold adjust.
    destruct (converted >? mipCount) eqn:A; [lia|].
    destruct (converted <? 1) eqn:B; [lia|].
    apply Z.ltb_ge in B.
    pose proof (Zgt_cases converted mipCount) as G. rewrite A in G. lia. }
  subst t. unfold pass_post_bloom. fold maxLevel.
  set (n := Z.to_nat (maxLevel - 1)).
  assert (Z.of_nat n = maxLevel - 1) as Hn by (subst n; lia).
  destruct (downsampling_targets n 1) as [Fd Ld].
  destruct (upsampling_targets n (maxLevel - 2)) as (Fu & Lu & Tu).
  split; [exact R|]. split; [|split; [|split]].
  - apply Forall_app. split; [repeat constructor; cbn [target]; lia|].
    apply Forall_app. split.
    + eapply Forall_impl; [|exact Fd]. cbv beta. intros x Hx. lia.
    + eapply Forall_impl; [|exact Fu]. cbv beta. intros x Hx. lia.
  - cbn [app fed sampled target andb].
    apply fed_down; [now left|].
    intros w' Hw. apply fed_up. intros x Hx.
    apply Hw. right. lia.
  - rewrite !length_app, Ld, Lu. cbn [length]. lia.
  - destruct n as [|n'] eqn:En.
    + reflexivity.
    + rewrite app_assoc.
      rewrite last_of_app by (cbn [upsampling]; discriminate).
      rewrite Tu by discriminate. lia.
Qed.

End BloomChain.

(* ===================================================================== *)
(** * More of the code on concrete inputs *)
(* ===================================================================== *)

Section MoreExamples.

Import Params Lookup Bind.

Lemma values_set_come_back_at_bind_witness :
  Params.material_ok Samples.plain
  /\ length (lit "uDetail") <= 63
  /\ exists m',
       R3D_SetMaterialTexture (Some Samples.plain) (Some (lit "uDetail"))
         Cases.checker = Ok (Some m')
       /\ bind_uniform m' Cases.detail
          = Ok [GL.glActiveTexture (GL.GL_TEXTURE0 + 6)%Z;
                GL.glBindTexture GL.GL_TEXTURE_2D 42%Z].
Proof.
  assert (material_ok Samples.plain) as OK by reflexivity.
  assert (length (lit "uDetail") <= 63) as L by (vm_compute; lia).
  split; [exact OK|]. split; [exact L|].
  destruct (@values_set_come_back_at_bind Samples.plain (lit "uDetail")
              Cases.detail Samples.one Cases.v12 Cases.v1234 Cases.checker
              OK L eq_refl) as (_ & _ & _ & T).
  exact (T eq_refl).
Defined.

Lemma bind_stays_on_the_custom_texture_units_witness :
  material_ok Samples.tinted
  /\ exists calls,
       R3D_BindCustomUniforms
         (Some (fst (Discover.discover_custom_uniforms Samples.location_of
                       Samples.reported (R3D_Shader.fresh 1))))
         (Some Samples.tinted) = Ok calls
       /\ forallb Units.custom_unit calls = true
       /\ length calls <= 2 * R3D_MAX_CUSTOM_UNIFORMS.
Proof.
  assert (material_ok Samples.tinted) as OK
    by (unfold material_ok; simpl; lia).
  split; [exact OK|].
  exact (@bind_stays_on_the_custom_texture_units Samples.location_of 1%Z
           Samples.reported Samples.tinted OK).
Defined.

Lemma parameters_under_passed_over_names_are_never_sent_witness :
  material_ok Samples.tinted
  /\ Units.passed_over (lit "uRoughness") = true
  /\ exists m',
       R3D_SetMaterialFloat (Some Samples.tinted) (Some (lit "uRoughness"))
         Samples.one = Ok (Some m')
       /\ R3D_BindCustomUniforms
            (Some (fst (Discover.discover_custom_uniforms Samples.location_of
                          Samples.reported (R3D_Shader.fresh 1))))
            (Some m')
          = R3D_BindCustomUniforms
              (Some (fst (Discover.discover_custom_uniforms
                            Samples.location_of Samples.reported
                            (R3D_Shader.fresh 1))))
              (Some Samples.tinted).
Proof.
  assert (material_ok Samples.tinted) as OK
    by (unfold material_ok; simpl; lia).
  assert (Units.passed_over (lit "uRoughness") = true) as P by reflexivity.
  assert (length (lit "uRoughness") <= 63) as L by (vm_compute; lia).
  split; [exact OK|]. split; [exact P|].
  exact (@parameters_under_passed_over_names_are_never_sent
           Samples.location_of 1%Z Samples.reported Samples.tinted
           (lit "uRoughness") R3D_PARAM_FLOAT (Value.set_f Samples.one)
           OK P L).
Defined.

(** A source of two statements, the last one without its newline: all
    lines go to the body, and the terminator of the body is written past
    the buffer. *)
Lemma open_source_overruns_when_one_buffer_takes_all_witness :
  ";"%char <> nl
  /\ Compose.split_user_code
       (lit "float k = 2.0;" ++ nl :: Cases.open_statement ++ [";"%char])
     = Fault.
Proof.
  assert (";"%char <> nl) as Ne by discriminate.
  split; [exact Ne|].
  pose proof (@open_source_overruns_when_one_buffer_takes_all
                (lit "float k = 2.0;" ++ nl :: Cases.open_statement)
                ";"%char Ne) as H.
  rewrite <- app_assoc in H. exact H.
Defined.


Lemma destroying_a_created_shader_leaves_nothing_witness :
  exists c,
    Compose.compose_user_fragment (Create.text_allocated Cases.willing)
      Samples.template (Some Samples.two_lines)
    = Ok c
    /\ exists r t,
         Create.R3D_CreateCustomShader Cases.willing Cases.vertex_template
           Samples.template (Some Samples.two_lines) = Ok (r, t)
         /\ Resources.accounts (t ++ Create.R3D_DestroyCustomShader r)
              Resources.nothing
            = Some Resources.nothing
         /\ (r <> None ->
             Create.R3D_GetCustomShaderProgram r <> 0%Z
             /\ Create.R3D_DestroyCustomShader r
                = [Create.glDeleteProgram (Create.R3D_GetCustomShaderProgram r);
                   Create.RL_FREE Create.shaderStruct]).
Proof.
  eexists. split; [vm_compute; reflexivity|].
  refine (proj1 (@destroying_a_created_shader_leaves_nothing Cases.willing
                   Cases.vertex_template Samples.template Samples.two_lines
                   _ _)).
  vm_compute. reflexivity.
Defined.

Lemma created_samplers_have_units_of_their_own_witness :
  exists sh t,
    Create.R3D_CreateCustomShader Cases.willing Cases.vertex_template
      Samples.template (Some Samples.two_lines) = Ok (Some sh, t)
    /\ Resources.units t = [5; 6; 0; 1; 2; 3]%Z
    /\ NoDup (Resources.units t).
Proof.
  eexists. eexists. split; [vm_compute; reflexivity|].
  split; [vm_compute; reflexivity|].
  refine (proj1 (proj2 (@created_samplers_have_units_of_their_own
                          Cases.willing Cases.vertex_template
                          Samples.template Samples.two_lines _ _ _))).
  vm_compute. reflexivity.
Defined.


(** Two slots and four visible lights, of which the sun, the lamp and
    the torch reach the mesh: the sun and the lamp are sent, the torch is
    not. *)
Lemma forward_lights_fill_the_slots_in_order_witness :
  1 <= 2
  /\ ForwardLights.lights_sent
       (ForwardLights.pass_scene_forward_send_lights 2 Cases.near
          [Cases.sun; Cases.far_lamp; Cases.lamp; Cases.torch])
     = [(0, Cases.sun); (1, Cases.lamp)]
  /\ ForwardLights.enabled_writes
       (ForwardLights.pass_scene_forward_send_lights 2 Cases.near
          [Cases.sun; Cases.far_lamp; Cases.lamp; Cases.torch])
     = [(0, true); (1, true)].
Proof.
  assert (1 <= 2) as H by lia.
  split; [exact H|].
  destruct (@forward_lights_fill_the_slots_in_order 2 Cases.near
              [Cases.sun; Cases.far_lamp; Cases.lamp; Cases.torch] H)
    as (L & E & _ & _).
  split; [exact L|exact E].
Defined.

(** Five mip levels, of which three are used. *)
Lemma bloom_samples_only_what_it_rendered_witness :
  (1 <= 5)%Z
  /\ Bloom.fed [] (Bloom.pass_post_bloom 5 3) = true
  /\ Bloom.pass_post_bloom 5 3
     = [Bloom.karis_average 0; Bloom.downsample 0 1; Bloom.downsample 1 2;
        Bloom.upsample 2 1; Bloom.upsample 1 0]%Z.
Proof.
  assert (1 <= 5)%Z as H by lia.
  split; [exact H|].
  destruct (@bloom_samples_only_what_it_rendered 5%Z 3%Z H)
    as (_ & _ & F & _ & _).
  split; [exact F|reflexivity].
Defined.

(** A source of one statement that no newline closes: creation runs into
    the overrun of the split before it asks anything of GL. *)
Example statement_without_newline_is_lost_to_creation :
  Create.R3D_CreateCustomShader Cases.willing Cases.vertex_template
    Samples.template (Some (Cases.open_statement ++ [";"%char]))
  = Fault.
Proof. vm_compute. reflexivity. Qed.

(** No room for the composed text: creation returns NULL, the two buffers
    of the split are released, and GL is not asked anything. *)
Example creation_without_room_for_the_text :
  Compose.compose_user_fragment (Create.text_allocated Cases.short_of_memory)
    Samples.template (Some Samples.two_lines)
  = Ok None
  /\ Create.R3D_CreateCustomShader Cases.short_of_memory Cases.vertex_template
       Samples.template (Some Samples.two_lines)
     = Ok (None, [Create.RL_MALLOC Create.userUniforms;
                  Create.RL_MALLOC Create.userBody;
                  Create.RL_FREE Create.userUniforms;
                  Create.RL_FREE Create.userBody]).
Proof. vm_compute. split; reflexivity. Qed.

End MoreExamples.

(* ===================================================================== *)
(** * A draw call rasterised with a custom shader *)
(* ===================================================================== *)

Section Rasterising.

Import Discover Protocol Params Lookup Bind Raster.

Local Open Scope Z_scope.

Variable R3D_IsSkeletonValid : Z -> bool.
Variable texGlobalPose : Z -> Z.
Variable texBindPose : Z -> Z.
Variable r3d_draw_has_instances : Draw.r3d_draw_group_t.t -> bool.
Variable r3d_matrix_normal : Draw.Matrix -> Draw.Matrix.
Variable R3D_TEXTURE_SELECT : Z -> fallback -> Z.
Variable scene_geometry_id : Z.

Lemma track_app (t1 t2 : list call) (unit target : Z) :
  forall st,
    track (t1 ++ t2) unit target st
    = track t2 unit target (track t1 unit target st).
Proof.
  induction t1 as [|c t1 IH]; intro st; [reflexivity|].
  destruct c as [g| | | | | | |]; cbn [app track]; try apply IH.
  destruct g; apply IH.
Qed.

Lemma programs_used_app (t1 t2 : list call) :
  programs_used (t1 ++ t2) = programs_used t1 ++ programs_used t2.
Proof.
  induction t1 as [|c t1 IH]; [reflexivity|].
  destruct c as [g| | | | | | |]; cbn [app programs_used]; try apply IH.
  destruct g; cbn [app]; now rewrite ?IH.
Qed.

Lemma draws_app (t1 t2 : list call) :
  draws (t1 ++ t2) = draws t1 ++ draws t2.
Proof.
  induction t1 as [|c t1 IH]; [reflexivity|].
  destruct c as [g| | | | | | |]; cbn [app draws]; now rewrite ?IH.
Qed.

(** Plain calls change neither the textures, nor the program, nor do
    they draw. *)
Lemma plain_calls (t : list call) :
  forallb plain t = true ->
  (forall unit target st, track t unit target st = st)
  /\ programs_used t = []
  /\ draws t = [].
Proof.
  induction t as [|c t IH]; intro H; [repeat split|].
  cbn [forallb] in H. apply andb_true_iff in H. destruct H as [Hc Ht].
  destruct (IH Ht) as (T & P & D).
  destruct c as [g| | | | | | |]; try discriminate Hc;
    try (split; [intros; cbn [track]; apply T|split; assumption]).
  destruct g; try discriminate Hc;
    (split; [intros; cbn [track]; apply T|split; assumption]).
Qed.

Lemma at_location_plain (shader : option Create.shader_object)
    (loc : Create.Builtins.t -> Z) (send : Z -> call) :
  (forall l, plain (send l) = true) ->
  forallb plain (at_location shader loc send) = true.
Proof.
  intro H. unfold at_location. destruct shader as [s|]; [|reflexivity].
  destruct (0 <=? loc (Create.builtin s)); [|reflexivity].
  cbn [forallb]. now rewrite H.
Qed.

Ltac setter :=
  apply at_location_plain; intro; reflexivity.

(** The calls owed to custom uniforms neither change the program nor
    draw. *)
Lemma custom_calls_stay (ps : list R3D_MaterialParam.t)
    (infos : list R3D_UniformInfo.t) :
  programs_used (map gl (flat_map (calls_for ps) infos)) = []
  /\ draws (map gl (flat_map (calls_for ps) infos)) = [].
Proof.
  induction infos as [|h infos [IH1 IH2]]; [split; reflexivity|].
  cbn [flat_map]. rewrite map_app, programs_used_app, draws_app, IH1, IH2.
  unfold calls_for.
  destruct (first_named (R3D_UniformInfo.name h) ps 0) as [[j p]|];
    [|split; reflexivity].
  unfold typed_calls. destruct (R3D_UniformInfo.type h); split; reflexivity.
Qed.

(** The calls owed to custom uniforms leave a unit alone that is the
    unit of none of their samplers. *)
Lemma track_custom_other (ps : list R3D_MaterialParam.t) (unit target : Z)
    (infos : list R3D_UniformInfo.t) :
  (forall info,
     In info infos -> R3D_UniformInfo.type info = R3D_PARAM_TEX2D ->
     GL.GL_TEXTURE0 + R3D_UniformInfo.texSlot info <> unit) ->
  forall st,
    snd (track (map gl (flat_map (calls_for ps) infos)) unit target st)
    = snd st.
Proof.
  induction infos as [|h infos IH]; intros H st; [reflexivity|].
  cbn [flat_map]. rewrite map_app, track_app.
  rewrite IH by (intros info Hin; apply H; now right).
  unfold calls_for.
  destruct (first_named (R3D_UniformInfo.name h) ps 0) as [[j p]|];
    [|reflexivity].
  unfold typed_calls.
  destruct (R3D_UniformInfo.type h) eqn:T; try reflexivity.
  cbn [map track fst snd].
  assert (GL.GL_TEXTURE0 + R3D_UniformInfo.texSlot h <> unit) as Ne
    by (apply H; [now left|exact T]).
  apply Z.eqb_neq in Ne. rewrite Ne. reflexivity.
Qed.

(** After the calls owed to custom uniforms whose samplers have units of
    their own, the unit of a sampler under whose name a parameter is
    stored has the texture of that parameter. *)
Lemma track_custom_found (ps : list R3D_MaterialParam.t)
    (infos : list R3D_UniformInfo.t) :
  NoDup (map R3D_UniformInfo.texSlot (filter is_sampler infos)) ->
  forall st info j p,
    In info infos ->
    R3D_UniformInfo.type info = R3D_PARAM_TEX2D ->
    first_named (R3D_UniformInfo.name info) ps 0 = Some (j, p) ->
    snd (track (map gl (flat_map (calls_for ps) infos))
           (GL.GL_TEXTURE0 + R3D_UniformInfo.texSlot info) GL.GL_TEXTURE_2D st)
    = Some (Texture2D.id (Value.tex (R3D_MaterialParam.value p))).
Proof.
  induction infos as [|h infos IH]; intros N st info j p Hin T F;
    [contradiction|].
  cbn [flat_map]. rewrite map_app, track_app.
  cbn [filter] in N. unfold is_sampler at 1 in N.
  destruct Hin as [->|Hin].
  - rewrite T in N. cbn [map] in N. inversion N as [|? ? Nin Nrest]; subst.
    rewrite track_custom_other.
    + unfold calls_for. rewrite F. unfold typed_calls. rewrite T.
      cbn [map track fst snd]. rewrite !Z.eqb_refl. reflexivity.
    + intros info' Hin' T' E. apply Nin. apply in_map_iff.
      exists info'. split; [lia|].
      apply filter_In. split; [exact Hin'|]. unfold is_sampler. now rewrite T'.
  - apply IH with (j := j); try assumption.
    destruct (R3D_UniformInfo.type h); try exact N.
    cbn [map] in N. now inversion N.
Qed.

(** The end of [raster_geometry_custom] unbinds the units 1 to 4 and no
    other. *)
Lemma track_unbinding (unit : Z) (st : Z * option Z) :
  snd (track (unbinding scene_geometry_id) unit GL.GL_TEXTURE_2D st)
  = if (GL.GL_TEXTURE0 + 1 <=? unit) && (unit <=? GL.GL_TEXTURE0 + 4)
    then Some 0
    else snd st.
Proof.
  unfold unbinding. cbn [track fst snd].
  unfold GL.GL_TEXTURE0, GL.GL_TEXTURE_2D. cbn [Z.add Pos.add Pos.succ].
  rewrite Z.eqb_refl, !andb_true_r.
  destruct (33985 =? unit) eqn:E1; destruct (33986 =? unit) eqn:E2;
    destruct (33987 =? unit) eqn:E3; destruct (33988 =? unit) eqn:E4;
    destruct ((33985 <=? unit) && (unit <=? 33988)) eqn:R;
    try reflexivity;
    rewrite ?Z.eqb_eq, ?Z.eqb_neq in E1, E2, E3, E4;
    rewrite ?andb_true_iff, ?andb_false_iff, ?Z.leb_le, ?Z.leb_gt in R;
    exfalso; lia.
Qed.

Lemma quiet_calls (t : list call) :
  forallb quiet t = true -> programs_used t = [] /\ draws t = [].
Proof.
  induction t as [|c t IH]; intro H; [split; reflexivity|].
  cbn [forallb] in H. apply andb_true_iff in H. destruct H as [Hc Ht].
  destruct (IH Ht) as (P & D).
  destruct c as [g| | | | | | |]; try discriminate Hc;
    try (split; assumption).
  destruct g; try discriminate Hc; split; assumption.
Qed.

Lemma at_location_quiet (shader : option Create.shader_object)
    (loc : Create.Builtins.t -> Z) (send : Z -> call) :
  (forall l, quiet (send l) = true) ->
  forallb quiet (at_location shader loc send) = true.
Proof.
  intro H. unfold at_location. destruct shader as [s|]; [|reflexivity].
  destruct (0 <=? loc (Create.builtin s)); [|reflexivity].
  cbn [forallb]. now rewrite H.
Qed.

(** [raster_geometry_custom] begins by putting the program of the shader
    in use, and then neither changes the program nor draws until the
    custom uniforms are bound. *)
Lemma before_custom_shape (shader : option Create.shader_object)
    (m : maps) (group : Draw.r3d_draw_group_t.t) :
  exists pre,
    before_custom R3D_IsSkeletonValid texGlobalPose texBindPose
      r3d_matrix_normal R3D_TEXTURE_SELECT shader m group
    = gl (GL.glUseProgram (Create.R3D_GetCustomShaderProgram shader)) :: pre
    /\ programs_used pre = []
    /\ draws pre = [].
Proof.
  unfold before_custom. cbn [app]. eexists. split; [reflexivity|].
  apply quiet_calls.
  unfold R3D_CustomShaderSetMatModel, R3D_CustomShaderSetMatNormal,
    R3D_CustomShaderSetSkinning, R3D_CustomShaderSetBillboard,
    R3D_CustomShaderSetEmissionEnergy, R3D_CustomShaderSetNormalScale,
    R3D_CustomShaderSetOcclusion, R3D_CustomShaderSetRoughness,
    R3D_CustomShaderSetMetalness, R3D_CustomShaderSetAlphaCutoff,
    R3D_CustomShaderSetTexCoordOffset, R3D_CustomShaderSetTexCoordScale,
    R3D_CustomShaderSetAlbedoColor, R3D_CustomShaderSetEmissionColor.
  repeat (rewrite forallb_app; apply andb_true_iff; split);
    try (apply at_location_quiet; intro; reflexivity);
    try reflexivity.
  destruct (_ || _); [cbn [app forallb quiet andb]|];
    apply at_location_quiet; intro; reflexivity.
Qed.

(** The draw: one draw, no change of program or textures. *)
Lemma rendering_shape (shader : option Create.shader_object)
    (m : maps) (group : Draw.r3d_draw_group_t.t) :
  programs_used (rendering r3d_draw_has_instances shader m group) = []
  /\ draws (rendering r3d_draw_has_instances shader m group)
     = [if r3d_draw_has_instances group
        then r3d_draw_instanced 10 14 else r3d_draw]
  /\ forall unit target st,
       track (rendering r3d_draw_has_instances shader m group) unit target st
       = st.
Proof.
  unfold rendering, R3D_CustomShaderSetInstancing, at_location.
  destruct (r3d_draw_has_instances group); destruct shader as [s|];
    try destruct (0 <=? Create.Builtins.locInstancing (Create.builtin s));
    repeat split.
Qed.

(** X18. A draw call rasterised with a discovered custom shader and a
    material in good state: [raster_geometry_custom] never fails; it puts
    the program of the shader in use first and the default geometry
    program last, and no program in between; it draws exactly once, with
    or without instances as the group has them; when it returns, the
    units 1 to 4 of the built-in maps have no 2D texture bound, whereas
    the unit of every custom sampler under whose name the material stores
    a parameter still has that parameter's texture bound: the textures of
    custom parameters are bound, and never unbound. *)
Theorem custom_draw_unbinds_the_built_in_units_only
    (location : cstring -> Z) (program : Z) (active : list GL.active_uniform)
    (sh : Create.shader_object) (material : R3D_Material.t) (m : maps)
    (group : Draw.r3d_draw_group_t.t) :
  material_ok material ->
  Create.custom sh
  = fst (discover_custom_uniforms location active (R3D_Shader.fresh program)) ->
  exists t mid,
    raster_geometry_custom R3D_IsSkeletonValid texGlobalPose texBindPose
      r3d_draw_has_instances r3d_matrix_normal R3D_TEXTURE_SELECT
      scene_geometry_id (Some sh) material m group = Ok t
    /\ t = gl (GL.glUseProgram program) :: mid
           ++ [gl (GL.glUseProgram scene_geometry_id)]
    /\ programs_used mid = []
    /\ draws t = [if r3d_draw_has_instances group
                  then r3d_draw_instanced 10 14 else r3d_draw]
    /\ (forall unit k,
          1 <= k <= 4 ->
          bound_after t unit (GL.GL_TEXTURE0 + k) GL.GL_TEXTURE_2D = Some 0)
    /\ (forall unit info j p,
          In info (R3D_Shader.registered (Create.custom sh)) ->
          R3D_UniformInfo.type info = R3D_PARAM_TEX2D ->
          first_named (R3D_UniformInfo.name info)
            (R3D_Material.slots material) 0 = Some (j, p) ->
          bound_after t unit
            (GL.GL_TEXTURE0 + R3D_UniformInfo.texSlot info) GL.GL_TEXTURE_2D
          = Some (Texture2D.id (Value.tex (R3D_MaterialParam.value p)))).
Proof.
  intros OK Hc.
  assert (R3D_Shader.program (Create.custom sh) = program) as Hp.
  { rewrite Hc. apply discover_loop_program. }
  assert (R3D_Shader.registered (Create.custom sh)
          = describe location 5 (firstn 16 (eligible active))) as Hr
    by (rewrite Hc; apply discover_fresh_registered).
  set (ps := R3D_Material.slots material).
  set (infos := R3D_Shader.registered (Create.custom sh)) in *.
  assert (NoDup (map R3D_UniformInfo.texSlot (filter is_sampler infos))) as Nd.
  { rewrite Hr, describe_slots. apply slots_from_apart. }
  unfold raster_geometry_custom, R3D_BindCustomUniforms. cbn [option_map].
  rewrite (@bind_loop_ok material _ OK). cbn [obind]. fold ps infos.
  destruct (before_custom_shape (Some sh) m group) as (pre & Hb & Pb & Db).
  cbn [Create.R3D_GetCustomShaderProgram] in Hb. rewrite Hp in Hb.
  rewrite Hb.
  destruct (rendering_shape (Some sh) m group) as (Pr & Dr & Tr).
  destruct (custom_calls_stay ps infos) as (Pc & Dc).
  set (C := map gl (flat_map (calls_for ps) infos)) in *.
  set (R := rendering r3d_draw_has_instances (Some sh) m group) in *.
  set (U8 := [gl (GL.glActiveTexture (GL.GL_TEXTURE0 + 1));
              gl (GL.glBindTexture GL.GL_TEXTURE_2D 0);
              gl (GL.glActiveTexture (GL.GL_TEXTURE0 + 2));
              gl (GL.glBindTexture GL.GL_TEXTURE_2D 0);
              gl (GL.glActiveTexture (GL.GL_TEXTURE0 + 3));
              gl (GL.glBindTexture GL.GL_TEXTURE_2D 0);
              gl (GL.glActiveTexture (GL.GL_TEXTURE0 + 4));
              gl (GL.glBindTexture GL.GL_TEXTURE_2D 0)]).
  assert (unbinding scene_geometry_id
          = U8 ++ [gl (GL.glUseProgram scene_geometry_id)]) as Hu
    by reflexivity.
  exists ((gl (GL.glUseProgram program) :: pre)
          ++ C ++ R ++ unbinding scene_geometry_id).
  exists (pre ++ C ++ R ++ U8).
  split; [reflexivity|].
  split; [rewrite Hu; cbn [app]; now rewrite <- !app_assoc|].
  split.
  { rewrite !programs_used_app, Pb, Pc, Pr. reflexivity. }
  split.
  { cbn [app draws]. rewrite !draws_app, Db, Dc, Dr. reflexivity. }
  split.
  - intros unit k Hk. unfold bound_after.
    rewrite !track_app, track_unbinding.
    replace ((GL.GL_TEXTURE0 + 1 <=? GL.GL_TEXTURE0 + k)
             && (GL.GL_TEXTURE0 + k <=? GL.GL_TEXTURE0 + 4)) with true;
      [reflexivity|].
    symmetry. apply andb_true_iff. split; apply Z.leb_le; lia.
  - intros unit info j p Hin T F. unfold bound_after.
    rewrite !track_app, track_unbinding, Tr.
    assert (5 <= R3D_UniformInfo.texSlot info) as H5.
    { change (In info infos) in Hin. rewrite Hr in Hin.
      pose proof (@describe_slot_range location _ 5 info Hin T). lia. }
    replace ((GL.GL_TEXTURE0 + 1
              <=? GL.GL_TEXTURE0 + R3D_UniformInfo.texSlot info)
             && (GL.GL_TEXTURE0 + R3D_UniformInfo.texSlot info
                 <=? GL.GL_TEXTURE0 + 4)) with false.
    + now apply track_custom_found with (j := j).
    + symmetry. apply andb_false_iff. right. apply Z.leb_gt. lia.
Qed.

End Rasterising.

(** The sampler [uTexB] of the blend shader, on unit 5, keeps the texture
    42 of the material after the draw, while unit 1 is left without
    texture. *)
Lemma custom_draw_unbinds_the_built_in_units_only_witness :
  Params.material_ok Cases.textured
  /\ exists t,
       Raster.raster_geometry_custom (fun _ => false) (fun x => x) (fun x => x)
         (fun _ => false) (fun x => x) Cases.select 9
         (Some Cases.blend_shader) Cases.textured Cases.no_maps
         Cases.lone_group = Ok t
       /\ Raster.bound_after t GL.GL_TEXTURE0 (GL.GL_TEXTURE0 + 5)
            GL.GL_TEXTURE_2D = Some 42%Z
       /\ Raster.bound_after t GL.GL_TEXTURE0 (GL.GL_TEXTURE0 + 1)
            GL.GL_TEXTURE_2D = Some 0%Z.
Proof.
  assert (Params.material_ok Cases.textured) as OK
    by (unfold Params.material_ok; simpl; lia).
  split; [exact OK|].
  destruct (@custom_draw_unbinds_the_built_in_units_only
              (fun _ => false) (fun x => x) (fun x => x) (fun _ => false)
              (fun x => x) Cases.select 9%Z Samples.location_of 1%Z
              Samples.reported Cases.blend_shader Cases.textured
              Cases.no_maps Cases.lone_group OK eq_refl)
    as (t & mid & E & _ & _ & _ & B1 & B2).
  exists t. split; [exact E|]. split.
  - apply (B2 GL.GL_TEXTURE0 Cases.uTexB 0 Cases.checker_parameter).
    + vm_compute. left. reflexivity.
    + reflexivity.
    + reflexivity.
  - apply (B1 GL.GL_TEXTURE0 1%Z). lia.
Defined.
